(** * The session manager and resource gateway of the dashboard

    A shallow embedding of [dashboard/src/authProvider.ts] (its static and
    its enhanced version, and the early [httpClient] that accompanies them)
    and of [dashboard/src/dataProvider.ts]. The [getIdentity] of the
    static provider, which only reads, is left out.

    - [localStorage] is a finite map from keys to strings.
    - A promise is modelled by the way it settles ([Resolved] / [Rejected]);
      an [async] function is a function from the storage before the call to
      the settlement and the storage after it.
    - What the browser and the network supply (the answer of [fetch], the
      clock, the texts of engine-raised errors, the REST library) is gathered
      in a [World] record that the operations take as an argument.
    - Nothing reads the console back: of [console.log] and its siblings
      only what the evaluation of their arguments throws is modelled,
      which is what the template literals of [dataProvider.ts] throw
      when they turn [params.id] or [result.data.length] into a text. *)

From Stdlib Require Import ZArith String Ascii List Bool Lia.
From Stdlib Require Import DecimalString DecimalN DecimalFacts.
From Stdlib Require QArith.
From stdpp Require Import base option gmap strings.
Import ListNotations.

Open Scope string_scope.

(** ** JavaScript values that JSON can carry *)

Module JS.

(** A JSON value. A number is kept as the decimal [m * 10^e] its literal
    denotes, so that every number literal of the grammar has a value; the
    double that decimal is rounded to is accounted for where the code can
    observe it: in [truthy], in the text of the number, and in what
    [JSON.stringify] writes for a number that is not finite. An object
    keeps its members as its text lists them; the code reads an object
    only by the names of its members, for which the last binding of a
    name counts. Two values that are equal here are the same JavaScript
    value. *)
#[warnings="-register-all"]
Inductive JSON : Type :=
| JNull
| JBool (b : bool)
| JNum (m e : Z)
| JStr (s : string)
| JArr (elements : list JSON)
| JObj (members : list (string * JSON)).

(** A JavaScript value as this code meets it: [None] is [undefined]. *)
Definition value : Type := option JSON.
Definition undefined : value := None.

(** What is thrown. [new Error(msg)] has kind [KError] and no status; the
    [HttpError] of the REST client has a status and the decoded body. *)
Inductive kind := KError | KTypeError | KSyntaxError | KHttpError.

Record exn : Type := mk_exn {
  name : kind;
  message : string;
  status : option Z;
  body : value
}.

Definition Error (msg : string) : exn := mk_exn KError msg None None.
Definition TypeError (msg : string) : exn := mk_exn KTypeError msg None None.
Definition SyntaxError (msg : string) : exn := mk_exn KSyntaxError msg None None.
Definition HttpError (msg : string) (st : Z) (b : value) : exn :=
  mk_exn KHttpError msg (Some st) b.

(** Evaluation that may throw. *)
Definition M (A : Type) : Type := exn + A.
Definition ret {A} (a : A) : M A := inr a.
Definition throw {A} (e : exn) : M A := inl e.
Definition bind {A B} (m : M A) (k : A -> M B) : M B :=
  match m with inl e => inl e | inr a => k a end.

Notation "x <- m ;; k" := (bind m (fun x => k))
  (at level 20, m at level 99, k at level 200, only parsing).

(** How a promise settles. [Rejected None] is [Promise.reject()]. *)
Inductive settled (A : Type) : Type :=
| Resolved (a : A)
| Rejected (reason : option exn).
Arguments Resolved {A} a.
Arguments Rejected {A} reason.

(** [10^k], for the value of a number. *)
Definition pow10 (k : Z) : Z := 10 ^ k.

(** Whether the number [m * 10^e] converts to the double zero: it does when
    it is at most [2^-1075], half the least positive double (round to
    nearest, ties to even). *)
Definition number_is_zero (m e : Z) : bool :=
  if (0 <=? e)%Z then (m =? 0)%Z
  else (Z.abs m * 2 ^ 1075 <=? pow10 (- e))%Z.

(** ToBoolean. *)
Definition truthy (v : value) : bool :=
  match v with
  | None => false
  | Some JNull => false
  | Some (JBool b) => b
  | Some (JNum m e) => negb (number_is_zero m e)
  | Some (JStr s) => negb (String.eqb s "")
  | Some (JArr _) => true
  | Some (JObj _) => true
  end.

(** [a || b] on values. *)
Definition or_else (a b : value) : value := if truthy a then a else b.

(** The last binding of [k]: when a JSON text repeats a key, the later
    member overwrites the earlier one. *)
Fixpoint lookup_member (k : string) (ms : list (string * JSON)) : value :=
  match ms with
  | [] => None
  | (k', v) :: ms' =>
      match lookup_member k ms' with
      | Some v' => Some v'
      | None => if String.eqb k k' then Some v else None
      end
  end.

(** [v.k] for the property names this code reads ([user], [username],
    [full_name], [email], [role], [access_token], [detail], [token],
    [fullName], [data]): none of them is a property of a primitive
    wrapper, of an array or of [Object.prototype], so only the members of
    an object carry them; reading a property of [null] or [undefined]
    throws a [TypeError] whose text [terr k] the engine chooses. *)
Definition get (terr : string -> string) (v : value) (k : string) : M value :=
  match v with
  | None => throw (TypeError (terr k))
  | Some JNull => throw (TypeError (terr k))
  | Some (JObj ms) => ret (lookup_member k ms)
  | Some _ => ret undefined
  end.

(** Decimal digits of a natural number and of an integer. *)
Definition string_of_N (n : N) : string := NilEmpty.string_of_uint (N.to_uint n).

Definition string_of_Z (z : Z) : string :=
  ((if (z <? 0)%Z then "-" else "") ++ string_of_N (Z.abs_N z))%string.

(** A JSON text of the number [m * 10^e]: the digits of [m], and the
    exponent when it is not zero. JavaScript writes the same number in its
    own shortest form; [JSON.parse] reads either text as that number. *)
Definition string_of_number (m e : Z) : string :=
  if (e =? 0)%Z then string_of_Z m
  else (string_of_Z m ++ "e" ++ string_of_Z e)%string.

(** *** The double a number stands for, and its text

    A number literal stands for the double nearest to its decimal (ties
    to the even mantissa). The code can observe that double in two
    ways besides its truth value: by the text [Number::toString] gives
    it, and by whether it is finite. Both are computed here on exact
    fractions. *)

(** A positive rational, as numerator and denominator. *)
Definition frac : Type := (Z * Z)%type.

Definition pow2 (p : Z) : frac :=
  if (0 <=? p)%Z then (2 ^ p, 1)%Z else (1, 2 ^ (- p))%Z.
Definition pow10f (p : Z) : frac :=
  if (0 <=? p)%Z then (10 ^ p, 1)%Z else (1, 10 ^ (- p))%Z.
Definition fmul (a b : frac) : frac := (fst a * fst b, snd a * snd b)%Z.
Definition fle (a b : frac) : bool := (fst a * snd b <=? fst b * snd a)%Z.
Definition flt (a b : frac) : bool := (fst a * snd b <? fst b * snd a)%Z.
Definition of_Z (z : Z) : frac := (z, 1%Z).
Definition ffloor (a : frac) : Z := (fst a / snd a)%Z.

(** [|m| * 10^e]. *)
Definition magnitude (m e : Z) : frac := fmul (of_Z (Z.abs m)) (pow10f e).

(** Whether [m * 10^e] converts to an infinity: it does from
    [2^1024 - 2^970] on, half way between the greatest double and
    [2^1024]. *)
Definition number_overflows (m e : Z) : bool :=
  fle (of_Z (2 ^ 1024 - 2 ^ 970)) (magnitude m e).

(** The double nearest to a positive rational [v] below that bound: its
    mantissa [M] and exponent [q], of value [M * 2^q]. *)
Definition to_double (v : frac) : Z * Z :=
  let e0 := (Z.log2 (fst v) - Z.log2 (snd v))%Z in
  let E := if fle (pow2 e0) v then e0 else (e0 - 1)%Z in
  let q := Z.max (E - 52) (-1074) in
  let x := fmul v (pow2 (- q)) in
  let Q := (fst x / snd x)%Z in
  let R := (fst x mod snd x)%Z in
  let M := if (2 * R <? snd x)%Z then Q
           else if (snd x <? 2 * R)%Z then (Q + 1)%Z
           else if Z.even Q then Q else (Q + 1)%Z in
  if (M =? 2 ^ 53)%Z then (2 ^ 52, q + 1)%Z else (M, q).

(** The decimal exponent [n] of [d]: [10^(n-1) <= d < 10^n]. *)
Fixpoint exp_up (fuel : nat) (d : frac) (n : Z) : Z :=
  match fuel with
  | O => n
  | S fuel => if fle (pow10f n) d then exp_up fuel d (n + 1) else n
  end.

Fixpoint exp_down (fuel : nat) (d : frac) (n : Z) : Z :=
  match fuel with
  | O => n
  | S fuel => if flt d (pow10f (n - 1)) then exp_down fuel d (n - 1) else n
  end.

Definition decimal_exponent (M q : Z) : Z :=
  let d := fmul (of_Z M) (pow2 q) in
  let n0 := ((Z.log2 M + q) * 30103 / 100000)%Z in
  exp_down 4 d (exp_up 4 d n0).

Fixpoint strip_zeros (fuel : nat) (s p : Z) : Z * Z :=
  match fuel with
  | O => (s, p)
  | S fuel =>
      if ((s mod 10 =? 0) && (0 <? s))%Z then strip_zeros fuel (s / 10) (p + 1)
      else (s, p)
  end.

(** The decimal [s * 10^p] with the fewest digits (from [k] digits on)
    that the double [M * 2^q] is the nearest double of, and among those
    the one nearest to it. *)
Fixpoint shortest (fuel : nat) (k : Z) (M q n : Z) : Z * Z :=
  let d := fmul (of_Z M) (pow2 q) in
  let hi := fmul (of_Z (2 * M + 1)) (pow2 (q - 1)) in
  let lo := if ((M =? 2 ^ 52) && (-1074 <? q))%Z
            then fmul (of_Z (4 * M - 1)) (pow2 (q - 2))
            else fmul (of_Z (2 * M - 1)) (pow2 (q - 1)) in
  let inside (x : frac) :=
    if Z.even M then fle lo x && fle x hi else flt lo x && flt x hi in
  let p := (n - k)%Z in
  let s_lo := ffloor (fmul d (pow10f (- p))) in
  let s_hi := (s_lo + 1)%Z in
  let v_lo := fmul (of_Z s_lo) (pow10f p) in
  let v_hi := fmul (of_Z s_hi) (pow10f p) in
  let mid := fmul (of_Z (2 * s_lo + 1)) (pow10f p) in
  let twice := fmul (of_Z 2) d in
  let nearest :=
    if flt twice mid then s_lo
    else if flt mid twice then s_hi
    else if Z.even s_lo then s_lo else s_hi in
  match fuel with
  | O => (nearest, p)
  | S fuel =>
      match inside v_lo, inside v_hi with
      | true, true => (nearest, p)
      | true, false => (s_lo, p)
      | false, true => (s_hi, p)
      | false, false => shortest fuel (k + 1) M q n
      end
  end.

Definition zeros (n : Z) : string :=
  (fix z (k : nat) : string :=
     match k with
     | O => ""
     | S k => String "0" (z k)
     end) (Z.to_nat n).

Definition digits (s : Z) : string := string_of_N (Z.to_N s).

Definition take (n : Z) (s : string) : string := String.substring 0 (Z.to_nat n) s.
Definition drop (n : Z) (s : string) : string :=
  String.substring (Z.to_nat n) (String.length s - Z.to_nat n) s.

(** [Number::toString] of the positive finite double with the digits
    [s] and the decimal exponent [n]. *)
Definition format_number (s n : Z) : string :=
  let D := digits s in
  let k := Z.of_nat (String.length D) in
  if ((k <=? n) && (n <=? 21))%Z then D ++ zeros (n - k)
  else if ((0 <? n) && (n <=? 21))%Z then take n D ++ "." ++ drop n D
  else if ((-6 <? n) && (n <=? 0))%Z then "0." ++ zeros (- n) ++ D
  else
    let x := (n - 1)%Z in
    let mant := if (k =? 1)%Z then D else take 1 D ++ "." ++ drop 1 D in
    mant ++ "e" ++ (if (x <? 0)%Z then "-" else "+") ++ digits (Z.abs x).

(** The text a template literal and [new Error(x)] give the number
    [m * 10^e]: [Number::toString] of the double it stands for. *)
Definition number_to_string (m e : Z) : string :=
  if number_is_zero m e then "0"
  else if number_overflows m e then
    (if (m <? 0)%Z then "-Infinity" else "Infinity")
  else
    let '(M, q) := to_double (magnitude m e) in
    let n := decimal_exponent M q in
    let '(s0, p0) := shortest 17 1 M q n in
    let '(s, p) := strip_zeros 20 s0 p0 in
    let k := Z.of_nat (String.length (digits s)) in
    (if (m <? 0)%Z then "-" else "") ++ format_number s (p + k).

(** *** ToString

    An object that JSON built has no callable [toString] or [valueOf] of
    its own: when it has a member named [toString], the conversion finds
    that member, cannot call it, gets the object itself back from the
    inherited [valueOf], and throws a [TypeError]. Without such a member
    the inherited [toString] answers. An array is joined, and throws
    where one of its elements does. *)
Fixpoint printable (v : JSON) : bool :=
  match v with
  | JArr l =>
      (fix all (l : list JSON) : bool :=
         match l with
         | [] => true
         | x :: l' => printable x && all l'
         end) l
  | JObj ms =>
      match lookup_member "toString" ms with
      | Some _ => false
      | None => true
      end
  | _ => true
  end.

(** The text of a value whose conversion does not throw. *)
Fixpoint string_of_JSON (v : JSON) : string :=
  match v with
  | JNull => "null"
  | JBool true => "true"
  | JBool false => "false"
  | JNum m e => number_to_string m e
  | JStr s => s
  | JArr l =>
      (fix join (l : list JSON) : string :=
         match l with
         | [] => ""
         | x :: l' =>
             let sx := match x with JNull => "" | _ => string_of_JSON x end in
             match l' with
             | [] => sx
             | _ :: _ => (sx ++ "," ++ join l')%string
             end
         end) l
  | JObj _ => "[object Object]"
  end.

Definition string_of_value (v : value) : string :=
  match v with
  | None => "undefined"
  | Some j => string_of_JSON j
  end.

Definition printable_value (v : value) : bool :=
  match v with
  | None => true
  | Some j => printable j
  end.

(** ToString, as a template literal and [new Error(x)] apply it;
    [terr] is the text of the [TypeError] the engine raises. *)
Definition ToString_with (terr : string) (v : value) : M string :=
  if printable_value v then ret (string_of_value v) else throw (TypeError terr).

End JS.

(** ** JSON text: [JSON.stringify] and [JSON.parse]

    A string is the sequence of its bytes; a [\uXXXX] escape decodes to
    the bytes of its code unit (one below 128, two below 2048, else
    three). *)

Module JSONText.
Import JS.

Definition is_ws (c : ascii) : bool :=
  ((c =? " ") || (c =? "009") || (c =? "010") || (c =? "013"))%char.

Fixpoint skip_ws (s : string) : string :=
  match s with
  | String c r => if is_ws c then skip_ws r else s
  | EmptyString => s
  end.

Fixpoint strip_prefix (p s : string) : option string :=
  match p with
  | EmptyString => Some s
  | String a p' =>
      match s with
      | String b s' => if (a =? b)%char then strip_prefix p' s' else None
      | EmptyString => None
      end
  end.

Definition is_control (c : ascii) : bool := (N_of_ascii c <? 32)%N.

Definition digit_of (c : ascii) : option (Decimal.uint -> Decimal.uint) :=
  (if c =? "0" then Some Decimal.D0 else if c =? "1" then Some Decimal.D1
   else if c =? "2" then Some Decimal.D2 else if c =? "3" then Some Decimal.D3
   else if c =? "4" then Some Decimal.D4 else if c =? "5" then Some Decimal.D5
   else if c =? "6" then Some Decimal.D6 else if c =? "7" then Some Decimal.D7
   else if c =? "8" then Some Decimal.D8 else if c =? "9" then Some Decimal.D9
   else None)%char.

Definition is_digit (c : ascii) : bool :=
  match digit_of c with Some _ => true | None => false end.

(** The longest run of digits at the head of [s], and what follows it. *)
Fixpoint scan_digits (s : string) : Decimal.uint * string :=
  match s with
  | String c r =>
      match digit_of c with
      | Some d => let (u, r') := scan_digits r in (d u, r')
      | None => (Decimal.Nil, s)
      end
  | EmptyString => (Decimal.Nil, s)
  end.

Definition hex_val (c : ascii) : option N :=
  let n := N_of_ascii c in
  if (48 <=? n)%N && (n <=? 57)%N then Some (n - 48)%N
  else if (65 <=? n)%N && (n <=? 70)%N then Some (n - 55)%N
  else if (97 <=? n)%N && (n <=? 102)%N then Some (n - 87)%N
  else None.

Definition hex4 (a b c d : ascii) : option N :=
  x1 ← hex_val a; x2 ← hex_val b; x3 ← hex_val c; x4 ← hex_val d;
  Some (((x1 * 16 + x2) * 16 + x3) * 16 + x4)%N.

Definition byte (n : N) : string := String (ascii_of_N n) EmptyString.

Definition encode_code_unit (n : N) : string :=
  if (n <? 128)%N then byte n
  else if (n <? 2048)%N then byte (192 + n / 64) ++ byte (128 + n mod 64)
  else byte (224 + n / 4096) ++ byte (128 + (n / 64) mod 64) ++ byte (128 + n mod 64).

(** The character a one-letter escape stands for. *)
Definition unescape (c : ascii) : option ascii :=
  (if c =? "034" then Some "034" else if c =? "\" then Some "\"
   else if c =? "/" then Some "/" else if c =? "b" then Some "008"
   else if c =? "f" then Some "012" else if c =? "n" then Some "010"
   else if c =? "r" then Some "013" else if c =? "t" then Some "009"
   else None)%char.

(** The characters of a string literal after its opening quote, up to
    and including the closing one. *)
Fixpoint parse_string_body (s : string) : option (string * string) :=
  match s with
  | EmptyString => None
  | String c r =>
      if (c =? "034")%char then Some ("", r)
      else if (c =? "\")%char then
        match r with
        | EmptyString => None
        | String x r1 =>
            if (x =? "u")%char then
              match r1 with
              | String h1 (String h2 (String h3 (String h4 r2))) =>
                  n ← hex4 h1 h2 h3 h4;
                  '(str, rest) ← parse_string_body r2;
                  Some (encode_code_unit n ++ str, rest)
              | _ => None
              end
            else
              ch ← unescape x;
              '(str, rest) ← parse_string_body r1;
              Some (String ch str, rest)
        end
      else if is_control c then None
      else
        '(str, rest) ← parse_string_body r;
        Some (String c str, rest)
  end.

(** An integer part has no leading zero. *)
Definition int_part_ok (u : Decimal.uint) : bool :=
  match u with
  | Decimal.Nil => false
  | Decimal.D0 Decimal.Nil => true
  | Decimal.D0 _ => false
  | _ => true
  end.

Definition nonempty_digits (u : Decimal.uint) : bool :=
  match u with Decimal.Nil => false | _ => true end.

Definition Z_of_uint (u : Decimal.uint) : Z := Z.of_N (N.of_uint u).

(** [. digits], when there is one: the digits and what follows. *)
Definition parse_frac (s : string) : option (Decimal.uint * string) :=
  match s with
  | String c r =>
      if (c =? ".")%char then
        let (f, r') := scan_digits r in
        if nonempty_digits f then Some (f, r') else None
      else Some (Decimal.Nil, s)
  | EmptyString => Some (Decimal.Nil, s)
  end.

(** [e] or [E], a sign, digits, when there is one. *)
Definition parse_exp (s : string) : option (Z * string) :=
  match s with
  | String c r =>
      if ((c =? "e") || (c =? "E"))%char then
        let '(neg, r1) :=
          match r with
          | String sg r0 =>
              if (sg =? "-")%char then (true, r0)
              else if (sg =? "+")%char then (false, r0)
              else (false, r)
          | EmptyString => (false, r)
          end in
        let (x, r2) := scan_digits r1 in
        if nonempty_digits x
        then Some (if neg : bool then (- Z_of_uint x)%Z else Z_of_uint x, r2)
        else None
      else Some (0%Z, s)
  | EmptyString => Some (0%Z, s)
  end.

Definition parse_number (s : string) : option (JSON * string) :=
  let '(neg, s1) :=
    match s with
    | String c r => if (c =? "-")%char then (true, r) else (false, s)
    | EmptyString => (false, s)
    end in
  let (i, s2) := scan_digits s1 in
  if int_part_ok i then
    '(f, s3) ← parse_frac s2;
    '(x, s4) ← parse_exp s3;
    let mant := (Z_of_uint i * pow10 (Z.of_nat (Decimal.nb_digits f)) + Z_of_uint f)%Z in
    Some (JNum (if neg : bool then (- mant)%Z else mant)
               (x - Z.of_nat (Decimal.nb_digits f))%Z, s4)
  else None.

(** Recursive descent; [fuel] bounds the number of nested calls. *)
Fixpoint parse_value (fuel : nat) (s : string) : option (JSON * string) :=
  match fuel with
  | O => None
  | S fuel =>
      match skip_ws s with
      | EmptyString => None
      | String c r =>
          if (c =? "n")%char then r' ← strip_prefix "ull" r; Some (JNull, r')
          else if (c =? "t")%char then r' ← strip_prefix "rue" r; Some (JBool true, r')
          else if (c =? "f")%char then r' ← strip_prefix "alse" r; Some (JBool false, r')
          else if (c =? "034")%char then
            '(str, r') ← parse_string_body r; Some (JStr str, r')
          else if (c =? "[")%char then
            match skip_ws r with
            | String c' r' =>
                if (c' =? "]")%char then Some (JArr [], r')
                else '(l, r'') ← parse_elements fuel (String c' r'); Some (JArr l, r'')
            | EmptyString => None
            end
          else if (c =? "{")%char then
            match skip_ws r with
            | String c' r' =>
                if (c' =? "}")%char then Some (JObj [], r')
                else '(ms, r'') ← parse_members fuel (String c' r'); Some (JObj ms, r'')
            | EmptyString => None
            end
          else if (c =? "-")%char || is_digit c then parse_number (String c r)
          else None
      end
  end
with parse_elements (fuel : nat) (s : string) : option (list JSON * string) :=
  match fuel with
  | O => None
  | S fuel =>
      '(v, r) ← parse_value fuel s;
      match skip_ws r with
      | String c r' =>
          if (c =? ",")%char then
            '(l, r'') ← parse_elements fuel r'; Some (v :: l, r'')
          else if (c =? "]")%char then Some ([v], r')
          else None
      | EmptyString => None
      end
  end
with parse_members (fuel : nat) (s : string) : option (list (string * JSON) * string) :=
  match fuel with
  | O => None
  | S fuel =>
      match skip_ws s with
      | String q r0 =>
          if (q =? "034")%char then
            '(k, r1) ← parse_string_body r0;
            match skip_ws r1 with
            | String c1 r2 =>
                if (c1 =? ":")%char then
                  '(v, r3) ← parse_value fuel r2;
                  match skip_ws r3 with
                  | String c r' =>
                      if (c =? ",")%char then
                        '(ms, r'') ← parse_members fuel r'; Some ((k, v) :: ms, r'')
                      else if (c =? "}")%char then Some ([(k, v)], r')
                      else None
                  | EmptyString => None
                  end
                else None
            | EmptyString => None
            end
          else None
      | EmptyString => None
      end
  end.

(** [JSON.parse]: one value, white space around it, nothing else.
    [None] stands for the [SyntaxError] it throws. *)
Definition JSON_parse (text : string) : option JSON :=
  '(v, r) ← parse_value (2 * String.length text + 2) text;
  match skip_ws r with
  | EmptyString => Some v
  | String _ _ => None
  end.

Definition hex_digit (n : N) : ascii :=
  if (n <? 10)%N then ascii_of_N (48 + n) else ascii_of_N (87 + n).

Definition escape_char (c : ascii) : string :=
  if (c =? "034")%char then String "\" (String "034" "")
  else if (c =? "\")%char then "\\"
  else if (c =? "008")%char then "\b"
  else if (c =? "012")%char then "\f"
  else if (c =? "010")%char then "\n"
  else if (c =? "013")%char then "\r"
  else if (c =? "009")%char then "\t"
  else if is_control c then
    "\u00" ++ String (hex_digit (N_of_ascii c / 16))
                     (String (hex_digit (N_of_ascii c mod 16)) "")
  else String c "".

Fixpoint escape (s : string) : string :=
  match s with
  | EmptyString => ""
  | String c r => escape_char c ++ escape r
  end.

Definition quote (s : string) : string :=
  String "034" "" ++ escape s ++ String "034" "".

(** The text of a JSON value: no white space, members in order, a number
    by the digits of its decimal. *)
Fixpoint JSON_text (v : JSON) : string :=
  match v with
  | JNull => "null"
  | JBool true => "true"
  | JBool false => "false"
  | JNum m e => string_of_number m e
  | JStr s => quote s
  | JArr l =>
      "[" ++
      (fix elems (l : list JSON) : string :=
         match l with
         | [] => ""
         | x :: l' =>
             match l' with
             | [] => JSON_text x
             | _ :: _ => JSON_text x ++ "," ++ elems l'
             end
         end) l ++ "]"
  | JObj ms =>
      "{" ++
      (fix membs (ms : list (string * JSON)) : string :=
         match ms with
         | [] => ""
         | (k, x) :: ms' =>
             match ms' with
             | [] => quote k ++ ":" ++ JSON_text x
             | _ :: _ => quote k ++ ":" ++ JSON_text x ++ "," ++ membs ms'
             end
         end) ms ++ "}"
  end.

(** An object literal whose property values may be [undefined]:
    [JSON.stringify] leaves such properties out. *)
Fixpoint object_literal (fields : list (string * value)) : list (string * JSON) :=
  match fields with
  | [] => []
  | (k, Some v) :: fields' => (k, v) :: object_literal fields'
  | (_, None) :: fields' => object_literal fields'
  end.

(** What [JSON.stringify] keeps of a value: a number that is not finite
    as a double is written as [null]. *)
Fixpoint as_stored (v : JSON) : JSON :=
  match v with
  | JNum m e => if number_overflows m e then JNull else v
  | JArr l => JArr (map as_stored l)
  | JObj ms =>
      JObj ((fix members (ms : list (string * JSON)) : list (string * JSON) :=
               match ms with
               | [] => []
               | (k, x) :: ms' => (k, as_stored x) :: members ms'
               end) ms)
  | _ => v
  end.

Definition stored_members (ms : list (string * JSON)) : list (string * JSON) :=
  (fix members (ms : list (string * JSON)) : list (string * JSON) :=
     match ms with
     | [] => []
     | (k, x) :: ms' => (k, as_stored x) :: members ms'
     end) ms.

(** [JSON.stringify] of a JSON value. A finite number is written by the
    digits of the decimal it was read from, where the engine writes the
    shortest decimal of the same double: [JSON.parse] reads the two
    texts as the same number, and this program reads a stored text in
    no other way. *)
Definition JSON_stringify (v : JSON) : string := JSON_text (as_stored v).

Definition JSON_stringify_object (fields : list (string * value)) : string :=
  JSON_stringify (JObj (object_literal fields)).

(** A value as [JSON.stringify] keeps it; [undefined] stays away. *)
Definition recorded (v : value) : value :=
  match v with
  | Some j => Some (as_stored j)
  | None => None
  end.

(** No number inside is too large for a double: [JSON.stringify] keeps
    the value as it is. *)
Fixpoint storable (v : JSON) : bool :=
  match v with
  | JNum m e => negb (number_overflows m e)
  | JArr l =>
      (fix all (l : list JSON) : bool :=
         match l with
         | [] => true
         | x :: l' => storable x && all l'
         end) l
  | JObj ms =>
      (fix all (ms : list (string * JSON)) : bool :=
         match ms with
         | [] => true
         | (_, x) :: ms' => storable x && all ms'
         end) ms
  | _ => true
  end.

(** The text between the brackets of an array and between the braces of
    an object, as [JSON_text] writes them. *)
Definition elements_text (l : list JSON) : string :=
  (fix elems (l : list JSON) : string :=
     match l with
     | [] => ""
     | x :: l' =>
         match l' with
         | [] => JSON_text x
         | _ :: _ => JSON_text x ++ "," ++ elems l'
         end
     end) l.

Definition members_text (ms : list (string * JSON)) : string :=
  (fix membs (ms : list (string * JSON)) : string :=
     match ms with
     | [] => ""
     | (k, x) :: ms' =>
         match ms' with
         | [] => quote k ++ ":" ++ JSON_text x
         | _ :: _ => quote k ++ ":" ++ JSON_text x ++ "," ++ membs ms'
         end
     end) ms.

(** The characters a value can begin with, and what can follow a value
    inside a text that [JSON_text] wrote. *)
Definition value_start (c : ascii) : bool :=
  ((c =? "n") || (c =? "t") || (c =? "f") || (c =? "034") || (c =? "[")
   || (c =? "{") || (c =? "-"))%char || is_digit c.

Definition starts_digit (s : string) : bool :=
  match s with
  | String c _ => is_digit c
  | EmptyString => false
  end.

Definition delimited (rest : string) : bool :=
  match rest with
  | EmptyString => true
  | String c _ => ((c =? ",") || (c =? "]") || (c =? "}"))%char
  end.

(** The number of nested calls that parsing the text of [v] takes at most. *)
Fixpoint size (v : JSON) : nat :=
  match v with
  | JArr l =>
      S ((fix size_list (l : list JSON) : nat :=
            match l with
            | [] => 0
            | x :: l' => S (size x + size_list l')
            end) l)
  | JObj ms =>
      S ((fix size_members (ms : list (string * JSON)) : nat :=
            match ms with
            | [] => 0
            | (_, x) :: ms' => S (size x + size_members ms')
            end) ms)
  | _ => 1
  end.

Definition size_list (l : list JSON) : nat :=
  (fix size_list (l : list JSON) : nat :=
     match l with
     | [] => 0
     | x :: l' => S (size x + size_list l')
     end) l.

Definition size_members (ms : list (string * JSON)) : nat :=
  (fix size_members (ms : list (string * JSON)) : nat :=
     match ms with
     | [] => 0
     | (_, x) :: ms' => S (size x + size_members ms')
     end) ms.

(** Parsing the text of [v] yields [v] and what follows the text. *)
Definition reads_back (v : JSON) : Prop :=
  forall fuel rest, size v <= fuel -> delimited rest = true ->
    parse_value fuel (JSON_text v ++ rest) = Some (v, rest).

End JSONText.

(** ** Browser storage and what surrounds the program *)

Module Browser.
Import JS JSONText.

(** [localStorage]: [getItem] answers [null] ([None]) for a missing key. *)
Definition getItem (k : string) (st : gmap string string) : option string := st !! k.
Definition setItem (k v : string) (st : gmap string string) : gmap string string :=
  <[k := v]> st.
Definition removeItem (k : string) (st : gmap string string) : gmap string string :=
  delete k st.

(** [if (text)] on what [getItem] answered: [null] and the empty string
    are falsy. *)
Definition nonempty (s : string) : bool := negb (String.eqb s "").

Record Request : Type := {
  req_url : string;
  req_method : string;
  req_headers : list (string * string);
  req_body : string
}.

(** A response as [login] reads it: [response.ok] and the text that
    [response.json()] parses. *)
Record Response : Type := { ok : bool; text : string }.

Inductive fetched : Type :=
| FetchThrows (e : exn)
| FetchReturns (r : Response).

(** The surroundings of one call. [API_BASE_URL] is the constant of
    [utils/common]; the [..._text] fields are the messages the engine
    puts in the errors it raises itself: [syntax_error_text] for the text
    [JSON.parse] rejects, [type_error_text] for the property or method
    that cannot be read or called, [convert_error_text] for an object
    that has no text, [header_error_text] for a header value that
    [Headers.set] refuses. *)
Record World : Type := {
  API_BASE_URL : string;
  fetch : Request -> fetched;
  Date_now : Z;
  Date_toISOString : string;
  syntax_error_text : string -> string;
  type_error_text : string -> string;
  convert_error_text : string;
  header_error_text : string -> string
}.

(** [JSON.parse(text)] as an evaluation that may throw. *)
Definition parse (w : World) (text : string) : M value :=
  match JSON_parse text with
  | Some v => ret (Some v)
  | None => throw (SyntaxError (syntax_error_text w text))
  end.

Definition response_json (w : World) (r : Response) : M value := parse w (text r).

(** [v.k] in world [w]. *)
Definition prop (w : World) (v : value) (k : string) : M value :=
  get (type_error_text w) v k.

(** ToString in world [w]. *)
Definition ToString (w : World) (v : value) : M string :=
  ToString_with (convert_error_text w) v.

(** *** [Headers.set]

    A string is held as the bytes of its UTF-8 form, so it has a code
    unit above [0xFF], and is no ByteString, exactly when it has a byte
    from [0xC4] on. [set] takes the white space off both ends of the
    value, and refuses a value that then has a NUL, a line feed or a
    carriage return in it. *)
Definition is_ByteString (s : string) : bool :=
  forallb (fun c => (N_of_ascii c <? 196)%N) (list_ascii_of_string s).

Definition is_http_whitespace (c : ascii) : bool :=
  ((c =? "009") || (c =? "010") || (c =? "013") || (c =? " "))%char.

Fixpoint strip_leading (s : string) : string :=
  match s with
  | String c r => if is_http_whitespace c then strip_leading r else s
  | EmptyString => s
  end.

Definition reverse (s : string) : string :=
  string_of_list_ascii (rev (list_ascii_of_string s)).

Definition normalize (s : string) : string :=
  reverse (strip_leading (reverse (strip_leading s))).

Definition is_header_value (s : string) : bool :=
  forallb (fun c => negb ((c =? "000") || (c =? "010") || (c =? "013"))%char)
          (list_ascii_of_string s).

(** The value [set] stores for [value], or what it throws. *)
Definition header_value (w : World) (value : string) : M string :=
  if is_ByteString value && is_header_value (normalize value)
  then ret (normalize value)
  else throw (TypeError (header_error_text w value)).

(** [headers.set(name, value)], for a name written in lower case. *)
Definition Headers_set (w : World) (name value : string) (h : gmap string string)
  : M (gmap string string) :=
  v <- header_value w value ;; ret (<[ name := v ]> h).

End Browser.

(** ** authProvider.ts, the static provider *)

Module Static.
Import JS JSONText Browser.

Definition validCredentials : list (string * string) :=
  [("admin", "admin"); ("user", "user123"); ("test", "test"); ("user", "user123")].

Definition isValid (username password : string) : bool :=
  existsb (fun cred => String.eqb (fst cred) username && String.eqb (snd cred) password)
          validCredentials.

Definition login (username password : string) (st : gmap string string)
  : settled unit * gmap string string :=
  if isValid username password then
    (Resolved tt,
     setItem "auth"
       (JSON_stringify_object
          [("username", Some (JStr username));
           ("token", Some (JStr "fake-jwt-token"));
           ("role", Some (JStr "admin"))]) st)
  else (Rejected (Some (Error "Invalid username or password")), st).

Definition logout (st : gmap string string) : settled unit * gmap string string :=
  (Resolved tt, removeItem "auth" st).

Definition checkError (status : Z) (st : gmap string string)
  : settled unit * gmap string string :=
  if ((status =? 401) || (status =? 403))%Z
  then (Rejected None, removeItem "auth" st)
  else (Resolved tt, st).

Definition checkAuth (st : gmap string string) : settled unit * gmap string string :=
  match getItem "auth" st with
  | Some auth => if nonempty auth then (Resolved tt, st) else (Rejected None, st)
  | None => (Rejected None, st)
  end.

(** [JSON.parse] is not guarded here: what it throws leaves the function. *)
Definition getPermissions (w : World) (st : gmap string string)
  : M (settled value) * gmap string string :=
  match getItem "auth" st with
  | Some auth =>
      if nonempty auth then
        ((user <- parse w auth ;; role <- prop w user "role" ;; ret (Resolved role)), st)
      else (ret (Rejected None), st)
  | None => (ret (Rejected None), st)
  end.

End Static.

(** ** authProvider.ts, the enhanced provider *)

Module Enhanced.
Import JS JSONText Browser.

Record credential : Type := {
  cred_username : string;
  cred_password : string;
  cred_role : string;
  cred_fullName : string
}.

Definition staticCredentials : list credential :=
  [ {| cred_username := "admin"; cred_password := "admin";
       cred_role := "admin"; cred_fullName := "Administrator" |};
    {| cred_username := "user"; cred_password := "user123";
       cred_role := "user"; cred_fullName := "Standard User" |};
    {| cred_username := "test"; cred_password := "test";
       cred_role := "viewer"; cred_fullName := "Test User" |} ].

Definition find_static (username password : string) : option credential :=
  List.find (fun cred => String.eqb (cred_username cred) username
                         && String.eqb (cred_password cred) password)
            staticCredentials.

Definition login_request (w : World) (username password : string) : Request :=
  {| req_url := API_BASE_URL w ++ "/auth/login";
     req_method := "POST";
     req_headers := [("Content-Type", "application/json")];
     req_body := JSON_stringify (JObj [("username", JStr username);
                                       ("password", JStr password)]) |}.

(** The record the API path stores, from the decoded response. *)
Definition api_authData (w : World) (data : value) : M (list (string * value)) :=
  user <- prop w data "user" ;; username <- prop w user "username" ;;
  user <- prop w data "user" ;; full_name <- prop w user "full_name" ;;
  user <- prop w data "user" ;; email <- prop w user "email" ;;
  user <- prop w data "user" ;; role <- prop w user "role" ;;
  access_token <- prop w data "access_token" ;;
  ret [("username", username); ("fullName", full_name); ("email", email);
       ("role", role); ("token", access_token);
       ("loginTime", Some (JStr (Date_toISOString w)))].

(** The [try] block of [login]: the storage it leaves when it returns, or
    what it throws (nothing is stored before a throw). *)
Definition login_api (w : World) (username password : string)
    (st : gmap string string) : M (gmap string string) :=
  match fetch w (login_request w username password) with
  | FetchThrows e => throw e
  | FetchReturns response =>
      if ok response then
        data <- response_json w response ;;
        authData <- api_authData w data ;;
        ret (setItem "auth" (JSON_stringify_object authData) st)
      else
        errorData <- response_json w response ;;
        detail <- prop w errorData "detail" ;;
        reason <- ToString w (or_else detail (Some (JStr "Login failed"))) ;;
        throw (Error reason)
  end.

(** The record the fallback path stores. *)
Definition static_authData (w : World) (staticUser : credential)
  : list (string * value) :=
  [("username", Some (JStr (cred_username staticUser)));
   ("fullName", Some (JStr (cred_fullName staticUser)));
   ("role", Some (JStr (cred_role staticUser)));
   ("token", Some (JStr ("static-jwt-token-" ++ string_of_Z (Date_now w))));
   ("loginTime", Some (JStr (Date_toISOString w)))].

Definition login (w : World) (username password : string)
    (st : gmap string string) : settled unit * gmap string string :=
  match login_api w username password st with
  | inr st' => (Resolved tt, st')
  | inl apiError =>
      match find_static username password with
      | Some staticUser =>
          (Resolved tt,
           setItem "auth" (JSON_stringify_object (static_authData w staticUser)) st)
      | None =>
          let errorMessage :=
            if nonempty (message apiError) then message apiError
            else "Invalid username or password" in
          (Rejected (Some (Error errorMessage)), st)
      end
  end.

Definition logout (st : gmap string string) : settled unit * gmap string string :=
  (Resolved tt, removeItem "auth" st).

Definition checkError (status : Z) (st : gmap string string)
  : settled unit * gmap string string :=
  if ((status =? 401) || (status =? 403))%Z
  then (Rejected (Some (Error "Authentication required")), removeItem "auth" st)
  else (Resolved tt, st).

Definition checkAuth (w : World) (st : gmap string string)
  : settled unit * gmap string string :=
  let rejected := Rejected (Some (Error "Not authenticated")) in
  match getItem "auth" st with
  | Some auth =>
      if nonempty auth then
        match (authData <- parse w auth ;; prop w authData "token") with
        | inr token => if truthy token then (Resolved tt, st) else (rejected, st)
        | inl e => (rejected, removeItem "auth" st)
        end
      else (rejected, st)
  | None => (rejected, st)
  end.

Definition getPermissions (w : World) (st : gmap string string)
  : settled value * gmap string string :=
  let rejected := Rejected (Some (Error "No permissions available")) in
  match getItem "auth" st with
  | Some auth =>
      if nonempty auth then
        match (user <- parse w auth ;; prop w user "role") with
        | inr role => (Resolved role, st)
        | inl e => (rejected, st)
        end
      else (rejected, st)
  | None => (rejected, st)
  end.

(** What [getIdentity] resolves to; [avatar] is always [undefined]. *)
Record identity : Type := { id : value; fullName : value }.

Definition getIdentity (w : World) (st : gmap string string)
  : settled identity * gmap string string :=
  let rejected := Rejected (Some (Error "No user identity available")) in
  match getItem "auth" st with
  | Some auth =>
      if nonempty auth then
        match (user <- parse w auth ;;
               username <- prop w user "username" ;;
               fullName <- prop w user "fullName" ;;
               username' <- prop w user "username" ;;
               ret {| id := username; fullName := or_else fullName username' |}) with
        | inr i => (Resolved i, st)
        | inl e => (rejected, st)
        end
      else (rejected, st)
  | None => (rejected, st)
  end.

End Enhanced.

(** ** dataProvider.ts *)

Module Gateway.
Import JS JSONText Browser.

(** The [options] of a request. [Headers] compares names without regard to
    case; a name is kept here in lower case. *)
Record Options : Type := {
  opt_method : option string;
  opt_body : option string;
  opt_headers : option (gmap string string)
}.

Definition with_headers (options : Options) (h : gmap string string) : Options :=
  {| opt_method := opt_method options; opt_body := opt_body options;
     opt_headers := Some h |}.

(** [options.headers] once [httpClient] has supplied the default. *)
Definition default_headers (options : Options) : gmap string string :=
  match opt_headers options with
  | Some h => h
  | None => {[ "accept" := "application/json" ]}
  end.

(** [httpClient]: the URL and the options it hands to
    [fetchUtils.fetchJson]. Whatever the [try] block throws (the parse,
    the reading of the token, its conversion to a text, [Headers.set])
    is caught, and the headers stay as they were. *)
Definition httpClient (w : World) (st : gmap string string) (url : string)
    (options : Options) : string * Options :=
  let headers := default_headers options in
  let headers' :=
    match getItem "auth" st with
    | Some authData =>
        if nonempty authData then
          match (auth <- parse w authData ;;
                 token <- prop w auth "token" ;;
                 if truthy token then
                   text <- ToString w token ;;
                   Headers_set w "authorization" ("Bearer " ++ text) headers
                 else ret headers) with
          | inr h => h
          | inl e => headers
          end
        else headers
    | None => headers
    end in
  (url, with_headers options headers').

(** The early [httpClient], which reads the key [token]: nothing catches
    what [Headers.set] throws. *)
Definition httpClient_token_key (w : World) (st : gmap string string)
    (url : string) (options : Options) : M (string * Options) :=
  let headers := default_headers options in
  headers' <- match getItem "token" st with
              | Some token =>
                  if nonempty token
                  then Headers_set w "authorization" ("Bearer " ++ token) headers
                  else ret headers
              | None => ret headers
              end ;;
  ret (url, with_headers options headers').

Inductive operation := GetList | GetOne | Create | Update | Delete.

Record HttpResponse : Type := {
  resp_status : Z;
  resp_headers : gmap string string;
  resp_body : string;
  resp_json : value
}.

(** The REST library around [httpClient]: [request_of] is the request
    [ra-data-simple-rest] builds for an operation from the base URL, the
    resource and the parameters, [fetchJson] performs the call (it throws
    on a status outside 200..299 and when the transport fails), [decode]
    turns the response into the result of the operation. The parameters
    of an operation are an object, given by its members. *)
Record RestLibrary : Type := {
  request_of : operation -> string -> string -> list (string * JSON) -> string * Options;
  fetchJson : string -> Options -> M HttpResponse;
  decode : operation -> list (string * JSON) -> HttpResponse -> M value
}.

(** What an operation of the base provider hands to [fetchJson]. *)
Definition outgoing (w : World) (lib : RestLibrary) (st : gmap string string)
    (op : operation) (resource : string) (params : list (string * JSON)) : string * Options :=
  let '(url, options) := request_of lib op (API_BASE_URL w) resource params in
  httpClient w st url options.

Definition baseDataProvider (w : World) (lib : RestLibrary) (st : gmap string string)
    (op : operation) (resource : string) (params : list (string * JSON)) : M value :=
  let '(url, options) := outgoing w lib st op resource params in
  response <- fetchJson lib url options ;;
  decode lib op params response.

(** [error.status === n]. *)
Definition status_is (error : exn) (n : Z) : bool :=
  match status error with
  | Some s => (s =? n)%Z
  | None => false
  end.

Fixpoint is_substring (needle hay : string) : bool :=
  String.prefix needle hay ||
  match hay with
  | String _ hay' => is_substring needle hay'
  | EmptyString => false
  end.

(** [error.body?.detail]. *)
Definition body_detail (error : exn) : value :=
  match body error with
  | None => undefined
  | Some JNull => undefined
  | Some (JObj ms) => lookup_member "detail" ms
  | Some _ => undefined
  end.

(** [detail?.includes('Cannot delete')], read as a condition: a string
    is searched, an array is asked for that element, and any other value
    that is neither [null] nor [undefined] has no [includes] to call. *)
Definition includes_Cannot_delete (w : World) (detail : value) : M bool :=
  match detail with
  | None => ret false
  | Some JNull => ret false
  | Some (JStr s) => ret (is_substring "Cannot delete" s)
  | Some (JArr l) =>
      ret (existsb (fun x => match x with
                             | JStr s => String.eqb s "Cannot delete"
                             | _ => false
                             end) l)
  | Some _ => throw (TypeError (type_error_text w "includes"))
  end.

(** [`${result.data.length}`], for the sake of a log line: reading the
    length throws when [data] is [null] or [undefined]; the length of an
    array or of a string is a number, that of another primitive is
    [undefined], and that of an object is its member of that name, which
    the template turns into a text. The text is not used. *)
Definition log_length (w : World) (data : value) : M unit :=
  match data with
  | None => throw (TypeError (type_error_text w "length"))
  | Some JNull => throw (TypeError (type_error_text w "length"))
  | Some (JObj ms) => _ <- ToString w (lookup_member "length" ms) ;; ret tt
  | Some _ => ret tt
  end.

(** [`${params.id}`] in the line that [update], [delete] and [getOne]
    log before their [try]: the text is not used, but what the template
    throws leaves the function. *)
Definition log_id (w : World) (params : list (string * JSON)) : M unit :=
  _ <- ToString w (lookup_member "id" params) ;; ret tt.

(** The parameters on which the first log line of an operation does not
    throw. *)
Definition loggable (op : operation) (params : list (string * JSON)) : bool :=
  match op with
  | Update | Delete | GetOne => printable_value (lookup_member "id" params)
  | GetList | Create => true
  end.

Definition create (w : World) (lib : RestLibrary) (st : gmap string string)
    (resource : string) (params : list (string * JSON)) : M value :=
  match baseDataProvider w lib st Create resource params with
  | inr result => ret result
  | inl error =>
      if String.eqb resource "users" then
        if status_is error 403 then
          throw (Error "Administrator access required to create users. Please login as an admin.")
        else if status_is error 401 then
          throw (Error "Authentication required. Please login to create users.")
        else if status_is error 409 then
          throw (Error "Username or email already exists. Please choose different credentials.")
        else if status_is error 422 then
          throw (Error "Validation error: Please check all required fields are filled correctly.")
        else if status_is error 500 then
          throw (Error "Server error: Please try again or contact support.")
        else throw error
      else throw error
  end.

Definition update (w : World) (lib : RestLibrary) (st : gmap string string)
    (resource : string) (params : list (string * JSON)) : M value :=
  _ <- log_id w params ;;
  match baseDataProvider w lib st Update resource params with
  | inr result => ret result
  | inl error =>
      if String.eqb resource "users" then
        if status_is error 403 then
          throw (Error "Administrator access required to modify users.")
        else if status_is error 401 then
          throw (Error "Authentication required. Please login to modify users.")
        else if status_is error 409 then
          throw (Error "Username or email already exists for another user.")
        else if status_is error 404 then
          throw (Error "User not found.")
        else throw error
      else throw error
  end.

Definition delete (w : World) (lib : RestLibrary) (st : gmap string string)
    (resource : string) (params : list (string * JSON)) : M value :=
  _ <- log_id w params ;;
  match baseDataProvider w lib st Delete resource params with
  | inr result => ret result
  | inl error =>
      if String.eqb resource "users" then
        if status_is error 403 then
          throw (Error "Administrator access required to delete users.")
        else if status_is error 401 then
          throw (Error "Authentication required. Please login to delete users.")
        else if status_is error 400 then
          found <- includes_Cannot_delete w (body_detail error) ;;
          if found : bool then
            reason <- ToString w (body_detail error) ;; throw (Error reason)
          else throw (Error "Cannot delete this user.")
        else throw error
      else throw error
  end.

(** The line that logs [result.data.length] stands inside the [try]: what
    it throws is handled like a failure of the call. *)
Definition getList (w : World) (lib : RestLibrary) (st : gmap string string)
    (resource : string) (params : list (string * JSON)) : M value :=
  match (result <- baseDataProvider w lib st GetList resource params ;;
         data <- prop w result "data" ;;
         _ <- log_length w data ;;
         ret result) with
  | inr result => ret result
  | inl error =>
      if String.eqb resource "users" then
        if status_is error 401 then
          throw (Error "Authentication required to view users. Please login.")
        else if status_is error 403 then
          throw (Error "Access denied. You do not have permission to view users.")
        else throw error
      else throw error
  end.

Definition getOne (w : World) (lib : RestLibrary) (st : gmap string string)
    (resource : string) (params : list (string * JSON)) : M value :=
  _ <- log_id w params ;;
  match baseDataProvider w lib st GetOne resource params with
  | inr result => ret result
  | inl error =>
      if String.eqb resource "users" then
        if status_is error 401 then
          throw (Error "Authentication required to view user details.")
        else if status_is error 403 then
          throw (Error "Access denied. You do not have permission to view this user.")
        else throw error
      else throw error
  end.

(** The overriding method of each operation. *)
Definition dataProvider (op : operation) : World -> RestLibrary ->
    gmap string string -> string -> list (string * JSON) -> M value :=
  match op with
  | GetList => getList
  | GetOne => getOne
  | Create => create
  | Update => update
  | Delete => delete
  end.

End Gateway.

(** ** The persisted session, as the statements below speak of it *)

Module Session.
Import JS JSONText Browser.

(** What [JSON.parse] makes of the text under [auth], when there is a
    text, it is not empty and it parses. *)
Definition record (st : gmap string string) : option JSON :=
  text ← st !! "auth"; if nonempty text then JSON_parse text else None.

(** Member [k] of the stored record; [undefined] when there is no record,
    when it is no object and when it has no such member. *)
Definition field (k : string) (st : gmap string string) : value :=
  match record st with
  | Some (JObj ms) => lookup_member k ms
  | _ => undefined
  end.

(** There is a non-empty text under [auth] on which a guarded reader
    throws: [JSON.parse] rejects it, or it is the text of [null], whose
    properties cannot be read. *)
Definition unreadable (st : gmap string string) : bool :=
  match st !! "auth" with
  | Some text =>
      nonempty text &&
      match JSON_parse text with
      | None => true
      | Some JNull => true
      | Some _ => false
      end
  | None => false
  end.

Definition has (k : string) (v : JSON) : bool :=
  match v with
  | JObj ms => match lookup_member k ms with Some _ => true | None => false end
  | _ => false
  end.

(** Principal identifier, display name, role, bearer credential and
    creation timestamp are all present. *)
Definition fully_populated (v : JSON) : bool :=
  has "username" v && has "fullName" v && has "role" v && has "token" v
  && has "loginTime" v.

Definition is_defined (v : value) : bool :=
  match v with
  | Some _ => true
  | None => false
  end.

(** No session, or a fully populated one. *)
Definition well_formed (st : gmap string string) : bool :=
  match st !! "auth" with
  | None => true
  | Some _ =>
      match record st with
      | Some v => fully_populated v
      | None => false
      end
  end.

(** A header value [Headers.set] accepts. *)
Definition sendable (s : string) : bool :=
  is_ByteString s && is_header_value (normalize s).

(** The [authorization] header a request gets for the token of the
    session: none when the token is falsy, has no text, or gives a value
    that [Headers.set] refuses. *)
Definition authorization_of (token : value) : option string :=
  if truthy token && printable_value token
     && sendable ("Bearer " ++ string_of_value token)
  then Some (normalize ("Bearer " ++ string_of_value token))
  else None.

(** A text of visible ASCII characters, as a token commonly is. *)
Definition plain (s : string) : bool :=
  forallb (fun c => (32 <? N_of_ascii c)%N && (N_of_ascii c <? 127)%N)
          (list_ascii_of_string s).

(** The pairs of the fallback allow-list. *)
Definition allow_list : list (string * string) :=
  map (fun cred => (Enhanced.cred_username cred, Enhanced.cred_password cred))
      Enhanced.staticCredentials.

(** The calls of the enhanced session manager, and the storage a call
    leaves. *)
Inductive call : Type :=
| Login (username password : string)
| Logout
| CheckError (status : Z)
| CheckAuth
| GetPermissions
| GetIdentity.

Definition storage_after (w : World) (c : call) (st : gmap string string)
  : gmap string string :=
  match c with
  | Login username password => snd (Enhanced.login w username password st)
  | Logout => snd (Enhanced.logout st)
  | CheckError status => snd (Enhanced.checkError status st)
  | CheckAuth => snd (Enhanced.checkAuth w st)
  | GetPermissions => snd (Enhanced.getPermissions w st)
  | GetIdentity => snd (Enhanced.getIdentity w st)
  end.

End Session.

(** ** The statuses each override of the gateway gives a message of its own *)

Module GatewayTable.
Import JS Browser Gateway.

Definition mapped_statuses (op : operation) : list Z :=
  match op with
  | Create => [403; 401; 409; 422; 500]%Z
  | Update => [403; 401; 409; 404]%Z
  | Delete => [403; 401; 400]%Z
  | GetList => [401; 403]%Z
  | GetOne => [401; 403]%Z
  end.

Definition mapped (op : operation) (error : exn) : bool :=
  existsb (status_is error) (mapped_statuses op).

(** [body.detail] is something [includes] can be asked of, or is absent. *)
Definition detail_searchable (error : exn) : bool :=
  match body_detail error with
  | None => true
  | Some JNull => true
  | Some (JStr _) => true
  | Some (JArr _) => true
  | Some _ => false
  end.

End GatewayTable.

(** ** Concrete surroundings, for the examples *)

Module Fixtures.
Import JS JSONText Browser Gateway.

(** A JSON text, written with an apostrophe where the text has a double
    quote. *)
Fixpoint text_of (s : string) : string :=
  match s with
  | EmptyString => EmptyString
  | String c r => String (if (c =? "'")%char then "034"%char else c) (text_of r)
  end.

Definition world (answer : fetched) : World :=
  {| API_BASE_URL := "http://localhost:9000";
     fetch := fun _ => answer;
     Date_now := 1700000000000;
     Date_toISOString := "2023-11-14T22:13:20.000Z";
     syntax_error_text := fun _ => "Unexpected token in JSON";
     type_error_text := fun k => "Cannot read properties of null (reading " ++ k ++ ")";
     convert_error_text := "Cannot convert object to primitive value";
     header_error_text := fun v => "Failed to execute set on Headers: Invalid value" |}.

Definition unreachable : fetched := FetchThrows (TypeError "Failed to fetch").

Definition answers (is_ok : bool) (body_text : string) : fetched :=
  FetchReturns {| ok := is_ok; text := body_text |}.

(** The login endpoint turns the attempt down. *)
Definition turned_down : fetched :=
  answers false (text_of "{'detail':'Incorrect username or password'}").

(** The login endpoint accepts, with an empty token. *)
Definition accepted_empty_token : fetched :=
  answers true
    (text_of ("{'user':{'username':'alice','full_name':'Alice',"
              ++ "'email':'alice@example.com','role':'user'},'access_token':''}")).

(** The login endpoint accepts, with a token and all user fields. *)
Definition accepted : fetched :=
  answers true
    (text_of ("{'user':{'username':'alice','full_name':'Alice',"
              ++ "'email':'alice@example.com','role':'user'},"
              ++ "'access_token':'eyJhbGciOi'}")).


(** The login endpoint accepts, with a role and a token that are numbers
    too large for a double. *)
Definition accepted_huge_numbers : fetched :=
  answers true
    (text_of ("{'user':{'username':'alice','full_name':'Alice',"
              ++ "'email':'alice@example.com','role':1e400},"
              ++ "'access_token':1e400}")).

(** The login endpoint accepts, and its user object has a name only. *)
Definition accepted_name_only : fetched :=
  answers true (text_of "{'user':{'username':'alice'},'access_token':'eyJhbGciOi'}").

(** A record under [auth] that has no token. *)
Definition storage_without_token : gmap string string :=
  {[ "auth" := text_of "{'username':'admin','role':'admin'}" ]}.

(** A REST library whose every call ends as [outcome]. *)
Definition library (outcome : M HttpResponse) : RestLibrary :=
  {| request_of := fun _ base resource _ =>
       (base ++ "/" ++ resource,
        {| opt_method := None; opt_body := None; opt_headers := None |});
     fetchJson := fun _ _ => outcome;
     decode := fun _ _ response => ret (resp_json response) |}.

(** The code units of a text of the Latin alphabet. *)
Definition units (s : string) : list N := map N_of_ascii (list_ascii_of_string s).

Definition server_error : exn := HttpError "Internal Server Error" 500 None.
Definition conflict : exn := HttpError "Conflict" 409 None.

End Fixtures.

(** ** An error object handed to [checkError] *)

Module ErrorFlow.
Import JS Browser.

(** [checkError] of the enhanced provider takes its argument apart with
    the pattern [{ status }]: given an error object it reads the status of
    that object, and a missing status is equal neither to 401 nor to 403. *)
Definition checkError_on (error : exn) (st : gmap string string)
  : settled unit * gmap string string :=
  match status error with
  | Some s => Enhanced.checkError s st
  | None => (Resolved tt, st)
  end.

End ErrorFlow.

(** ** pages/users.tsx and pages/drivers.tsx: the [onError] handlers

    A handler ends by calling [notify(message, ...)]; it is modelled by
    the message it hands to [notify], or by what it throws. *)

Module Pages.
Import JS Browser.

(** [detail.includes(needle)]: a string is searched, an array is asked
    for that element, and no other value has an [includes] to call. *)
Definition includes (w : World) (needle : string) (detail : value) : M bool :=
  match detail with
  | Some (JStr s) => ret (Gateway.is_substring needle s)
  | Some (JArr l) =>
      ret (existsb (fun x => match x with
                             | JStr s => String.eqb s needle
                             | _ => false
                             end) l)
  | _ => throw (TypeError (type_error_text w "includes"))
  end.

(** [handleError] of [UserCreate]. *)
Definition user_create_handleError (w : World) (error : exn) : M value :=
  let detail := Gateway.body_detail error in
  if truthy detail then
    denied <- includes w "Admin access required" detail ;;
    if denied : bool then
      ret (Some (JStr "Administrator privileges required to create users."))
    else
      taken <- includes w "already exists" detail ;;
      if taken : bool then
        ret (Some (JStr "Username or email already exists. Please choose different credentials."))
      else ret detail
  else if nonempty (message error) then ret (Some (JStr (message error)))
  else ret (Some (JStr "Failed to create user")).

(** [handleError] of [UserEdit]. *)
Definition user_edit_handleError (w : World) (error : exn) : M value :=
  let detail := Gateway.body_detail error in
  if truthy detail then
    denied <- includes w "Admin access required" detail ;;
    if denied : bool then
      ret (Some (JStr "Administrator privileges required to modify users."))
    else
      taken <- includes w "already exists" detail ;;
      if taken : bool then
        ret (Some (JStr "Username or email is already taken by another user."))
      else ret detail
  else if nonempty (message error) then ret (Some (JStr (message error)))
  else ret (Some (JStr "Failed to update user")).

(** [handleError] of [DriverCreate]. *)
Definition driver_create_handleError (error : exn) : value :=
  let detail := Gateway.body_detail error in
  if truthy detail then detail
  else if nonempty (message error) then Some (JStr (message error))
  else Some (JStr "Failed to create driver").

(** [handleError] of [DriverEdit]. *)
Definition driver_edit_handleError (w : World) (error : exn) : M value :=
  let detail := Gateway.body_detail error in
  if truthy detail then
    exists_already <- includes w "already exists" detail ;;
    in_use <- (if exists_already : bool then ret true
               else includes w "already in use" detail) ;;
    if in_use : bool then
      text <- ToString w detail ;; ret (Some (JStr ("Update failed: " ++ text)))
    else ret detail
  else if nonempty (message error) then ret (Some (JStr (message error)))
  else ret (Some (JStr "Failed to update driver")).

End Pages.

(** ** pages/users.tsx and pages/drivers.tsx: who may edit, and the
    validation before a save *)

Module Forms.
Import JS Browser.

(** [permissions === 'admin'], on what [getPermissions] resolved with. *)
Definition isAdmin (permissions : value) : bool :=
  match permissions with
  | Some (JStr role) => String.eqb role "admin"
  | _ => false
  end.

(** A string of a form, as its UTF-16 code units. *)
Definition is_space (c : N) : bool :=
  ((c =? 9) || (c =? 10) || (c =? 11) || (c =? 12) || (c =? 13) || (c =? 32)
   || (c =? 160) || (c =? 5760) || ((8192 <=? c) && (c <=? 8202))
   || (c =? 8232) || (c =? 8233) || (c =? 8239) || (c =? 8287)
   || (c =? 12288) || (c =? 65279))%N.

Fixpoint trim_start (s : list N) : list N :=
  match s with
  | c :: r => if is_space c then trim_start r else s
  | [] => []
  end.

(** [s.trim()]. *)
Definition trim (s : list N) : list N := rev (trim_start (rev (trim_start s))).

Definition is_empty {A} (l : list A) : bool :=
  match l with
  | [] => true
  | _ :: _ => false
  end.

(** A value of the form data: [undefined] or [null], a string, or
    anything else (of which only the truthiness is looked at). *)
Inductive field : Type :=
| Nullish
| Str (s : list N)
| Other (is_truthy : bool).

Definition field_truthy (x : field) : bool :=
  match x with
  | Nullish => false
  | Str s => negb (is_empty s)
  | Other t => t
  end.

(** [!x?.trim()]: a value that is neither a string nor nullish has no
    [trim] to call. *)
Definition blank (w : World) (x : field) : M bool :=
  match x with
  | Nullish => ret true
  | Str s => ret (is_empty (trim s))
  | Other _ => throw (TypeError (type_error_text w "trim"))
  end.

(** Regular expressions over code units, matched by derivatives. *)
Inductive regex : Type :=
| Void
| Eps
| Class (p : N -> bool)
| Seq (r1 r2 : regex)
| Alt (r1 r2 : regex)
| Star (r : regex).

Definition Chr (c : N) : regex := Class (N.eqb c).
Definition Plus (r : regex) : regex := Seq r (Star r).

Fixpoint nullable (r : regex) : bool :=
  match r with
  | Void => false
  | Eps => true
  | Class _ => false
  | Seq r1 r2 => nullable r1 && nullable r2
  | Alt r1 r2 => nullable r1 || nullable r2
  | Star _ => true
  end.

Fixpoint deriv (c : N) (r : regex) : regex :=
  match r with
  | Void => Void
  | Eps => Void
  | Class p => if p c then Eps else Void
  | Seq r1 r2 =>
      if nullable r1 then Alt (Seq (deriv c r1) r2) (deriv c r2)
      else Seq (deriv c r1) r2
  | Alt r1 r2 => Alt (deriv c r1) (deriv c r2)
  | Star r0 => Seq (deriv c r0) (Star r0)
  end.

(** [/^r$/.test(s)]. *)
Fixpoint regex_test (r : regex) (s : list N) : bool :=
  match s with
  | [] => nullable r
  | c :: s' => regex_test (deriv c r) s'
  end.

(** The strings of a regular expression. *)
Inductive lang : regex -> list N -> Prop :=
| lang_eps : lang Eps []
| lang_class (p : N -> bool) (c : N) : p c = true -> lang (Class p) [c]
| lang_seq (r1 r2 : regex) (s1 s2 : list N) :
    lang r1 s1 -> lang r2 s2 -> lang (Seq r1 r2) (s1 ++ s2)
| lang_alt_l (r1 r2 : regex) (s : list N) : lang r1 s -> lang (Alt r1 r2) s
| lang_alt_r (r1 r2 : regex) (s : list N) : lang r2 s -> lang (Alt r1 r2) s
| lang_star_nil (r : regex) : lang (Star r) []
| lang_star_more (r : regex) (s1 s2 : list N) :
    lang r s1 -> lang (Star r) s2 -> lang (Star r) (s1 ++ s2).

(** [[^\s@]]. *)
Definition not_space_or_at (c : N) : bool := negb (is_space c || (c =? 64)%N).

(** [/^[^\s@]+@[^\s@]+\.[^\s@]+$/]: 64 is the at sign, 46 the dot. *)
Definition emailRegex : regex :=
  Seq (Plus (Class not_space_or_at))
      (Seq (Chr 64)
           (Seq (Plus (Class not_space_or_at))
                (Seq (Chr 46) (Plus (Class not_space_or_at))))).

(** A string with a character that is no white space: what [trim]
    leaves something of. *)
Definition visible (s : list N) : Prop := Exists (fun c => is_space c = false) s.

(** A local part, an at sign, and a domain with a dot inside it; no
    white space and no other at sign anywhere. *)
Definition valid_email (s : list N) : Prop :=
  exists a b c,
    s = (a ++ [64%N] ++ b ++ [46%N] ++ c)%list
    /\ a <> [] /\ b <> [] /\ c <> []
    /\ Forall (fun u => not_space_or_at u = true) a
    /\ Forall (fun u => not_space_or_at u = true) b
    /\ Forall (fun u => not_space_or_at u = true) c.

(** A field that holds a string with a visible character. *)
Definition filled (x : field) : Prop := exists s, x = Str s /\ visible s.

(** A field on which [x?.trim()] does not throw. *)
Definition trimmable (x : field) : bool :=
  match x with
  | Other _ => false
  | _ => true
  end.

(** [if (c) errors.push(msg)]. *)
Definition push_if (c : bool) (msg : string) (errors : list string) : list string :=
  if c then errors ++ [msg] else errors.

(** What a [transform] does: what it notified, if anything, and what it
    returned or threw. *)
Definition finish {A} (errors : list string) (data : A) : option string * M A :=
  if is_empty errors then (None, ret data)
  else (Some ("Validation errors: " ++ String.concat ", " errors),
        throw (Error "Validation failed")).

Record user_data : Type := {
  username : field;
  email : field;
  full_name : field;
  role : field
}.

(** [data.email && !emailRegex.test(data.email)]; when this is reached
    [data.email] is nullish or a string, [blank] having thrown
    otherwise. *)
Definition email_malformed (x : field) : bool :=
  match x with
  | Str s => negb (is_empty s) && negb (regex_test emailRegex s)
  | _ => false
  end.

(** The checks of the [transform] of [UserFormToolbar], in their
    order: the array [errors] when the last of them is done. *)
Definition user_errors (w : World) (data : user_data) : M (list string) :=
  b1 <- blank w (username data) ;;
  let errors := push_if b1 "Username is required" [] in
  b2 <- blank w (email data) ;;
  let errors := push_if b2 "Email is required" errors in
  b3 <- blank w (full_name data) ;;
  let errors := push_if b3 "Full name is required" errors in
  let errors := push_if (negb (field_truthy (role data)))
                        "Role selection is required" errors in
  let errors := push_if (email_malformed (email data))
                        "Please enter a valid email address" errors in
  ret errors.

(** The [transform] of the save button of [UserFormToolbar]. *)
Definition user_transform (w : World) (data : user_data)
  : option string * M user_data :=
  match user_errors w data with
  | inl e => (None, throw e)
  | inr errors => finish errors data
  end.

Record driver_data : Type := {
  driver_ref : field;
  forename : field;
  surname : field;
  nationality : field;
  dob : field
}.

(** The checks of the [transform] of [DriverFormToolbar]. *)
Definition driver_errors (w : World) (data : driver_data) : M (list string) :=
  b1 <- blank w (driver_ref data) ;;
  let errors := push_if b1 "Driver reference is required" [] in
  b2 <- blank w (forename data) ;;
  let errors := push_if b2 "First name is required" errors in
  b3 <- blank w (surname data) ;;
  let errors := push_if b3 "Last name is required" errors in
  b4 <- blank w (nationality data) ;;
  let errors := push_if b4 "Nationality is required" errors in
  let errors := push_if (negb (field_truthy (dob data)))
                        "Date of birth is required" errors in
  ret errors.

(** The [transform] of the save button of [DriverFormToolbar]. *)
Definition driver_transform (w : World) (data : driver_data)
  : option string * M driver_data :=
  match driver_errors w data with
  | inl e => (None, throw e)
  | inr errors => finish errors data
  end.

End Forms.

(** ** pages/users.tsx, the dashboard kept beside it: the chart of the
    constructors

    The rows are the decoded answer of the API, read as the type the code
    declares for them. A number is a finite double, held as the rational
    it is equal to: the code compares numbers and takes the greatest, and
    both are exact on doubles. *)

Module Dashboard.
Import JS Browser.

Definition number : Type := QArith_base.Q.

Record ConstructorData : Type := {
  constructor : string;
  year : number;
  total_points : number
}.

(** A value of [constructorMap]: [{ x: number[]; y: number[] }]. *)
Record group : Type := { x : list number; y : list number }.

(** [constructorMap] starts as [{}]: it has the properties of
    [Object.prototype], and its own ones, kept here in the order they
    were created in. *)
Definition object : Type := list (string * group).

Definition Object_prototype_names : list string :=
  ["constructor"; "__defineGetter__"; "__defineSetter__"; "hasOwnProperty";
   "__lookupGetter__"; "__lookupSetter__"; "isPrototypeOf";
   "propertyIsEnumerable"; "toString"; "valueOf"; "__proto__";
   "toLocaleString"].

Definition inherited (k : string) : bool :=
  existsb (String.eqb k) Object_prototype_names.

Fixpoint own (k : string) (o : object) : option group :=
  match o with
  | [] => None
  | (k', g) :: o' => if String.eqb k k' then Some g else own k o'
  end.

Fixpoint update (k : string) (f : group -> group) (o : object) : object :=
  match o with
  | [] => []
  | (k', g) :: o' =>
      if String.eqb k k' then (k', f g) :: o' else (k', g) :: update k f o'
  end.

(** [constructorMap[k].x.push(v)] and the same for [y]: an inherited
    property is a function or [Object.prototype], whose [x] is
    [undefined], and [push] cannot be read from it. *)
Definition push_to (w : World) (k : string) (f : group -> group) (o : object)
  : M object :=
  match own k o with
  | Some _ => ret (update k f o)
  | None => throw (TypeError (type_error_text w "push"))
  end.

(** One turn of the [forEach]. An inherited property is truthy, so no
    own property is created under its name. *)
Definition add_row (w : World) (o : object) (item : ConstructorData) : M object :=
  let k := constructor item in
  let o := match own k o with
           | Some _ => o
           | None => if inherited k then o
                     else (o ++ [(k, {| x := []; y := [] |})])%list
           end in
  o <- push_to w k (fun g => {| x := (x g ++ [year item])%list; y := y g |}) o ;;
  push_to w k (fun g => {| x := x g; y := (y g ++ [total_points item])%list |}) o.

Fixpoint forEach (w : World) (chartData : list ConstructorData) (o : object)
  : M object :=
  match chartData with
  | [] => ret o
  | item :: rest => o' <- add_row w o item ;; forEach w rest o'
  end.

(** A property name that is an array index: the canonical numeral of an
    integer below [2^32 - 1]. *)
Definition array_index (k : string) : option N :=
  match NilEmpty.uint_of_string k with
  | Some u =>
      let n := N.of_uint u in
      if String.eqb (string_of_N n) k && (n <=? 4294967294)%N then Some n
      else None
  | None => None
  end.

Fixpoint insert_index (n : N) (k : string) (l : list (N * string))
  : list (N * string) :=
  match l with
  | [] => [(n, k)]
  | (n', k') :: l' =>
      if (n <=? n')%N then (n, k) :: l else (n', k') :: insert_index n k l'
  end.

Fixpoint index_keys (ks : list string) : list (N * string) :=
  match ks with
  | [] => []
  | k :: ks' =>
      match array_index k with
      | Some n => insert_index n k (index_keys ks')
      | None => index_keys ks'
      end
  end.

Definition is_index (k : string) : bool :=
  match array_index k with
  | Some _ => true
  | None => false
  end.

(** The order in which an object lists its own keys: the array indices
    by value, then the other names in the order of their creation. *)
Definition key_order (ks : list string) : list string :=
  (map snd (index_keys ks) ++ List.filter (fun k => negb (is_index k)) ks)%list.

Definition Object_keys (o : object) : list string := key_order (map fst o).

(** [Math.max(...l)]; [None] is the [-Infinity] of no argument. *)
Definition Math_max (l : list number) : option number :=
  fold_left (fun acc v =>
               match acc with
               | None => Some v
               | Some a => if QArith_base.Qle_bool a v then Some v else Some a
               end) l None.

(** [a > b]. *)
Definition gt (a : option number) (b : number) : bool :=
  match a with
  | None => false
  | Some a => negb (QArith_base.Qle_bool a b)
  end.

Definition two_hundred : number := QArith_base.Qmake 200 1.

(** [constructorMap[name]] where a member of it is read next. *)
Definition entry (w : World) (k : string) (o : object) : M group :=
  match own k o with
  | Some g => ret g
  | None => throw (TypeError (type_error_text w k))
  end.

Fixpoint filterM {A} (f : A -> M bool) (l : list A) : M (list A) :=
  match l with
  | [] => ret []
  | a :: l' =>
      b <- f a ;; r <- filterM f l' ;; ret (if b then a :: r else r)
  end.

Fixpoint mapM {A B} (f : A -> M B) (l : list A) : M (list B) :=
  match l with
  | [] => ret []
  | a :: l' => b <- f a ;; r <- mapM f l' ;; ret (b :: r)
  end.

(** A trace of the plot; its [type], [mode] and [line] are constants. *)
Record trace : Type := {
  plot_x : list number;
  plot_y : list number;
  plot_name : string
}.

(** [plotData], from the rows in [chartData]. *)
Definition plotData (w : World) (chartData : list ConstructorData)
  : M (list trace) :=
  constructorMap <- forEach w chartData [] ;;
  names <- filterM (fun name =>
                      g <- entry w name constructorMap ;;
                      ret (gt (Math_max (y g)) two_hundred))
                   (Object_keys constructorMap) ;;
  mapM (fun name =>
          gx <- entry w name constructorMap ;;
          gy <- entry w name constructorMap ;;
          ret {| plot_x := x gx; plot_y := y gy; plot_name := name |})
       (firstn 6 names).

(** *** What the chart is compared with *)

(** The rows of one constructor, in the order of the data. *)
Definition rows_of (k : string) (chartData : list ConstructorData)
  : list ConstructorData :=
  List.filter (fun item => String.eqb (constructor item) k) chartData.

(** The names of a list, each once, in the order of first appearance. *)
Fixpoint first_seen (ks : list string) : list string :=
  match ks with
  | [] => []
  | k :: ks' => k :: List.filter (fun k' => negb (String.eqb k' k)) (first_seen ks')
  end.

Definition series_of (chartData : list ConstructorData) (k : string) : trace :=
  {| plot_x := map year (rows_of k chartData);
     plot_y := map total_points (rows_of k chartData);
     plot_name := k |}.

Definition mem (k : string) (ks : list string) : bool :=
  existsb (String.eqb k) ks.

Definition group_of (chartData : list ConstructorData) (k : string) : group :=
  {| x := map year (rows_of k chartData);
     y := map total_points (rows_of k chartData) |}.

(** The object the [forEach] builds, when no name is inherited. *)
Definition groups (chartData : list ConstructorData) : object :=
  map (fun k => (k, group_of chartData k))
      (first_seen (map constructor chartData)).

(** A constructor with more than 200 points in some row. *)
Definition competitive (chartData : list ConstructorData) (k : string) : bool :=
  existsb (fun item => negb (QArith_base.Qle_bool (total_points item) two_hundred))
          (rows_of k chartData).

End Dashboard.

(** ** pages/races.tsx: loading the details of a race *)

Module Races.
Import JS Browser.

(** What the [catch] block reads of [err.response]. *)
Record response : Type := { res_status : Z; res_data : value }.

(** How [axios.get] settles: with a response, of which [data] is read, or
    with an error that has a message and, when the server answered, its
    response. *)
Inductive axios_result : Type :=
| AxiosResolves (data : value)
| AxiosRejects (message : string) (resp : option response).

(** What the [catch] block is given. *)
Record caught : Type := { err_message : string; err_response : option response }.

(** The state of [RaceShow]. *)
Record state : Type := {
  raceInfo : value;
  circuit : value;
  drivers : value;
  constructors : value;
  loading : bool;
  error : value
}.

Definition initial : state :=
  {| raceInfo := Some JNull; circuit := Some JNull;
     drivers := Some (JArr []); constructors := Some (JArr []);
     loading := true; error := Some JNull |}.

Definition setRaceInfo (v : value) (st : state) : state :=
  {| raceInfo := v; circuit := circuit st; drivers := drivers st;
     constructors := constructors st; loading := loading st; error := error st |}.
Definition setCircuit (v : value) (st : state) : state :=
  {| raceInfo := raceInfo st; circuit := v; drivers := drivers st;
     constructors := constructors st; loading := loading st; error := error st |}.
Definition setDrivers (v : value) (st : state) : state :=
  {| raceInfo := raceInfo st; circuit := circuit st; drivers := v;
     constructors := constructors st; loading := loading st; error := error st |}.
Definition setConstructors (v : value) (st : state) : state :=
  {| raceInfo := raceInfo st; circuit := circuit st; drivers := drivers st;
     constructors := v; loading := loading st; error := error st |}.
Definition setLoading (b : bool) (st : state) : state :=
  {| raceInfo := raceInfo st; circuit := circuit st; drivers := drivers st;
     constructors := constructors st; loading := b; error := error st |}.
Definition setError (v : value) (st : state) : state :=
  {| raceInfo := raceInfo st; circuit := circuit st; drivers := drivers st;
     constructors := constructors st; loading := loading st; error := v |}.

(** [v?.k], for the property names read here ([detail], [circuit],
    [drivers], [constructors]), which only the members of an object
    carry. *)
Definition member (v : value) (k : string) : value :=
  match v with
  | Some (JObj ms) => lookup_member k ms
  | _ => undefined
  end.

(** The message the [catch] block chooses. *)
Definition errorMessage (err : caught) : value :=
  let is_404 := match err_response err with
                | Some r => (res_status r =? 404)%Z
                | None => false
                end in
  let is_5xx := match err_response err with
                | Some r => (500 <=? res_status r)%Z
                | None => false
                end in
  let detail := match err_response err with
                | Some r => member (res_data r) "detail"
                | None => undefined
                end in
  if is_404 then
    Some (JStr "Race not found. It may have been deleted or the ID is incorrect.")
  else if is_5xx then Some (JStr "Server error occurred. Please try again later.")
  else if truthy detail then detail
  else if nonempty (err_message err) then
    Some (JStr ("Connection error: " ++ err_message err))
  else Some (JStr "Failed to load race details.").

(** The [try] block: the state it has reached, and what it threw if it
    did. *)
Definition try_block (w : World) (result : axios_result) (st : state)
  : state * option caught :=
  match result with
  | AxiosRejects message resp =>
      (st, Some {| err_message := message; err_response := resp |})
  | AxiosResolves data =>
      let st := setRaceInfo data st in
      match prop w data "circuit" with
      | inl e => (st, Some {| err_message := JS.message e; err_response := None |})
      | inr c =>
          let st := setCircuit c st in
          let st := setDrivers (or_else (member data "drivers") (Some (JArr []))) st in
          let st := setConstructors
                      (or_else (member data "constructors") (Some (JArr []))) st in
          (st, None)
      end
  end.

Definition fetchRaceDetails (w : World) (result : axios_result) (st : state)
  : state :=
  let st := setLoading true st in
  let st := setError (Some JNull) st in
  let st := match try_block w result st with
            | (st, Some err) => setError (errorMessage err) st
            | (st, None) => st
            end in
  setLoading false st.

(** The effect of [RaceShow]: it asks for the details when [id] is
    truthy. *)
Definition effect (w : World) (axios_get : string -> axios_result)
    (id : option string) (st : state) : state :=
  match id with
  | Some i =>
      if nonempty i then
        fetchRaceDetails w
          (axios_get ("http://localhost:9000/races/" ++ i ++ "/details")) st
      else st
  | None => st
  end.

(** What the component returns: the spinner, the alert with the error
    as its child, or the tabs, which are handed the four values (what the
    fields of the library make of them is not modelled, nor is the
    [useList] of the library, which is called first). *)
Inductive view : Type :=
| Spinner
| ErrorAlert (e : value)
| Tabs (raceInfo circuit drivers constructors : value).

(** A value React can render as a child: a string or a number is shown
    as its text, [null] and a boolean as nothing, an array element by
    element; an object is refused. *)
Fixpoint renderable (v : JSON) : bool :=
  match v with
  | JObj _ => false
  | JArr l =>
      (fix all (l : list JSON) : bool :=
         match l with
         | [] => true
         | x :: l' => renderable x && all l'
         end) l
  | _ => true
  end.

Definition renderable_value (v : value) : bool :=
  match v with
  | Some j => renderable j
  | None => true
  end.

(** [None]: React throws while rendering, because the error it is given
    as a child is an object or has one inside. *)
Definition render (st : state) : option view :=
  if loading st then Some Spinner
  else if truthy (error st) then
    if renderable_value (error st) then Some (ErrorAlert (error st)) else None
  else Some (Tabs (raceInfo st) (circuit st) (drivers st) (constructors st)).

End Races.

(** * Properties *)

(** ** [JSON.parse] reads back what [JSON.stringify] wrote *)

Module JSONFacts.
Import JS JSONText.

#[local] Arguments String.append !s1 s2 : simpl nomatch.

Lemma append_assoc (a b c : string) : (a ++ b) ++ c = a ++ (b ++ c).
Proof. induction a as [|x a IH]; simpl; [reflexivity | now rewrite IH]. Qed.

Lemma append_nil_r (a : string) : a ++ "" = a.
Proof. induction a as [|x a IH]; simpl; [reflexivity | now rewrite IH]. Qed.

Lemma length_append (a b : string) :
  String.length (a ++ b) = String.length a + String.length b.
Proof. induction a as [|x a IH]; simpl; [reflexivity | now rewrite IH]. Qed.

Lemma JSON_ind' (P : JSON -> Prop) :
  P JNull -> (forall b, P (JBool b)) -> (forall m e, P (JNum m e)) ->
  (forall s, P (JStr s)) ->
  (forall l, Forall P l -> P (JArr l)) ->
  (forall ms, Forall (fun kv => P (snd kv)) ms -> P (JObj ms)) ->
  forall v, P v.
Proof.
  intros HN HB HNum HS HA HO. fix IH 1. intros [ | b | m e | s | l | ms].
  - exact HN.
  - apply HB.
  - apply HNum.
  - apply HS.
  - apply HA. revert l. fix IHl 1. intros [|x l].
    + constructor.
    + constructor; [apply IH | apply IHl].
  - apply HO. revert ms. fix IHm 1. intros [|[k x] ms].
    + constructor.
    + constructor; [apply IH | apply IHm].
Qed.

(** *** Characters *)

Ltac each_char c := destruct c as [[] [] [] [] [] [] [] []].

Lemma value_start_facts (c : ascii) :
  value_start c = true ->
  is_ws c = false /\ (c =? "]")%char = false /\ (c =? "}")%char = false.
Proof. each_char c; intros H; try discriminate H; repeat split. Qed.

Lemma is_digit_value_start (c : ascii) : is_digit c = true -> value_start c = true.
Proof. each_char c; intros H; try discriminate H; reflexivity. Qed.

Lemma is_digit_not_minus (c : ascii) : is_digit c = true -> (c =? "-")%char = false.
Proof. each_char c; intros H; try discriminate H; reflexivity. Qed.

Lemma delimited_facts (rest : string) :
  delimited rest = true ->
  skip_ws rest = rest /\ starts_digit rest = false /\
  parse_frac rest = Some (Decimal.Nil, rest) /\ parse_exp rest = Some (0%Z, rest).
Proof.
  destruct rest as [|c r]; [intros _; repeat split|].
  unfold delimited. each_char c; intros H; try discriminate H; repeat split.
Qed.

(** *** Strings *)

Lemma parse_escape_char (c : ascii) (tail : string) :
  parse_string_body (escape_char c ++ tail) =
  '(str, rest) ← parse_string_body tail; Some (String c str, rest).
Proof. each_char c; reflexivity. Qed.

Lemma parse_escape (s rest : string) :
  parse_string_body (escape s ++ String "034" rest) = Some (s, rest).
Proof.
  induction s as [|c s IH]; [reflexivity|].
  change (escape (String c s)) with (escape_char c ++ escape s).
  rewrite append_assoc, parse_escape_char, IH. reflexivity.
Qed.

Lemma quote_append (s rest : string) :
  quote s ++ rest = String "034" (escape s ++ String "034" rest).
Proof. unfold quote. simpl. now rewrite append_assoc. Qed.

(** *** Numbers *)

Lemma scan_string_of_uint (u : Decimal.uint) (rest : string) :
  starts_digit rest = false ->
  scan_digits (NilEmpty.string_of_uint u ++ rest) = (u, rest).
Proof.
  intros Hrest. induction u; simpl; try (rewrite IHu; reflexivity).
  destruct rest as [|c r]; [reflexivity|].
  simpl in Hrest. unfold is_digit in Hrest. simpl.
  destruct (digit_of c); [discriminate | reflexivity].
Qed.

Lemma nzhead_not_D0 (u u' : Decimal.uint) : Decimal.nzhead u <> Decimal.D0 u'.
Proof. induction u; simpl; try discriminate. exact IHu. Qed.

Lemma to_uint_unorm (n : N) : N.to_uint n = Decimal.unorm (N.to_uint n).
Proof. rewrite <- Unsigned.to_of, Unsigned.of_to. reflexivity. Qed.

Lemma int_part_ok_to_uint (n : N) : int_part_ok (N.to_uint n) = true.
Proof.
  rewrite to_uint_unorm. unfold Decimal.unorm.
  destruct (Decimal.nzhead (N.to_uint n)) eqn:E; try reflexivity.
  exfalso. exact (nzhead_not_D0 _ _ E).
Qed.

Lemma nonempty_to_uint (n : N) : nonempty_digits (N.to_uint n) = true.
Proof.
  generalize (int_part_ok_to_uint n). destruct (N.to_uint n); simpl; congruence.
Qed.

Lemma Z_of_uint_to_uint (n : N) : Z_of_uint (N.to_uint n) = Z.of_N n.
Proof. unfold Z_of_uint. now rewrite Unsigned.of_to. Qed.

(** The digits of a natural number begin with a digit. *)
Lemma string_of_N_head (n : N) :
  exists c r, string_of_N n = String c r /\ is_digit c = true.
Proof.
  unfold string_of_N. generalize (nonempty_to_uint n).
  destruct (N.to_uint n); simpl; try discriminate; intros _; eauto.
Qed.

Lemma is_digit_not_plus (c : ascii) : is_digit c = true -> (c =? "+")%char = false.
Proof. each_char c; intros H; try discriminate H; reflexivity. Qed.

Lemma string_of_Z_cases (z : Z) :
  ((z <? 0)%Z = true /\ string_of_Z z = String "-" (string_of_N (Z.abs_N z))) \/
  ((z <? 0)%Z = false /\ string_of_Z z = string_of_N (Z.abs_N z)).
Proof. unfold string_of_Z. destruct (z <? 0)%Z; [left | right]; split; reflexivity. Qed.

Lemma scan_string_of_N (n : N) (rest : string) :
  starts_digit rest = false ->
  scan_digits (string_of_N n ++ rest) = (N.to_uint n, rest).
Proof. apply scan_string_of_uint. Qed.

Lemma signed_abs (z : Z) :
  (if (z <? 0)%Z then (- Z.of_N (Z.abs_N z))%Z else Z.of_N (Z.abs_N z)) = z.
Proof. destruct (Z.ltb_spec z 0); lia. Qed.

Lemma parse_exp_print (e : Z) (rest : string) :
  starts_digit rest = false ->
  parse_exp (String "e" (string_of_Z e ++ rest)) = Some (e, rest).
Proof.
  intros Hrest. unfold parse_exp. cbv beta match.
  change (("e" =? "e")%char || ("e" =? "E")%char) with true. cbv beta match.
  destruct (string_of_Z_cases e) as [[Hneg ->] | [Hneg ->]].
  - change (String "-" (string_of_N (Z.abs_N e)) ++ rest)
      with (String "-" (string_of_N (Z.abs_N e) ++ rest)).
    cbv beta match. change ("-" =? "-")%char with true. cbv beta match.
    rewrite scan_string_of_N by exact Hrest.
    rewrite nonempty_to_uint, Z_of_uint_to_uint.
    generalize (signed_abs e). rewrite Hneg. now intros ->.
  - destruct (string_of_N_head (Z.abs_N e)) as (c & r & Hcr & Hc).
    generalize (scan_string_of_N (Z.abs_N e) rest Hrest). rewrite Hcr.
    change (String c r ++ rest) with (String c (r ++ rest)). intros Hscan.
    cbv beta match.
    rewrite (is_digit_not_minus c Hc), (is_digit_not_plus c Hc). cbv beta match.
    rewrite Hscan, nonempty_to_uint, Z_of_uint_to_uint.
    generalize (signed_abs e). rewrite Hneg. now intros ->.
Qed.

Lemma parse_number_print (m e : Z) (rest : string) :
  delimited rest = true ->
  parse_number (string_of_number m e ++ rest) = Some (JNum m e, rest).
Proof.
  intros Hrest. destruct (delimited_facts rest Hrest) as (_ & Hd & Hfrac & Hexp).
  set (tail := if (e =? 0)%Z then rest else String "e" (string_of_Z e ++ rest)).
  assert (Htext : string_of_number m e ++ rest = string_of_Z m ++ tail).
  { unfold string_of_number, tail. destruct (e =? 0)%Z; [reflexivity|].
    now rewrite append_assoc. }
  assert (Htail : starts_digit tail = false).
  { unfold tail. destruct (e =? 0)%Z; [exact Hd | reflexivity]. }
  assert (Hf : parse_frac tail = Some (Decimal.Nil, tail)).
  { unfold tail. destruct (e =? 0)%Z; [exact Hfrac | reflexivity]. }
  assert (He : parse_exp tail = Some (e, rest)).
  { unfold tail. destruct (Z.eqb_spec e 0) as [-> | _]; [exact Hexp|].
    now apply parse_exp_print. }
  rewrite Htext. unfold parse_number.
  assert (Hmant : forall neg : bool, neg = (m <? 0)%Z ->
    (let (i, s2) := scan_digits (string_of_N (Z.abs_N m) ++ tail) in
     if int_part_ok i then
       '(f, s3) ← parse_frac s2;
       '(x, s4) ← parse_exp s3;
       let mant := (Z_of_uint i * pow10 (Z.of_nat (Decimal.nb_digits f))
                    + Z_of_uint f)%Z in
       Some (JNum (if neg then (- mant)%Z else mant)
                  (x - Z.of_nat (Decimal.nb_digits f))%Z, s4)
     else None) = Some (JNum m e, rest)).
  { intros neg ->. rewrite scan_string_of_N by exact Htail.
    rewrite int_part_ok_to_uint, Hf. simpl. rewrite He. simpl.
    rewrite Z_of_uint_to_uint.
    change (Z_of_uint Decimal.Nil) with 0%Z. change (pow10 0) with 1%Z.
    rewrite Z.mul_1_r, Z.add_0_r, Z.sub_0_r, signed_abs. reflexivity. }
  destruct (string_of_Z_cases m) as [[Hneg ->] | [Hneg ->]].
  - change (String "-" (string_of_N (Z.abs_N m)) ++ tail)
      with (String "-" (string_of_N (Z.abs_N m) ++ tail)).
    cbv beta match. change ("-" =? "-")%char with true. cbv beta match.
    specialize (Hmant true (eq_sym Hneg)). cbv beta match in Hmant. exact Hmant.
  - destruct (string_of_N_head (Z.abs_N m)) as (c & r & Hcr & Hc).
    specialize (Hmant false (eq_sym Hneg)). rewrite Hcr in Hmant |- *.
    change (String c r ++ tail) with (String c (r ++ tail)) in Hmant |- *.
    cbv beta match. rewrite (is_digit_not_minus c Hc). cbv beta match.
    cbv beta match in Hmant. exact Hmant.
Qed.

(** The first character of the text of a number. *)
Lemma string_of_number_head (m e : Z) :
  exists c r, string_of_number m e = String c r /\
              ((c =? "-")%char || is_digit c) = true.
Proof.
  assert (H : exists c r, string_of_Z m = String c r /\
                          ((c =? "-")%char || is_digit c) = true).
  { destruct (string_of_Z_cases m) as [[_ ->] | [_ ->]].
    - eexists _, _. split; reflexivity.
    - destruct (string_of_N_head (Z.abs_N m)) as (c & r & -> & Hc).
      exists c, r. split; [reflexivity|]. rewrite Hc. apply orb_true_r. }
  destruct H as (c & r & Hm & Hc). unfold string_of_number.
  destruct (e =? 0)%Z; rewrite Hm; eauto.
Qed.

(** *** Values *)

Lemma skip_ws_cons (c : ascii) (r : string) :
  is_ws c = false -> skip_ws (String c r) = String c r.
Proof. intros H. simpl. now rewrite H. Qed.

Lemma number_head_facts (c : ascii) :
  ((c =? "-")%char || is_digit c) = true ->
  value_start c = true /\
  (c =? "n")%char = false /\ (c =? "t")%char = false /\ (c =? "f")%char = false /\
  (c =? "034")%char = false /\ (c =? "[")%char = false /\ (c =? "{")%char = false.
Proof. each_char c; intros H; try discriminate H; repeat split. Qed.

Lemma stringify_head (v : JSON) :
  exists c r, JSON_text v = String c r /\ value_start c = true.
Proof.
  destruct v as [ | [] | m e | s | l | ms];
    try (eexists _, _; split; reflexivity).
  destruct (string_of_number_head m e) as (c & r & H & Hc).
  exists c, r. split; [exact H | now apply number_head_facts].
Qed.

Lemma elements_text_one (x : JSON) : elements_text [x] = JSON_text x.
Proof. reflexivity. Qed.

Lemma elements_text_more (x y : JSON) (l : list JSON) :
  elements_text (x :: y :: l) = JSON_text x ++ "," ++ elements_text (y :: l).
Proof. reflexivity. Qed.

Lemma members_text_one (k : string) (x : JSON) :
  members_text [(k, x)] = quote k ++ ":" ++ JSON_text x.
Proof. reflexivity. Qed.

Lemma members_text_more (k : string) (x : JSON) (kv : string * JSON)
    (ms : list (string * JSON)) :
  members_text ((k, x) :: kv :: ms) =
  quote k ++ ":" ++ JSON_text x ++ "," ++ members_text (kv :: ms).
Proof. reflexivity. Qed.

Lemma stringify_array (l : list JSON) (rest : string) :
  JSON_text (JArr l) ++ rest = String "[" (elements_text l ++ String "]" rest).
Proof.
  change (JSON_text (JArr l)) with ("[" ++ elements_text l ++ "]").
  now rewrite !append_assoc.
Qed.

Lemma stringify_object (ms : list (string * JSON)) (rest : string) :
  JSON_text (JObj ms) ++ rest = String "{" (members_text ms ++ String "}" rest).
Proof.
  change (JSON_text (JObj ms)) with ("{" ++ members_text ms ++ "}").
  now rewrite !append_assoc.
Qed.

Lemma elements_head (x : JSON) (l : list JSON) (rest : string) :
  exists c r, elements_text (x :: l) ++ rest = String c r /\ value_start c = true.
Proof.
  destruct (stringify_head x) as (c & r & Hx & Hc).
  destruct l as [|y l].
  - rewrite elements_text_one, Hx. eauto.
  - rewrite elements_text_more, Hx. eauto.
Qed.

Lemma size_array (l : list JSON) : size (JArr l) = S (size_list l).
Proof. reflexivity. Qed.

Lemma size_object (ms : list (string * JSON)) : size (JObj ms) = S (size_members ms).
Proof. reflexivity. Qed.

Lemma size_list_cons (x : JSON) (l : list JSON) :
  size_list (x :: l) = S (size x + size_list l).
Proof. reflexivity. Qed.

Lemma size_members_cons (k : string) (x : JSON) (ms : list (string * JSON)) :
  size_members ((k, x) :: ms) = S (size x + size_members ms).
Proof. reflexivity. Qed.

Lemma parse_value_S (fuel : nat) (c : ascii) (r : string) :
  is_ws c = false ->
  parse_value (S fuel) (String c r) =
  if (c =? "n")%char then r' ← strip_prefix "ull" r; Some (JNull, r')
  else if (c =? "t")%char then r' ← strip_prefix "rue" r; Some (JBool true, r')
  else if (c =? "f")%char then r' ← strip_prefix "alse" r; Some (JBool false, r')
  else if (c =? "034")%char then
    '(str, r') ← parse_string_body r; Some (JStr str, r')
  else if (c =? "[")%char then
    match skip_ws r with
    | String c' r' =>
        if (c' =? "]")%char then Some (JArr [], r')
        else '(l, r'') ← parse_elements fuel (String c' r'); Some (JArr l, r'')
    | EmptyString => None
    end
  else if (c =? "{")%char then
    match skip_ws r with
    | String c' r' =>
        if (c' =? "}")%char then Some (JObj [], r')
        else '(ms, r'') ← parse_members fuel (String c' r'); Some (JObj ms, r'')
    | EmptyString => None
    end
  else if (c =? "-")%char || is_digit c then parse_number (String c r)
  else None.
Proof.
  intros H. change (parse_value (S fuel) (String c r)) with
    (match skip_ws (String c r) with
     | EmptyString => None
     | String c r =>
          if (c =? "n")%char then r' ← strip_prefix "ull" r; Some (JNull, r')
          else if (c =? "t")%char then r' ← strip_prefix "rue" r; Some (JBool true, r')
          else if (c =? "f")%char then r' ← strip_prefix "alse" r; Some (JBool false, r')
          else if (c =? "034")%char then
            '(str, r') ← parse_string_body r; Some (JStr str, r')
          else if (c =? "[")%char then
            match skip_ws r with
            | String c' r' =>
                if (c' =? "]")%char then Some (JArr [], r')
                else '(l, r'') ← parse_elements fuel (String c' r'); Some (JArr l, r'')
            | EmptyString => None
            end
          else if (c =? "{")%char then
            match skip_ws r with
            | String c' r' =>
                if (c' =? "}")%char then Some (JObj [], r')
                else '(ms, r'') ← parse_members fuel (String c' r'); Some (JObj ms, r'')
            | EmptyString => None
            end
          else if (c =? "-")%char || is_digit c then parse_number (String c r)
          else None
     end).
  now rewrite (skip_ws_cons c r H).
Qed.

Lemma parse_elements_S (fuel : nat) (s : string) :
  parse_elements (S fuel) s =
  '(v, r) ← parse_value fuel s;
  match skip_ws r with
  | String c r' =>
      if (c =? ",")%char then
        '(l, r'') ← parse_elements fuel r'; Some (v :: l, r'')
      else if (c =? "]")%char then Some ([v], r')
      else None
  | EmptyString => None
  end.
Proof. reflexivity. Qed.

Lemma parse_members_S (fuel : nat) (r0 : string) :
  parse_members (S fuel) (String "034" r0) =
  '(k, r1) ← parse_string_body r0;
  match skip_ws r1 with
  | String c1 r2 =>
      if (c1 =? ":")%char then
        '(v, r3) ← parse_value fuel r2;
        match skip_ws r3 with
        | String c r' =>
            if (c =? ",")%char then
              '(ms, r'') ← parse_members fuel r'; Some ((k, v) :: ms, r'')
            else if (c =? "}")%char then Some ([(k, v)], r')
            else None
        | EmptyString => None
        end
      else None
  | EmptyString => None
  end.
Proof. reflexivity. Qed.

Lemma parse_elements_text (l : list JSON) :
  Forall reads_back l -> l <> [] ->
  forall fuel rest, size_list l <= fuel ->
    parse_elements fuel (elements_text l ++ String "]" rest) = Some (l, rest).
Proof.
  induction 1 as [|x l Hx Hl IH]; [congruence|]. intros _ fuel rest Hfuel.
  rewrite size_list_cons in Hfuel.
  destruct fuel as [|fuel]; [lia|]. rewrite parse_elements_S.
  destruct l as [|y l].
  - rewrite elements_text_one, (Hx fuel (String "]" rest)) by (reflexivity || lia).
    reflexivity.
  - rewrite elements_text_more, !append_assoc.
    change ("," ++ elements_text (y :: l) ++ String "]" rest)
      with (String "," (elements_text (y :: l) ++ String "]" rest)).
    rewrite (Hx fuel) by (reflexivity || lia).
    simpl. rewrite IH by (congruence || lia). reflexivity.
Qed.

Lemma parse_members_text (ms : list (string * JSON)) :
  Forall (fun kv => reads_back (snd kv)) ms -> ms <> [] ->
  forall fuel rest, size_members ms <= fuel ->
    parse_members fuel (members_text ms ++ String "}" rest) = Some (ms, rest).
Proof.
  induction 1 as [|[k x] ms Hx Hms IH]; [congruence|]. intros _ fuel rest Hfuel.
  rewrite size_members_cons in Hfuel. simpl in Hx.
  destruct fuel as [|fuel]; [lia|].
  destruct ms as [|kv ms].
  - rewrite members_text_one, !append_assoc, quote_append, parse_members_S.
    rewrite parse_escape. simpl.
    rewrite (Hx fuel (String "}" rest)) by (reflexivity || lia).
    reflexivity.
  - rewrite members_text_more, !append_assoc, quote_append, parse_members_S.
    rewrite parse_escape. simpl.
    change ("," ++ members_text (kv :: ms) ++ String "}" rest)
      with (String "," (members_text (kv :: ms) ++ String "}" rest)).
    rewrite (Hx fuel) by (reflexivity || lia).
    simpl. rewrite IH by (congruence || lia). reflexivity.
Qed.

Lemma parse_value_stringify (v : JSON) : reads_back v.
Proof.
  induction v as [ | b | m e | s | l IH | ms IH] using JSON_ind';
    intros fuel rest Hfuel Hrest;
    (destruct fuel as [|fuel]; [simpl in Hfuel; lia|]).
  - reflexivity.
  - destruct b; reflexivity.
  - destruct (string_of_number_head m e) as (c & r & Hcr & Hc).
    generalize (parse_number_print m e rest Hrest). simpl JSON_text.
    rewrite Hcr. change (String c r ++ rest) with (String c (r ++ rest)).
    intros Hnum.
    destruct (number_head_facts c Hc) as (Hvs & Hn & Ht & Hf & Hq & Hb & Ho).
    rewrite parse_value_S by apply (value_start_facts c Hvs).
    now rewrite Hn, Ht, Hf, Hq, Hb, Ho, Hc.
  - change (JSON_text (JStr s)) with (quote s). rewrite quote_append.
    rewrite parse_value_S by reflexivity. simpl. now rewrite parse_escape.
  - rewrite stringify_array, parse_value_S by reflexivity. simpl.
    rewrite size_array in Hfuel.
    destruct l as [|x l]; [reflexivity|].
    destruct (elements_head x l (String "]" rest)) as (c & r & Hcr & Hc).
    destruct (value_start_facts c Hc) as (Hws & Hb & _).
    generalize (parse_elements_text (x :: l) IH ltac:(congruence) fuel rest
                  ltac:(lia)).
    rewrite Hcr, (skip_ws_cons c r Hws), Hb. now intros ->.
  - rewrite stringify_object, parse_value_S by reflexivity. simpl.
    rewrite size_object in Hfuel.
    destruct ms as [|[k x] ms]; [reflexivity|].
    generalize (parse_members_text ((k, x) :: ms) IH ltac:(congruence) fuel rest
                  ltac:(lia)).
    assert (Hhead : exists r, members_text ((k, x) :: ms) ++ String "}" rest
                              = String "034" r).
    { destruct ms as [|kv ms].
      - rewrite members_text_one, !append_assoc, quote_append. eauto.
      - rewrite members_text_more, !append_assoc, quote_append. eauto. }
    destruct Hhead as (r & ->). simpl. now intros ->.
Qed.

(** *** Enough fuel *)

Lemma size_list_le (l : list JSON) :
  Forall (fun x => size x <= String.length (JSON_text x)) l ->
  size_list l <= S (String.length (elements_text l)).
Proof.
  induction 1 as [|x l Hx Hl IH]; [simpl; lia|].
  rewrite size_list_cons. destruct l as [|y l].
  - rewrite elements_text_one. simpl. lia.
  - rewrite elements_text_more, !length_append.
    change (String.length ",") with 1. lia.
Qed.

Lemma size_members_le (ms : list (string * JSON)) :
  Forall (fun kv => size (snd kv) <= String.length (JSON_text (snd kv))) ms ->
  size_members ms <= S (String.length (members_text ms)).
Proof.
  induction 1 as [|[k x] ms Hx Hms IH]; [simpl; lia|].
  rewrite size_members_cons. simpl in Hx. destruct ms as [|kv ms].
  - rewrite members_text_one, !length_append.
    change (size_members []) with 0. lia.
  - rewrite members_text_more, !length_append.
    change (String.length ",") with 1. lia.
Qed.

Lemma size_le_length (v : JSON) : size v <= String.length (JSON_text v).
Proof.
  induction v as [ | b | m e | s | l IH | ms IH] using JSON_ind'.
  - simpl. lia.
  - destruct b; simpl; lia.
  - destruct (string_of_number_head m e) as (c & r & H & _).
    simpl JSON_text. rewrite H. simpl. lia.
  - simpl. lia.
  - rewrite size_array. generalize (size_list_le l IH).
    change (JSON_text (JArr l)) with ("[" ++ elements_text l ++ "]").
    rewrite !length_append. simpl. lia.
  - rewrite size_object. generalize (size_members_le ms IH).
    change (JSON_text (JObj ms)) with ("{" ++ members_text ms ++ "}").
    rewrite !length_append. simpl. lia.
Qed.

(** Parsing the text of a value gives the value back. *)
Lemma JSON_parse_text (v : JSON) : JSON_parse (JSON_text v) = Some v.
Proof.
  unfold JSON_parse.
  generalize (parse_value_stringify v (2 * String.length (JSON_text v) + 2) ""
                ltac:(generalize (size_le_length v); lia) eq_refl).
  rewrite append_nil_r. now intros ->.
Qed.

(** [JSON.parse(JSON.stringify(v))] is [v] as [JSON.stringify] keeps it,
    for every JSON value. *)
Lemma JSON_parse_stringify (v : JSON) :
  JSON_parse (JSON_stringify v) = Some (as_stored v).
Proof. apply JSON_parse_text. Qed.

Lemma JSON_parse_stringify_object (fields : list (string * value)) :
  JSON_parse (JSON_stringify_object fields)
  = Some (JObj (stored_members (object_literal fields))).
Proof. apply JSON_parse_stringify. Qed.

(** A text that [JSON.stringify] wrote is not empty. *)
Lemma JSON_stringify_nonempty (v : JSON) : String.eqb (JSON_stringify v) "" = false.
Proof.
  unfold JSON_stringify. destruct (stringify_head (as_stored v)) as (c & r & -> & _).
  reflexivity.
Qed.

(** *** What is kept *)

Lemma as_stored_object (ms : list (string * JSON)) :
  as_stored (JObj ms) = JObj (stored_members ms).
Proof. reflexivity. Qed.

Lemma lookup_stored_members (k : string) (ms : list (string * JSON)) :
  lookup_member k (stored_members ms) = recorded (lookup_member k ms).
Proof.
  induction ms as [|[k' x] ms IH]; [reflexivity|].
  change (stored_members ((k', x) :: ms)) with ((k', as_stored x) :: stored_members ms).
  cbn [lookup_member]. rewrite IH.
  destruct (lookup_member k ms); [reflexivity|].
  now destruct (String.eqb k k').
Qed.

Lemma as_stored_storable (v : JSON) : storable v = true -> as_stored v = v.
Proof.
  induction v as [ | b | m e | s | l IH | ms IH] using JSON_ind'; intros H;
    try reflexivity.
  - cbn in H |- *. apply negb_true_iff in H. now rewrite H.
  - cbn [as_stored]. f_equal.
    induction IH as [|x l Hx Hl IHl]; [reflexivity|].
    cbn in H. apply andb_true_iff in H as [H1 H2].
    cbn [map]. rewrite (Hx H1). f_equal. apply IHl. exact H2.
  - rewrite as_stored_object. f_equal.
    induction IH as [|[k x] ms Hx Hms IHms]; [reflexivity|].
    cbn in H. apply andb_true_iff in H as [H1 H2].
    change (stored_members ((k, x) :: ms)) with ((k, as_stored x) :: stored_members ms).
    cbn [snd] in Hx. rewrite (Hx H1). f_equal. apply IHms. exact H2.
Qed.

Lemma storable_as_stored (v : JSON) : storable (as_stored v) = true.
Proof.
  induction v as [ | b | m e | s | l IH | ms IH] using JSON_ind'; try reflexivity.
  - cbn [as_stored]. destruct (number_overflows m e) eqn:E; [reflexivity|].
    cbn. now rewrite E.
  - cbn [as_stored]. induction IH as [|x l Hx Hl IHl]; [reflexivity|].
    cbn [map]. cbn in IHl |- *. now rewrite Hx.
  - rewrite as_stored_object. induction IH as [|[k x] ms Hx Hms IHms]; [reflexivity|].
    change (stored_members ((k, x) :: ms)) with ((k, as_stored x) :: stored_members ms).
    cbn [snd] in Hx. cbn in IHms |- *. now rewrite Hx.
Qed.

(** Writing what was read back changes nothing more. *)
Lemma as_stored_idempotent (v : JSON) : as_stored (as_stored v) = as_stored v.
Proof. apply as_stored_storable, storable_as_stored. Qed.

Lemma JSON_stringify_as_stored (v : JSON) :
  JSON_stringify (as_stored v) = JSON_stringify v.
Proof. unfold JSON_stringify. now rewrite as_stored_idempotent. Qed.

Lemma recorded_idempotent (v : value) : recorded (recorded v) = recorded v.
Proof. destruct v; cbn; [now rewrite as_stored_idempotent | reflexivity]. Qed.

Lemma object_literal_recorded (fields : list (string * value)) :
  object_literal (map (fun kv => (fst kv, recorded (snd kv))) fields)
  = stored_members (object_literal fields).
Proof.
  induction fields as [|[k [v|]] fields IH]; [reflexivity| |exact IH].
  cbn [map fst snd recorded object_literal].
  change (stored_members ((k, v) :: object_literal fields))
    with ((k, as_stored v) :: stored_members (object_literal fields)).
  now rewrite IH.
Qed.

Lemma JSON_stringify_object_recorded (fields : list (string * value)) :
  JSON_stringify_object (map (fun kv => (fst kv, recorded (snd kv))) fields)
  = JSON_stringify_object fields.
Proof.
  unfold JSON_stringify_object.
  rewrite object_literal_recorded, <- as_stored_object.
  apply JSON_stringify_as_stored.
Qed.

Lemma recorded_storable (v : JSON) : storable v = true -> recorded (Some v) = Some v.
Proof. intros H. cbn. now rewrite as_stored_storable. Qed.

Lemma recorded_string (s : string) : recorded (Some (JStr s)) = Some (JStr s).
Proof. reflexivity. Qed.

End JSONFacts.

(** ** Reading the stored session *)

Module SessionFacts.
Import JS JSONText Browser Session JSONFacts.

Lemma nonempty_stringify (v : JSON) : nonempty (JSON_stringify v) = true.
Proof. unfold nonempty. now rewrite JSON_stringify_nonempty. Qed.

Lemma record_lookup (st : gmap string string) (text : string) :
  st !! "auth" = Some text ->
  record st = if nonempty text then JSON_parse text else None.
Proof. intros H. unfold record. rewrite H. reflexivity. Qed.

(** After [setItem('auth', JSON.stringify(authData))] the record that is
    read back is [authData], less its [undefined] properties, with every
    value as [JSON.stringify] keeps it. *)
Lemma record_setItem (fields : list (string * value)) (st : gmap string string) :
  record (setItem "auth" (JSON_stringify_object fields) st)
  = Some (JObj (stored_members (object_literal fields))).
Proof.
  rewrite (record_lookup _ (JSON_stringify_object fields))
    by apply lookup_insert_eq.
  unfold JSON_stringify_object. rewrite nonempty_stringify.
  apply JSON_parse_stringify.
Qed.

Lemma field_setItem (k : string) (fields : list (string * value))
    (st : gmap string string) :
  field k (setItem "auth" (JSON_stringify_object fields) st)
  = recorded (lookup_member k (object_literal fields)).
Proof. unfold field. rewrite record_setItem. apply lookup_stored_members. Qed.

Lemma has_stored_members (k : string) (ms : list (string * JSON)) :
  has k (JObj (stored_members ms)) = has k (JObj ms).
Proof.
  unfold has. rewrite lookup_stored_members. now destruct (lookup_member k ms).
Qed.

Lemma fully_populated_stored (ms : list (string * JSON)) :
  fully_populated (JObj (stored_members ms)) = fully_populated (JObj ms).
Proof. unfold fully_populated. now rewrite !has_stored_members. Qed.

Lemma unreadable_setItem (fields : list (string * value)) (st : gmap string string) :
  unreadable (setItem "auth" (JSON_stringify_object fields) st) = false.
Proof.
  unfold unreadable, setItem. rewrite lookup_insert_eq.
  unfold JSON_stringify_object. rewrite nonempty_stringify, JSON_parse_stringify.
  reflexivity.
Qed.

Lemma well_formed_setItem (fields : list (string * value)) (st : gmap string string) :
  well_formed (setItem "auth" (JSON_stringify_object fields) st)
  = fully_populated (JObj (object_literal fields)).
Proof.
  unfold well_formed. rewrite record_setItem.
  unfold setItem. rewrite lookup_insert_eq. apply fully_populated_stored.
Qed.

Lemma well_formed_removeItem (st : gmap string string) :
  well_formed (removeItem "auth" st) = true.
Proof. unfold well_formed, removeItem. now rewrite lookup_delete_eq. Qed.

(** [checkAuth] in terms of the stored record. *)
Lemma checkAuth_eq (w : World) (st : gmap string string) :
  Enhanced.checkAuth w st =
  (if truthy (field "token" st) then Resolved tt
   else Rejected (Some (Error "Not authenticated")),
   if unreadable st then removeItem "auth" st else st).
Proof.
  unfold Enhanced.checkAuth, field, record, unreadable, getItem, parse, prop, get.
  destruct (st !! "auth") as [text|]; simpl; [|reflexivity].
  destruct (nonempty text); simpl; [|reflexivity].
  destruct (JSON_parse text) as [[ | b | m e | s | l | ms]|]; simpl; try reflexivity.
  destruct (truthy (lookup_member "token" ms)); reflexivity.
Qed.

(** [getPermissions] in terms of the stored record. *)
Lemma getPermissions_eq (w : World) (st : gmap string string) :
  Enhanced.getPermissions w st =
  (match record st with
   | None => Rejected (Some (Error "No permissions available"))
   | Some JNull => Rejected (Some (Error "No permissions available"))
   | Some _ => Resolved (field "role" st)
   end, st).
Proof.
  unfold Enhanced.getPermissions, field, record, getItem, parse, prop, get.
  destruct (st !! "auth") as [text|]; simpl; [|reflexivity].
  destruct (nonempty text); simpl; [|reflexivity].
  destruct (JSON_parse text) as [[ | b | m e | s | l | ms]|]; reflexivity.
Qed.

(** The two providers accept the same pairs. *)
Lemma find_static_allow_list (username password : string) :
  is_Some (Enhanced.find_static username password)
  <-> In (username, password) allow_list.
Proof.
  split.
  - intros [cred Hcred]. apply find_some in Hcred as [Hin Hmatch].
    apply andb_true_iff in Hmatch as [Hu Hp].
    apply String.eqb_eq in Hu, Hp. subst username password.
    simpl in Hin. destruct Hin as [<- | [<- | [<- | []]]]; simpl; tauto.
  - simpl. intros [[= <- <-] | [[= <- <-] | [[= <- <-] | []]]];
      eexists; reflexivity.
Qed.

Lemma isValid_find_static (username password : string) :
  Static.isValid username password
  = match Enhanced.find_static username password with
    | Some _ => true
    | None => false
    end.
Proof.
  cbv [Static.isValid Static.validCredentials existsb fst snd
       Enhanced.find_static Enhanced.staticCredentials find
       Enhanced.cred_username Enhanced.cred_password].
  destruct (String.eqb "admin" username), (String.eqb "admin" password),
    (String.eqb "user" username), (String.eqb "user123" password),
    (String.eqb "test" username), (String.eqb "test" password); reflexivity.
Qed.

(** ToString gives the text of a value that has one, and throws
    otherwise. *)
Lemma ToString_cases (w : World) (v : value) :
  ToString w v
  = if printable_value v then inr (string_of_value v)
    else inl (TypeError (convert_error_text w)).
Proof. unfold ToString, ToString_with. now destruct (printable_value v). Qed.

Lemma ToString_string (w : World) (s : string) :
  ToString w (Some (JStr s)) = inr s.
Proof. reflexivity. Qed.

(** [throw new Error(x)] throws, one way or the other. *)
Lemma throw_new_Error {A} (w : World) (v : value) :
  exists e, (reason <- ToString w v ;; throw (Error reason)) = (inl e : M A).
Proof. rewrite ToString_cases. destruct (printable_value v); cbn; eauto. Qed.

(** What the [try] block of [login] stores when it returns. *)
Lemma login_api_returns (w : World) (username password : string)
    (st st' : gmap string string) :
  Enhanced.login_api w username password st = inr st' ->
  exists response data authData,
    fetch w (Enhanced.login_request w username password) = FetchReturns response
    /\ ok response = true
    /\ response_json w response = inr data
    /\ Enhanced.api_authData w data = inr authData
    /\ st' = setItem "auth" (JSON_stringify_object authData) st.
Proof.
  unfold Enhanced.login_api.
  destruct (fetch w _) as [e | response]; [discriminate|].
  destruct (ok response) eqn:Hok.
  - destruct (response_json w response) as [e | data] eqn:Hdata; [discriminate|].
    simpl. destruct (Enhanced.api_authData w data) as [e | authData] eqn:Hauth;
      [discriminate|].
    simpl. intros [= <-]. exists response, data, authData. auto.
  - destruct (response_json w response) as [e | errorData]; [discriminate|].
    cbn [bind]. destruct (prop w errorData "detail") as [e | detail];
      [discriminate|].
    cbn [bind].
    destruct (throw_new_Error (A := gmap string string) w
                (or_else detail (Some (JStr "Login failed")))) as [e ->].
    discriminate.
Qed.

(** A response that is not ok makes the [try] block throw. *)
Lemma login_api_not_ok (w : World) (username password : string)
    (st : gmap string string) (response : Response) :
  fetch w (Enhanced.login_request w username password) = FetchReturns response ->
  ok response = false ->
  exists apiError, Enhanced.login_api w username password st = inl apiError.
Proof.
  intros Hfetch Hok. unfold Enhanced.login_api. rewrite Hfetch, Hok.
  destruct (response_json w response) as [e | errorData]; [eauto|].
  cbn [bind]. destruct (prop w errorData "detail") as [e | detail]; [cbn; eauto|].
  cbn [bind]. apply throw_new_Error.
Qed.

End SessionFacts.

(** ** The paths of [login] *)

Module LoginFacts.
Import JS JSONText Browser Session JSONFacts SessionFacts.

Lemma login_api_path (w : World) (username password : string)
    (st st' : gmap string string) :
  Enhanced.login_api w username password st = inr st' ->
  Enhanced.login w username password st = (Resolved tt, st').
Proof. intros H. unfold Enhanced.login. now rewrite H. Qed.

Lemma login_fallback_path (w : World) (username password : string)
    (st : gmap string string) (apiError : exn) (staticUser : Enhanced.credential) :
  Enhanced.login_api w username password st = inl apiError ->
  Enhanced.find_static username password = Some staticUser ->
  Enhanced.login w username password st =
  (Resolved tt,
   setItem "auth" (JSON_stringify_object (Enhanced.static_authData w staticUser)) st).
Proof. intros H1 H2. unfold Enhanced.login. now rewrite H1, H2. Qed.

Lemma login_failure_path (w : World) (username password : string)
    (st : gmap string string) (apiError : exn) :
  Enhanced.login_api w username password st = inl apiError ->
  Enhanced.find_static username password = None ->
  Enhanced.login w username password st =
  (Rejected (Some (Error (if nonempty (message apiError) then message apiError
                          else "Invalid username or password"))), st).
Proof. intros H1 H2. unfold Enhanced.login. now rewrite H1, H2. Qed.

(** A successful [login] stored one whole record, built on one of the
    two paths. *)
Lemma login_resolved (w : World) (username password : string)
    (st st' : gmap string string) :
  Enhanced.login w username password st = (Resolved tt, st') ->
  exists authData,
    st' = setItem "auth" (JSON_stringify_object authData) st /\
    ((exists response data,
        fetch w (Enhanced.login_request w username password) = FetchReturns response
        /\ ok response = true /\ response_json w response = inr data
        /\ Enhanced.api_authData w data = inr authData)
     \/ (exists apiError staticUser,
           Enhanced.login_api w username password st = inl apiError
           /\ Enhanced.find_static username password = Some staticUser
           /\ authData = Enhanced.static_authData w staticUser)).
Proof.
  unfold Enhanced.login.
  destruct (Enhanced.login_api w username password st) as [apiError | st1] eqn:Hapi.
  - destruct (Enhanced.find_static username password) as [staticUser|] eqn:Hfind;
      [|discriminate].
    intros [= <-]. exists (Enhanced.static_authData w staticUser).
    split; [reflexivity|]. right. exists apiError, staticUser. auto.
  - intros [= <-].
    destruct (login_api_returns _ _ _ _ _ Hapi)
      as (response & data & authData & H1 & H2 & H3 & H4 & H5).
    exists authData. split; [exact H5|]. left. exists response, data. auto.
Qed.

(** Apart from the storage it is given, [login] does one of two things. *)
Lemma login_shape (w : World) (username password : string) :
  (exists reason, forall st,
     Enhanced.login w username password st = (Rejected reason, st))
  \/ (exists authData, forall st,
        Enhanced.login w username password st
        = (Resolved tt, setItem "auth" (JSON_stringify_object authData) st)).
Proof.
  unfold Enhanced.login, Enhanced.login_api.
  destruct (fetch w (Enhanced.login_request w username password)) as [e | response].
  - destruct (Enhanced.find_static username password); [right | left]; eauto.
  - destruct (ok response).
    + destruct (response_json w response) as [e | data]; cbn [bind].
      * destruct (Enhanced.find_static username password); [right | left]; eauto.
      * destruct (Enhanced.api_authData w data) as [e | authData]; cbn [bind].
        -- destruct (Enhanced.find_static username password); [right | left]; eauto.
        -- right. exists authData. reflexivity.
    + destruct (response_json w response) as [e | errorData]; cbn [bind].
      * destruct (Enhanced.find_static username password); [right | left]; eauto.
      * destruct (prop w errorData "detail") as [e | detail]; cbn [bind throw];
          [|rewrite ToString_cases;
            destruct (printable_value (or_else detail (Some (JStr "Login failed"))));
            cbn [bind throw]];
          (destruct (Enhanced.find_static username password); [right | left]; eauto).
Qed.

(** The record of the fallback path: its token is never empty, and all
    five fields are there. *)
Lemma static_token_truthy (w : World) (staticUser : Enhanced.credential) :
  truthy (lookup_member "token"
            (object_literal (Enhanced.static_authData w staticUser))) = true.
Proof. reflexivity. Qed.

Lemma static_role (w : World) (staticUser : Enhanced.credential) :
  lookup_member "role" (object_literal (Enhanced.static_authData w staticUser))
  = Some (JStr (Enhanced.cred_role staticUser)).
Proof. reflexivity. Qed.

Lemma static_fully_populated (w : World) (staticUser : Enhanced.credential) :
  fully_populated (JObj (object_literal (Enhanced.static_authData w staticUser)))
  = true.
Proof. reflexivity. Qed.

End LoginFacts.

(** * The claims *)

Import JS JSONText Browser Session JSONFacts SessionFacts LoginFacts.

(** C1. A credential attempt that is not in the fallback allow-list and
    that the remote login endpoint turns down makes [login] fail with an
    [Error] (the kind AuthRejected) and leaves the storage exactly as it
    was, so no session is written. The static provider, which asks no
    endpoint, fails in the same way. *)
Theorem login_rejected (w : World) (username password : string)
    (st : gmap string string) (response : Response) :
  ~ In (username, password) allow_list ->
  fetch w (Enhanced.login_request w username password) = FetchReturns response ->
  ok response = false ->
  (exists msg,
     Enhanced.login w username password st = (Rejected (Some (Error msg)), st))
  /\ Static.login username password st
     = (Rejected (Some (Error "Invalid username or password")), st).
Proof.
  intros Hlist Hfetch Hok.
  assert (Hfind : Enhanced.find_static username password = None).
  { destruct (Enhanced.find_static username password) eqn:E; [|reflexivity].
    exfalso. apply Hlist, find_static_allow_list. rewrite E. eauto. }
  split.
  - destruct (login_api_not_ok w username password st response Hfetch Hok)
      as [apiError Hapi].
    rewrite (login_failure_path _ _ _ _ _ Hapi Hfind). eauto.
  - unfold Static.login. now rewrite isValid_find_static, Hfind.
Qed.

Lemma login_rejected_witness :
  ~ In ("mallory", "letmein") allow_list
  /\ (exists msg,
        Enhanced.login (Fixtures.world Fixtures.turned_down) "mallory" "letmein"
          Fixtures.storage_without_token
        = (Rejected (Some (Error msg)), Fixtures.storage_without_token))
  /\ Static.login "mallory" "letmein" Fixtures.storage_without_token
     = (Rejected (Some (Error "Invalid username or password")),
        Fixtures.storage_without_token).
Proof.
  assert (H : ~ In ("mallory", "letmein") allow_list).
  { simpl. intros [H | [H | [H | []]]]; discriminate H. }
  split; [exact H|].
  exact (login_rejected (Fixtures.world Fixtures.turned_down) "mallory" "letmein"
           Fixtures.storage_without_token
           {| ok := false;
              text := Fixtures.text_of "{'detail':'Incorrect username or password'}" |}
           H eq_refl eq_refl).
Defined.

(** C2. [checkError] fails, and removes the persisted session, exactly
    when the status is 401 or 403; for every other status it succeeds and
    leaves the storage as it was. The enhanced provider rejects with the
    error "Authentication required", the static one with no reason. *)
Theorem checkError_spec (status : Z) (st : gmap string string) :
  ((exists reason, fst (Enhanced.checkError status st) = Rejected reason)
   <-> (status = 401 \/ status = 403)%Z)
  /\ ((status = 401 \/ status = 403)%Z ->
      Enhanced.checkError status st
      = (Rejected (Some (Error "Authentication required")), removeItem "auth" st)
      /\ Static.checkError status st = (Rejected None, removeItem "auth" st)
      /\ removeItem "auth" st !! "auth" = None)
  /\ (~ (status = 401 \/ status = 403)%Z ->
      Enhanced.checkError status st = (Resolved tt, st)
      /\ Static.checkError status st = (Resolved tt, st)).
Proof.
  assert (Hb : ((status =? 401) || (status =? 403))%Z = true
               <-> (status = 401 \/ status = 403)%Z).
  { rewrite orb_true_iff, !Z.eqb_eq. tauto. }
  unfold Enhanced.checkError, Static.checkError.
  destruct ((status =? 401) || (status =? 403))%Z; simpl.
  - assert (H : (status = 401 \/ status = 403)%Z) by (apply Hb; reflexivity).
    split; [split; eauto|]. split.
    + intros _. repeat split. apply lookup_delete_eq.
    + intros Hn. contradiction.
  - assert (H : ~ (status = 401 \/ status = 403)%Z).
    { intros H. apply Hb in H. discriminate H. }
    split; [split; [intros [r Hr]; discriminate Hr | intros H'; contradiction]|].
    split; [intros H'; contradiction | intros _; split; reflexivity].
Qed.

Lemma checkError_spec_witness :
  (401 = 401 \/ 401 = 403)%Z
  /\ Enhanced.checkError 401 Fixtures.storage_without_token
     = (Rejected (Some (Error "Authentication required")),
        removeItem "auth" Fixtures.storage_without_token)
  /\ ~ (200 = 401 \/ 200 = 403)%Z
  /\ Enhanced.checkError 200 Fixtures.storage_without_token
     = (Resolved tt, Fixtures.storage_without_token).
Proof.
  assert (H401 : (401 = 401 \/ 401 = 403)%Z) by (left; reflexivity).
  assert (H200 : ~ (200 = 401 \/ 200 = 403)%Z) by (intros [H | H]; discriminate H).
  split; [exact H401|]. split.
  - exact (proj1 (proj1 (proj2 (checkError_spec 401 Fixtures.storage_without_token))
                    H401)).
  - split; [exact H200|].
    exact (proj1 (proj2 (proj2 (checkError_spec 200 Fixtures.storage_without_token))
                    H200)).
Defined.

(** C3 as stated fails here: a stored record that parses but has no token
    makes [checkAuth] fail, and the record stays where it was. *)
Lemma checkAuth_keeps_record_without_token :
  Enhanced.checkAuth (Fixtures.world Fixtures.unreachable)
    Fixtures.storage_without_token
  = (Rejected (Some (Error "Not authenticated")), Fixtures.storage_without_token)
  /\ record Fixtures.storage_without_token
     = Some (JObj [("username", JStr "admin"); ("role", JStr "admin")]).
Proof. split; vm_compute; reflexivity. Qed.

(** C3, amended. [checkAuth] succeeds exactly when the stored record has
    a truthy [token]; otherwise it rejects with "Not authenticated". It
    removes what is stored only when the stored text is unreadable
    ([JSON.parse] throws on it, or it is the text of [null]); a record
    that parses and has no token is left in the storage. *)
Theorem checkAuth_spec (w : World) (st : gmap string string) :
  (fst (Enhanced.checkAuth w st) = Resolved tt
   <-> truthy (field "token" st) = true)
  /\ (fst (Enhanced.checkAuth w st) = Resolved tt
      \/ fst (Enhanced.checkAuth w st) = Rejected (Some (Error "Not authenticated")))
  /\ snd (Enhanced.checkAuth w st)
     = (if unreadable st then removeItem "auth" st else st).
Proof.
  rewrite checkAuth_eq. simpl.
  destruct (truthy (field "token" st)); repeat split; auto; discriminate.
Qed.

Lemma checkAuth_spec_witness :
  snd (Enhanced.checkAuth (Fixtures.world Fixtures.unreachable) {[ "auth" := "{" ]})
  = removeItem "auth" {[ "auth" := "{" ]}.
Proof.
  exact (proj2 (proj2 (checkAuth_spec (Fixtures.world Fixtures.unreachable)
                         {[ "auth" := "{" ]}))).
Defined.

(** C7. When [create] on the resource [users] meets a response of status
    409, the gateway throws a new [Error] that says the username or email
    already exists, and not the error the HTTP client raised. *)
Theorem create_users_conflict (w : World) (lib : Gateway.RestLibrary)
    (st : gmap string string) (params : list (string * JSON)) (error : exn) :
  Gateway.fetchJson lib
    (fst (Gateway.outgoing w lib st Gateway.Create "users" params))
    (snd (Gateway.outgoing w lib st Gateway.Create "users" params)) = inl error ->
  status error = Some 409%Z ->
  Gateway.create w lib st "users" params
  = inl (Error "Username or email already exists. Please choose different credentials.")
  /\ Gateway.create w lib st "users" params <> inl error.
Proof.
  intros Hfetch Hstatus.
  assert (Hbase : Gateway.baseDataProvider w lib st Gateway.Create "users" params
                  = inl error).
  { unfold Gateway.baseDataProvider.
    destruct (Gateway.outgoing w lib st Gateway.Create "users" params) as [url options].
    simpl in Hfetch. now rewrite Hfetch. }
  assert (Hcreate : Gateway.create w lib st "users" params
    = inl (Error "Username or email already exists. Please choose different credentials.")).
  { unfold Gateway.create. rewrite Hbase. unfold Gateway.status_is.
    rewrite Hstatus. reflexivity. }
  split; [exact Hcreate|]. rewrite Hcreate. intros [= <-]. discriminate Hstatus.
Qed.

Lemma create_users_conflict_witness :
  Gateway.create (Fixtures.world Fixtures.unreachable)
    (Fixtures.library (inl Fixtures.conflict)) Fixtures.storage_without_token
    "users" [("data", JObj [("username", JStr "admin")])]
  = inl (Error "Username or email already exists. Please choose different credentials.").
Proof.
  exact (proj1 (create_users_conflict (Fixtures.world Fixtures.unreachable)
                  (Fixtures.library (inl Fixtures.conflict))
                  Fixtures.storage_without_token
                  [("data", JObj [("username", JStr "admin")])]
                  Fixtures.conflict eq_refl eq_refl)).
Defined.

(** C8. With the attempt admin / admin and a login endpoint that cannot
    be reached ([fetch] throws), [login] succeeds on the fallback path and
    the session it stores has the role [admin]. The static provider also
    stores the role [admin] for this attempt. *)
Theorem admin_login_unreachable (w : World) (st : gmap string string) (e : exn) :
  fetch w (Enhanced.login_request w "admin" "admin") = FetchThrows e ->
  (exists st',
     Enhanced.login w "admin" "admin" st = (Resolved tt, st')
     /\ field "role" st' = Some (JStr "admin")
     /\ field "username" st' = Some (JStr "admin"))
  /\ (exists st',
        Static.login "admin" "admin" st = (Resolved tt, st')
        /\ field "role" st' = Some (JStr "admin")).
Proof.
  intros Hfetch. split.
  - eexists. split.
    + eapply login_fallback_path; [|reflexivity].
      unfold Enhanced.login_api. rewrite Hfetch. reflexivity.
    + rewrite !field_setItem. split; reflexivity.
  - eexists. split; [reflexivity|]. now rewrite field_setItem.
Qed.

Lemma admin_login_unreachable_witness :
  exists st',
    Enhanced.login (Fixtures.world Fixtures.unreachable) "admin" "admin" ∅
    = (Resolved tt, st')
    /\ field "role" st' = Some (JStr "admin")
    /\ field "username" st' = Some (JStr "admin").
Proof.
  exact (proj1 (admin_login_unreachable (Fixtures.world Fixtures.unreachable) ∅
                  (TypeError "Failed to fetch") eq_refl)).
Defined.

(** What [api_authData] returns, field by field. *)
Lemma api_authData_inv (w : World) (data : value) (authData : list (string * value)) :
  Enhanced.api_authData w data = inr authData ->
  exists user username full_name email role access_token,
    prop w data "user" = inr user
    /\ prop w user "username" = inr username
    /\ prop w user "full_name" = inr full_name
    /\ prop w user "email" = inr email
    /\ prop w user "role" = inr role
    /\ prop w data "access_token" = inr access_token
    /\ authData = [("username", username); ("fullName", full_name);
                   ("email", email); ("role", role); ("token", access_token);
                   ("loginTime", Some (JStr (Date_toISOString w)))].
Proof.
  unfold Enhanced.api_authData.
  destruct (prop w data "user") as [e | user] eqn:Hu; [discriminate|]. simpl.
  destruct (prop w user "username") as [e | username] eqn:Hn; [discriminate|]. simpl.
  destruct (prop w user "full_name") as [e | full_name] eqn:Hf; [discriminate|]. simpl.
  destruct (prop w user "email") as [e | email] eqn:He; [discriminate|]. simpl.
  destruct (prop w user "role") as [e | role] eqn:Hr; [discriminate|]. simpl.
  destruct (prop w data "access_token") as [e | access_token] eqn:Ht;
    [discriminate|]. simpl.
  intros [= <-]. exists user, username, full_name, email, role, access_token.
  auto 10.
Qed.

Lemma api_record_token (username full_name email role access_token stamp : value) :
  lookup_member "token"
    (object_literal [("username", username); ("fullName", full_name);
                     ("email", email); ("role", role); ("token", access_token);
                     ("loginTime", stamp)]) = access_token.
Proof.
  destruct username, full_name, email, role, access_token, stamp; reflexivity.
Qed.

Lemma api_record_role (username full_name email role access_token stamp : value) :
  lookup_member "role"
    (object_literal [("username", username); ("fullName", full_name);
                     ("email", email); ("role", role); ("token", access_token);
                     ("loginTime", stamp)]) = role.
Proof.
  destruct username, full_name, email, role, access_token, stamp; reflexivity.
Qed.





(** ** The header of the session *)

Lemma reverse_involutive (s : string) : reverse (reverse s) = s.
Proof.
  unfold reverse.
  now rewrite list_ascii_of_string_of_list_ascii, rev_involutive,
    string_of_list_ascii_of_string.
Qed.

Lemma plain_facts (c : ascii) :
  ((32 <? N_of_ascii c)%N && (N_of_ascii c <? 127)%N) = true ->
  is_http_whitespace c = false
  /\ (N_of_ascii c <? 196)%N = true
  /\ negb ((c =? "000") || (c =? "010") || (c =? "013"))%char = true.
Proof.
  intros H. apply andb_true_iff in H as [H1 H2].
  apply N.ltb_lt in H1, H2.
  assert (Hne : forall n, (n <= 32)%N ->
                          (c =? ascii_of_N n)%char = false).
  { intros n Hn. apply Ascii.eqb_neq. intros ->.
    rewrite N_ascii_embedding in H1 by lia. lia. }
  unfold is_http_whitespace.
  change "009"%char with (ascii_of_N 9). change "010"%char with (ascii_of_N 10).
  change "013"%char with (ascii_of_N 13). change " "%char with (ascii_of_N 32).
  change "000"%char with (ascii_of_N 0).
  rewrite !Hne by lia. repeat split. apply N.ltb_lt. lia.
Qed.

(** [Headers.set] stores a value of visible ASCII as it is. *)
Lemma plain_is_sent (token : string) :
  token <> "" -> plain token = true ->
  sendable ("Bearer " ++ token) = true
  /\ normalize ("Bearer " ++ token) = "Bearer " ++ token.
Proof.
  intros Hne Hplain. unfold plain in Hplain.
  rewrite forallb_forall in Hplain.
  assert (Hlist : list_ascii_of_string ("Bearer " ++ token)
                  = (list_ascii_of_string "Bearer " ++ list_ascii_of_string token)%list).
  { reflexivity. }
  assert (Hnorm : normalize ("Bearer " ++ token) = "Bearer " ++ token).
  { unfold normalize.
    change (strip_leading ("Bearer " ++ token)) with ("Bearer " ++ token).
    assert (Hlast : exists z l, list_ascii_of_string token = (l ++ [z])%list).
    { destruct (list_ascii_of_string token) as [|c l] eqn:E.
      - exfalso. apply Hne. rewrite <- (string_of_list_ascii_of_string token), E.
        reflexivity.
      - destruct (exists_last (l := c :: l)) as (l' & z & ->); [discriminate|].
        eauto. }
    destruct Hlast as (z & l & Hl).
    assert (Hz : is_http_whitespace z = false).
    { apply plain_facts, Hplain. rewrite Hl. apply in_or_app. right. now left. }
    unfold reverse at 2. rewrite Hlist, Hl, app_assoc, rev_unit.
    cbn [string_of_list_ascii strip_leading]. rewrite Hz.
    change (String z (string_of_list_ascii
                        (rev (list_ascii_of_string "Bearer " ++ l))))
      with (string_of_list_ascii
              (z :: rev (list_ascii_of_string "Bearer " ++ l))).
    rewrite <- rev_unit, <- app_assoc, <- Hl, <- Hlist.
    apply reverse_involutive. }
  split; [|exact Hnorm].
  unfold sendable. rewrite Hnorm. unfold is_ByteString, is_header_value.
  rewrite Hlist, !forallb_app. apply andb_true_iff. split.
  - apply andb_true_iff. split; [reflexivity|].
    apply forallb_forall. intros c Hc. now apply plain_facts, Hplain.
  - apply andb_true_iff. split; [reflexivity|].
    apply forallb_forall. intros c Hc. now apply plain_facts, Hplain.
Qed.

Lemma authorization_of_plain (token : string) :
  token <> "" -> plain token = true ->
  authorization_of (Some (JStr token)) = Some ("Bearer " ++ token).
Proof.
  intros Hne Hplain. destruct (plain_is_sent token Hne Hplain) as [Hs Hn].
  unfold authorization_of. cbn [truthy printable_value printable string_of_value
    string_of_JSON].
  rewrite Hs, Hn. apply String.eqb_neq in Hne. now rewrite Hne.
Qed.

Lemma authorization_of_is_Some (token : value) :
  is_Some (authorization_of token)
  <-> truthy token = true /\ printable_value token = true
      /\ sendable ("Bearer " ++ string_of_value token) = true.
Proof.
  unfold authorization_of.
  destruct (truthy token), (printable_value token),
    (sendable ("Bearer " ++ string_of_value token)); cbn;
    (split; [intros [x Hx]; try discriminate Hx; auto
            | intros (H1 & H2 & H3); try discriminate; eauto]).
Qed.

(** [httpClient] in terms of the stored record. *)
Lemma httpClient_eq (w : World) (st : gmap string string) (url : string)
    (options : Gateway.Options) :
  Gateway.httpClient w st url options =
  (url,
   Gateway.with_headers options
     (match authorization_of (field "token" st) with
      | Some v => <[ "authorization" := v ]> (Gateway.default_headers options)
      | None => Gateway.default_headers options
      end)).
Proof.
  assert (Hset : forall token,
             match (if truthy token then
                      text <- ToString w token ;;
                      Headers_set w "authorization" ("Bearer " ++ text)
                        (Gateway.default_headers options)
                    else ret (Gateway.default_headers options)) with
             | inr h => h
             | inl _ => Gateway.default_headers options
             end
             = match authorization_of token with
               | Some v => <[ "authorization" := v ]> (Gateway.default_headers options)
               | None => Gateway.default_headers options
               end).
  { intros token. unfold authorization_of, sendable.
    destruct (truthy token); [|reflexivity].
    rewrite ToString_cases.
    destruct (printable_value token); [|reflexivity].
    cbn [bind andb]. unfold Headers_set, header_value.
    destruct (is_ByteString ("Bearer " ++ string_of_value token)
              && is_header_value (normalize ("Bearer " ++ string_of_value token)));
      reflexivity. }
  unfold Gateway.httpClient, field, record, getItem, parse.
  destruct (st !! "auth") as [text|]; cbn [mbind option_bind]; [|reflexivity].
  destruct (nonempty text); [|reflexivity].
  destruct (JSON_parse text) as [v|]; [|reflexivity].
  cbn [bind ret].
  destruct v as [ | b | m e | s | l | ms]; try reflexivity.
  unfold prop, get. cbn [bind ret]. now rewrite Hset.
Qed.


(** The early [httpClient] looks under the key [token], which no [login]
    writes: a session alone gives no header. *)
Lemma early_httpClient_other_key (w : World) (st : gmap string string)
    (url : string) (options : Gateway.Options) :
  st !! "token" = None ->
  Gateway.httpClient_token_key w st url options
  = inr (url, Gateway.with_headers options (Gateway.default_headers options)).
Proof. intros H. unfold Gateway.httpClient_token_key, getItem. now rewrite H. Qed.




(** C6 as stated fails here: a login that the endpoint accepts with an
    empty token succeeds, and the [checkAuth] that follows it fails. *)
Lemma login_empty_token_then_checkAuth :
  fst (Enhanced.login (Fixtures.world Fixtures.accepted_empty_token)
         "alice" "secret" ∅) = Resolved tt
  /\ fst (Enhanced.checkAuth (Fixtures.world Fixtures.accepted_empty_token)
            (snd (Enhanced.login (Fixtures.world Fixtures.accepted_empty_token)
                    "alice" "secret" ∅)))
     = Rejected (Some (Error "Not authenticated")).
Proof. split; vm_compute; reflexivity. Qed.

(** A role and a token too large for a double are written by
    [JSON.stringify] as [null], and read back as such. *)
Lemma login_huge_numbers :
  fst (Enhanced.login (Fixtures.world Fixtures.accepted_huge_numbers)
         "alice" "secret" ∅) = Resolved tt
  /\ fst (Enhanced.getPermissions (Fixtures.world Fixtures.accepted_huge_numbers)
            (snd (Enhanced.login (Fixtures.world Fixtures.accepted_huge_numbers)
                    "alice" "secret" ∅)))
     = Resolved (Some JNull)
  /\ fst (Enhanced.checkAuth (Fixtures.world Fixtures.accepted_huge_numbers)
            (snd (Enhanced.login (Fixtures.world Fixtures.accepted_huge_numbers)
                    "alice" "secret" ∅)))
     = Rejected (Some (Error "Not authenticated")).
Proof. repeat split; vm_compute; reflexivity. Qed.

(** C6, amended. After a [login] that succeeds, [getPermissions] returns
    the role as [login] recorded it, and [checkAuth] succeeds exactly when
    the token as recorded is truthy. The role is the [user.role] of the
    response on the remote path and the role of the matched pair on the
    fallback path; the token is the [access_token] of the response, or the
    one the fallback path makes, with which [checkAuth] always succeeds.
    What is recorded is the value itself unless a number too large for a
    double occurs in it, which is recorded as [null]. *)
Theorem login_then_checkAuth (w : World) (username password : string)
    (st st' : gmap string string) :
  Enhanced.login w username password st = (Resolved tt, st') ->
  exists authData role token,
    st' = setItem "auth" (JSON_stringify_object authData) st
    /\ lookup_member "role" (object_literal authData) = role
    /\ lookup_member "token" (object_literal authData) = token
    /\ Enhanced.getPermissions w st' = (Resolved (recorded role), st')
    /\ (Enhanced.checkAuth w st' = (Resolved tt, st')
        <-> truthy (recorded token) = true)
    /\ (forall v, role = Some v -> storable v = true -> recorded role = role)
    /\ (forall v, token = Some v -> storable v = true -> recorded token = token)
    /\ (role = None -> recorded role = None)
    /\ ((exists response data user,
           fetch w (Enhanced.login_request w username password) = FetchReturns response
           /\ ok response = true
           /\ response_json w response = inr data
           /\ prop w data "access_token" = inr token
           /\ prop w data "user" = inr user
           /\ prop w user "role" = inr role)
        \/ (exists staticUser,
              Enhanced.find_static username password = Some staticUser
              /\ role = Some (JStr (Enhanced.cred_role staticUser))
              /\ recorded role = role
              /\ token = Some (JStr ("static-jwt-token-" ++ string_of_Z (Date_now w)))
              /\ Enhanced.checkAuth w st' = (Resolved tt, st'))).
Proof.
  intros Hlogin.
  destruct (login_resolved _ _ _ _ _ Hlogin) as (authData & -> & Hpath).
  exists authData, (lookup_member "role" (object_literal authData)),
    (lookup_member "token" (object_literal authData)).
  assert (Hperm : Enhanced.getPermissions w
                    (setItem "auth" (JSON_stringify_object authData) st)
                  = (Resolved (recorded (lookup_member "role" (object_literal authData))),
                     setItem "auth" (JSON_stringify_object authData) st)).
  { rewrite getPermissions_eq, record_setItem, field_setItem. reflexivity. }
  assert (Hauth : Enhanced.checkAuth w
                    (setItem "auth" (JSON_stringify_object authData) st)
                  = (if truthy (recorded (lookup_member "token" (object_literal authData)))
                     then Resolved tt
                     else Rejected (Some (Error "Not authenticated")),
                     setItem "auth" (JSON_stringify_object authData) st)).
  { rewrite checkAuth_eq, unreadable_setItem, field_setItem. reflexivity. }
  split; [reflexivity|]. split; [reflexivity|]. split; [reflexivity|].
  split; [exact Hperm|]. split; [|split; [|split; [|split]]].
  - rewrite Hauth.
    destruct (truthy (recorded (lookup_member "token" (object_literal authData))));
      split; congruence.
  - intros v -> Hv. now apply recorded_storable.
  - intros v -> Hv. now apply recorded_storable.
  - intros ->. reflexivity.
  - destruct Hpath as [(response & data & H1 & H2 & H3 & H4)
                      | (apiError & staticUser & H1 & H2 & ->)].
    + left. destruct (api_authData_inv _ _ _ H4)
        as (user & un & fn & em & ro & tok & Hu & _ & _ & _ & Hro & Htok & ->).
      exists response, data, user.
      rewrite api_record_token, api_record_role. auto 10.
    + right. exists staticUser. split; [exact H2|].
      rewrite static_role. split; [reflexivity|]. split; [reflexivity|].
      split; [reflexivity|].
      rewrite Hauth. reflexivity.
Qed.

Lemma login_then_checkAuth_witness :
  exists role token,
    Enhanced.getPermissions (Fixtures.world Fixtures.accepted)
      (snd (Enhanced.login (Fixtures.world Fixtures.accepted) "alice" "secret" ∅))
    = (Resolved (recorded role),
       snd (Enhanced.login (Fixtures.world Fixtures.accepted) "alice" "secret" ∅))
    /\ (Enhanced.checkAuth (Fixtures.world Fixtures.accepted)
          (snd (Enhanced.login (Fixtures.world Fixtures.accepted) "alice" "secret" ∅))
        = (Resolved tt,
           snd (Enhanced.login (Fixtures.world Fixtures.accepted) "alice" "secret" ∅))
        <-> truthy (recorded token) = true).
Proof.
  destruct (login_then_checkAuth (Fixtures.world Fixtures.accepted)
              "alice" "secret" ∅
              (snd (Enhanced.login (Fixtures.world Fixtures.accepted)
                      "alice" "secret" ∅)) eq_refl)
    as (authData & role & token & _ & _ & _ & H1 & H2 & _).
  exists role, token. split; [exact H1 | exact H2].
Defined.

(** ** The error branches of the gateway *)

Lemma status_is_exclusive (error : exn) (a b : Z) :
  a <> b -> Gateway.status_is error a = true -> Gateway.status_is error b = false.
Proof.
  unfold Gateway.status_is. destruct (status error) as [s|]; [|discriminate].
  intros Hab Ha. apply Z.eqb_eq in Ha. subst s. now apply Z.eqb_neq.
Qed.

(** The first log line of [update], [delete] and [getOne]. *)
Lemma log_id_cases (w : World) (params : list (string * JSON)) :
  Gateway.log_id w params
  = if printable_value (lookup_member "id" params) then inr tt
    else inl (TypeError (convert_error_text w)).
Proof.
  unfold Gateway.log_id. rewrite ToString_cases.
  now destruct (printable_value (lookup_member "id" params)).
Qed.

Lemma dataProvider_unloggable (op : Gateway.operation) (w : World)
    (lib : Gateway.RestLibrary) (st : gmap string string) (resource : string)
    (params : list (string * JSON)) :
  Gateway.loggable op params = false ->
  Gateway.dataProvider op w lib st resource params
  = inl (TypeError (convert_error_text w)).
Proof.
  destruct op; cbn [Gateway.loggable Gateway.dataProvider]; try discriminate;
    intros H; unfold Gateway.getOne, Gateway.update, Gateway.delete;
    rewrite log_id_cases, H; reflexivity.
Qed.

(** An [id] that has no text: the log line of [update] throws before any
    call is made, and the caller gets neither the error of the call nor
    a message of the gateway. *)
Lemma update_unprintable_id :
  Gateway.baseDataProvider (Fixtures.world Fixtures.unreachable)
    (Fixtures.library (inl Fixtures.conflict)) ∅ Gateway.Update "users"
    [("id", JObj [("toString", JNull)])]
  = inl Fixtures.conflict
  /\ Gateway.update (Fixtures.world Fixtures.unreachable)
       (Fixtures.library (inl Fixtures.conflict)) ∅ "users"
       [("id", JObj [("toString", JNull)])]
     = inl (TypeError "Cannot convert object to primitive value").
Proof. split; reflexivity. Qed.

(** What [delete] throws once the status is 400. *)
Lemma delete_400_cases (w : World) (error : exn) :
  (found <- Gateway.includes_Cannot_delete w (Gateway.body_detail error) ;;
     if found : bool
     then reason <- ToString w (Gateway.body_detail error) ;; throw (Error reason)
     else throw (Error "Cannot delete this user.") : M value)
  = inl (match Gateway.includes_Cannot_delete w (Gateway.body_detail error) with
         | inl e => e
         | inr false => Error "Cannot delete this user."
         | inr true =>
             if printable_value (Gateway.body_detail error)
             then Error (string_of_value (Gateway.body_detail error))
             else TypeError (convert_error_text w)
         end).
Proof.
  destruct (Gateway.includes_Cannot_delete w (Gateway.body_detail error))
    as [e|[|]]; try reflexivity.
  cbn [bind]. rewrite ToString_cases.
  now destruct (printable_value (Gateway.body_detail error)).
Qed.

Lemma delete_400_searchable (w : World) (error : exn) :
  GatewayTable.detail_searchable error = true ->
  printable_value (Gateway.body_detail error) = true ->
  exists msg,
    (found <- Gateway.includes_Cannot_delete w (Gateway.body_detail error) ;;
     if found : bool
     then reason <- ToString w (Gateway.body_detail error) ;; throw (Error reason)
     else throw (Error "Cannot delete this user.") : M value) = inl (Error msg).
Proof.
  intros Hs Hp. rewrite delete_400_cases, Hp.
  unfold GatewayTable.detail_searchable, Gateway.includes_Cannot_delete in *.
  destruct (Gateway.body_detail error) as [[ | b | m e | s | l | ms]|];
    try discriminate; cbn [ret].
  - eauto.
  - destruct (Gateway.is_substring "Cannot delete" s); eauto.
  - destruct (existsb _ l); eauto.
  - eauto.
Qed.

Lemma delete_400_unsearchable (w : World) (error : exn) :
  GatewayTable.detail_searchable error = false ->
  (found <- Gateway.includes_Cannot_delete w (Gateway.body_detail error) ;;
     if found : bool
     then reason <- ToString w (Gateway.body_detail error) ;; throw (Error reason)
     else throw (Error "Cannot delete this user.") : M value)
  = inl (TypeError (type_error_text w "includes")).
Proof.
  unfold GatewayTable.detail_searchable, Gateway.includes_Cannot_delete.
  destruct (Gateway.body_detail error) as [[ | b | m e | s | l | ms]|];
    try discriminate; intros _; reflexivity.
Qed.

Lemma delete_users_400 (w : World) (lib : Gateway.RestLibrary)
    (st : gmap string string) (params : list (string * JSON)) (error : exn) :
  Gateway.baseDataProvider w lib st Gateway.Delete "users" params = inl error ->
  Gateway.loggable Gateway.Delete params = true ->
  Gateway.status_is error 400 = true ->
  Gateway.delete w lib st "users" params
  = (found <- Gateway.includes_Cannot_delete w (Gateway.body_detail error) ;;
     if found : bool
     then reason <- ToString w (Gateway.body_detail error) ;; throw (Error reason)
     else throw (Error "Cannot delete this user.") : M value).
Proof.
  intros Hbase Hlog H400. unfold Gateway.delete.
  cbn [Gateway.loggable] in Hlog. rewrite log_id_cases, Hlog. cbn [bind].
  rewrite Hbase, String.eqb_refl.
  rewrite (status_is_exclusive error 400 403), (status_is_exclusive error 400 401),
    H400 by (exact H400 || lia).
  reflexivity.
Qed.

(** C5 as stated fails here: a call on the resource [drivers] that ends
    in a 500, and an update of [users] that does, hand the caller the very
    error of the HTTP client. *)
Lemma create_drivers_raw_error :
  Gateway.create (Fixtures.world Fixtures.unreachable)
    (Fixtures.library (inl Fixtures.server_error)) ∅ "drivers" []
  = inl Fixtures.server_error
  /\ name Fixtures.server_error = KHttpError
  /\ Gateway.update (Fixtures.world Fixtures.unreachable)
       (Fixtures.library (inl Fixtures.server_error)) ∅ "users" []
     = inl Fixtures.server_error.
Proof. repeat split. Qed.

(** C5, amended. When the call of an operation fails, the gateway
    replaces the error by a new [Error] with a message of its own only
    for the resource [users] and only for the statuses the operation
    lists (create: 403, 401, 409, 422, 500; update: 403, 401, 409, 404;
    delete: 403, 401, 400; list and getOne: 401, 403). For any other
    resource, and for any other status or an error without a status, the
    caller receives the original error unchanged. In [delete] with
    status 400 the message is looked for in [body.detail]: when that is
    neither absent, [null], a string nor an array, a [TypeError] leaves
    the function instead, and so it does when the detail is an array
    that has the element looked for and no text. All this is of
    parameters whose [id] the first log line of [update], [delete] and
    [getOne] can print; with another [id] that line throws a [TypeError]
    and no call is made. *)
Theorem gateway_errors (op : Gateway.operation) (w : World)
    (lib : Gateway.RestLibrary) (st : gmap string string) (resource : string)
    (params : list (string * JSON)) (error : exn) :
  Gateway.baseDataProvider w lib st op resource params = inl error ->
  (Gateway.loggable op params = false ->
   Gateway.dataProvider op w lib st resource params
   = inl (TypeError (convert_error_text w)))
  /\ (Gateway.loggable op params = true ->
      (resource <> "users" \/ GatewayTable.mapped op error = false ->
       Gateway.dataProvider op w lib st resource params = inl error)
      /\ (resource = "users" -> GatewayTable.mapped op error = true ->
          (op = Gateway.Delete -> Gateway.status_is error 400 = true ->
           GatewayTable.detail_searchable error = true
           /\ printable_value (Gateway.body_detail error) = true) ->
          exists msg,
            Gateway.dataProvider op w lib st resource params = inl (Error msg))
      /\ (resource = "users" -> op = Gateway.Delete ->
          Gateway.status_is error 400 = true ->
          GatewayTable.detail_searchable error = false ->
          Gateway.dataProvider op w lib st resource params
          = inl (TypeError (type_error_text w "includes")))
      /\ (resource = "users" -> op = Gateway.Delete ->
          Gateway.status_is error 400 = true ->
          Gateway.dataProvider op w lib st resource params
          = inl (match Gateway.includes_Cannot_delete w (Gateway.body_detail error) with
                 | inl e => e
                 | inr false => Error "Cannot delete this user."
                 | inr true =>
                     if printable_value (Gateway.body_detail error)
                     then Error (string_of_value (Gateway.body_detail error))
                     else TypeError (convert_error_text w)
                 end))).
Proof.
  intros Hbase. split; [apply dataProvider_unloggable|].
  intros Hlog. split; [|split; [|split]].
  - intros Hraw.
    destruct op; cbn [Gateway.dataProvider Gateway.loggable] in Hlog |- *;
      unfold Gateway.create, Gateway.update, Gateway.delete, Gateway.getList,
             Gateway.getOne;
      rewrite ?log_id_cases, ?Hlog; cbn [bind];
      rewrite Hbase; cbn [bind];
      (destruct (String.eqb_spec resource "users") as [Hres | Hres];
         [|reflexivity]);
      (destruct Hraw as [Hne | Hmap]; [contradiction|]);
      unfold GatewayTable.mapped in Hmap; cbn in Hmap;
      repeat match type of Hmap with
             | (Gateway.status_is error ?n || _)%bool = false =>
                 let H := fresh "Hs" in
                 destruct (Gateway.status_is error n) eqn:H;
                 [discriminate Hmap|]; cbn in Hmap
             end;
      reflexivity.
  - intros -> Hmap Hsearch.
    destruct op; cbn [Gateway.dataProvider Gateway.loggable] in Hlog |- *;
      unfold Gateway.create, Gateway.update, Gateway.delete, Gateway.getList,
             Gateway.getOne;
      rewrite ?log_id_cases, ?Hlog; cbn [bind];
      rewrite Hbase; cbn [bind];
      rewrite String.eqb_refl;
      unfold GatewayTable.mapped in Hmap; cbn in Hmap;
      repeat match goal with
             | |- context [if Gateway.status_is error ?n then _ else _] =>
                 let H := fresh "Hs" in
                 destruct (Gateway.status_is error n) eqn:H;
                 [solve [eauto
                        | apply delete_400_searchable; apply Hsearch; auto]|];
                 cbn in Hmap
             end;
      discriminate Hmap.
  - intros -> -> H400 Hsearch. cbn [Gateway.dataProvider].
    rewrite (delete_users_400 _ _ _ _ _ Hbase Hlog H400).
    now apply delete_400_unsearchable.
  - intros -> -> H400. cbn [Gateway.dataProvider].
    rewrite (delete_users_400 _ _ _ _ _ Hbase Hlog H400).
    apply delete_400_cases.
Qed.

Lemma gateway_errors_witness :
  (exists msg,
     Gateway.dataProvider Gateway.Update (Fixtures.world Fixtures.unreachable)
       (Fixtures.library (inl Fixtures.conflict)) ∅ "users" []
     = inl (Error msg))
  /\ Gateway.dataProvider Gateway.GetOne (Fixtures.world Fixtures.unreachable)
       (Fixtures.library (inl Fixtures.conflict)) ∅ "races" []
     = inl Fixtures.conflict.
Proof.
  split.
  - apply (proj1 (proj2 (proj2 (gateway_errors Gateway.Update
                           (Fixtures.world Fixtures.unreachable)
                           (Fixtures.library (inl Fixtures.conflict)) ∅ "users" []
                           Fixtures.conflict eq_refl) eq_refl)));
      [reflexivity | reflexivity | discriminate].
  - apply (proj1 (proj2 (gateway_errors Gateway.GetOne
                    (Fixtures.world Fixtures.unreachable)
                    (Fixtures.library (inl Fixtures.conflict)) ∅ "races" []
                    Fixtures.conflict eq_refl) eq_refl)).
    left. discriminate.
Defined.

(** ** The life of the session record *)

Lemma api_record_fully_populated (username full_name email role access_token : value)
    (stamp : JSON) :
  fully_populated
    (JObj (object_literal [("username", username); ("fullName", full_name);
                           ("email", email); ("role", role);
                           ("token", access_token); ("loginTime", Some stamp)]))
  = is_defined username && is_defined full_name && is_defined role
    && is_defined access_token.
Proof. destruct username, full_name, email, role, access_token; reflexivity. Qed.

Lemma getIdentity_storage (w : World) (st : gmap string string) :
  snd (Enhanced.getIdentity w st) = st.
Proof.
  unfold Enhanced.getIdentity, getItem.
  destruct (st !! "auth") as [text|]; [|reflexivity].
  destruct (nonempty text); [|reflexivity].
  match goal with |- snd (match ?m with _ => _ end) = _ => destruct m end;
    reflexivity.
Qed.

(** C9 as stated fails here: a login that succeeds and stores a record
    with missing fields. The static provider never stores a display name
    or a timestamp, and the enhanced one stores what the response
    supplies. *)
Lemma login_stores_partial_record :
  well_formed ∅ = true
  /\ fst (Static.login "admin" "admin" ∅) = Resolved tt
  /\ well_formed (snd (Static.login "admin" "admin" ∅)) = false
  /\ fst (Enhanced.login (Fixtures.world Fixtures.accepted_name_only)
            "alice" "secret" ∅) = Resolved tt
  /\ well_formed (snd (Enhanced.login (Fixtures.world Fixtures.accepted_name_only)
                         "alice" "secret" ∅)) = false.
Proof. repeat split; vm_compute; reflexivity. Qed.

(** C9, amended. No call of the session manager changes a field of a
    stored record. [getPermissions] and [getIdentity] leave the storage
    as it is; [logout] removes the record under [auth] whole; so does
    [checkError] on 401 or 403, which on any other status leaves the
    storage as it is; so does [checkAuth] when the text under [auth]
    cannot be read, which otherwise leaves the storage as it is. A
    [login] that fails leaves the storage as it is, and one that succeeds
    replaces the record whole, in one write, by a record that is built
    without reading the one that was there. Every call other than [login]
    keeps the storage well formed (no record, or one with all five
    fields), and so does a [login] that fails or takes the fallback path.
    A [login] on the remote path stores the fields the response supplies:
    its record has all five exactly when the response gives
    [user.username], [user.full_name], [user.role] and [access_token].
    The [login] of the static provider stores a username, a token and a
    role, and nothing else. *)
Theorem session_lifecycle (w : World) (c : call) (st : gmap string string) :
  ((c = GetPermissions \/ c = GetIdentity -> storage_after w c st = st)
   /\ (c = Logout -> storage_after w c st = removeItem "auth" st)
   /\ (forall status,
         c = CheckError status ->
         storage_after w c st
         = if ((status =? 401) || (status =? 403))%Z
           then removeItem "auth" st else st)
   /\ (c = CheckAuth ->
       storage_after w c st = if unreadable st then removeItem "auth" st else st)
   /\ (forall username password,
         c = Login username password ->
         (exists reason, forall st0,
            Enhanced.login w username password st0 = (Rejected reason, st0))
         \/ (exists authData, forall st0,
               Enhanced.login w username password st0
               = (Resolved tt,
                  setItem "auth" (JSON_stringify_object authData) st0)
               /\ record (setItem "auth" (JSON_stringify_object authData) st0)
                  = Some (JObj (stored_members (object_literal authData))))))
  /\ ((forall username password, c <> Login username password) ->
      (storage_after w c st = st \/ storage_after w c st = removeItem "auth" st)
      /\ (forall k, field k (storage_after w c st) = field k st
                    \/ record (storage_after w c st) = None))
  /\ (c = Logout \/ c = CheckError 401 \/ c = CheckError 403 ->
      storage_after w c st = removeItem "auth" st)
  /\ ((forall username password, c <> Login username password) ->
      well_formed st = true -> well_formed (storage_after w c st) = true)
  /\ (forall username password,
        c = Login username password ->
        (forall apiError,
           Enhanced.login_api w username password st = inl apiError ->
           well_formed st = true -> well_formed (storage_after w c st) = true)
        /\ (forall st',
              Enhanced.login_api w username password st = inr st' ->
              exists response data user un fn ro tok,
                fetch w (Enhanced.login_request w username password)
                = FetchReturns response
                /\ response_json w response = inr data
                /\ prop w data "user" = inr user
                /\ prop w user "username" = inr un
                /\ prop w user "full_name" = inr fn
                /\ prop w user "role" = inr ro
                /\ prop w data "access_token" = inr tok
                /\ well_formed (storage_after w c st)
                   = is_defined un && is_defined fn && is_defined ro
                     && is_defined tok))
  /\ (forall username password st',
        Static.login username password st = (Resolved tt, st') ->
        record st' = Some (JObj [("username", JStr username);
                                 ("token", JStr "fake-jwt-token");
                                 ("role", JStr "admin")])).
Proof.
  assert (Hexact : forall c',
             (forall username password, c' <> Login username password) ->
             storage_after w c' st = st
             \/ storage_after w c' st = removeItem "auth" st).
  { intros c' Hc.
    destruct c' as [username password | | status | | | ]; simpl.
    - exfalso. exact (Hc username password eq_refl).
    - auto.
    - unfold Enhanced.checkError.
      destruct ((status =? 401) || (status =? 403))%Z; simpl; auto.
    - rewrite checkAuth_eq. simpl. destruct (unreadable st); auto.
    - rewrite getPermissions_eq. auto.
    - rewrite getIdentity_storage. auto. }
  split; [|split; [|split; [|split; [|split]]]].
  - split; [|split; [|split; [|split]]].
    + intros [-> | ->]; simpl;
        [rewrite getPermissions_eq | rewrite getIdentity_storage]; reflexivity.
    + intros ->. reflexivity.
    + intros status ->. simpl. unfold Enhanced.checkError.
      now destruct ((status =? 401) || (status =? 403))%Z.
    + intros ->. simpl. rewrite checkAuth_eq. simpl. now destruct (unreadable st).
    + intros username password _.
      destruct (login_shape w username password) as [[reason H] | [authData H]].
      * left. exists reason. exact H.
      * right. exists authData. intros st0. split; [apply H | apply record_setItem].
  - intros Hc. split; [exact (Hexact c Hc)|].
    intros k. destruct (Hexact c Hc) as [-> | ->]; [now left | right].
    unfold record, removeItem. now rewrite lookup_delete_eq.
  - intros [-> | [-> | ->]]; reflexivity.
  - intros Hc Hwf.
    destruct (Hexact c Hc) as [-> | ->];
      [exact Hwf | apply well_formed_removeItem].
  - intros username password ->. simpl. split.
    + intros apiError Hapi Hwf. unfold Enhanced.login. rewrite Hapi.
      destruct (Enhanced.find_static username password) as [staticUser|]; simpl.
      * rewrite well_formed_setItem. apply static_fully_populated.
      * exact Hwf.
    + intros st' Hapi. rewrite (login_api_path _ _ _ _ _ Hapi). simpl.
      destruct (login_api_returns _ _ _ _ _ Hapi)
        as (response & data & authData & Hfetch & _ & Hjson & Hauth & ->).
      destruct (api_authData_inv _ _ _ Hauth)
        as (user & un & fn & em & ro & tok & Hu & Hun & Hfn & _ & Hro & Htok & ->).
      exists response, data, user, un, fn, ro, tok.
      rewrite well_formed_setItem, api_record_fully_populated. auto 10.
  - intros username password st'. unfold Static.login.
    destruct (Static.isValid username password); [|discriminate].
    intros [= <-]. apply record_setItem.
Qed.

Lemma session_lifecycle_witness :
  storage_after (Fixtures.world Fixtures.unreachable) (CheckError 403)
    Fixtures.storage_without_token
  = removeItem "auth" Fixtures.storage_without_token
  /\ well_formed (storage_after (Fixtures.world Fixtures.unreachable)
                    (Login "test" "test") ∅) = true.
Proof.
  split.
  - apply (proj1 (proj2 (proj2 (session_lifecycle
                                  (Fixtures.world Fixtures.unreachable)
                                  (CheckError 403) Fixtures.storage_without_token)))).
    right. right. reflexivity.
  - apply (proj1 (proj1 (proj2 (proj2 (proj2 (proj2
             (session_lifecycle (Fixtures.world Fixtures.unreachable)
                (Login "test" "test") ∅))))) "test" "test" eq_refl)
             (TypeError "Failed to fetch"));
      reflexivity.
Defined.

(** * Further properties of the same code *)

(** ** After the session is removed *)

Lemma record_removeItem (st : gmap string string) :
  record (removeItem "auth" st) = None.
Proof. unfold record, removeItem. now rewrite lookup_delete_eq. Qed.

Lemma field_removeItem (k : string) (st : gmap string string) :
  field k (removeItem "auth" st) = undefined.
Proof. unfold field. now rewrite record_removeItem. Qed.

Lemma unreadable_removeItem (st : gmap string string) :
  unreadable (removeItem "auth" st) = false.
Proof. unfold unreadable, removeItem. now rewrite lookup_delete_eq. Qed.

(** [getIdentity] in terms of the stored record. *)
Lemma getIdentity_eq (w : World) (st : gmap string string) :
  Enhanced.getIdentity w st =
  (match record st with
   | None => Rejected (Some (Error "No user identity available"))
   | Some JNull => Rejected (Some (Error "No user identity available"))
   | Some _ =>
       Resolved {| Enhanced.id := field "username" st;
                   Enhanced.fullName :=
                     or_else (field "fullName" st) (field "username" st) |}
   end, st).
Proof.
  unfold Enhanced.getIdentity, field, record, getItem, parse, prop, get.
  destruct (st !! "auth") as [text|]; simpl; [|reflexivity].
  destruct (nonempty text); simpl; [|reflexivity].
  destruct (JSON_parse text) as [[ | b | m e | s | l | ms]|]; reflexivity.
Qed.

Lemma nothing_stored_rejects (w : World) (st : gmap string string) :
  record st = None ->
  unreadable st = false ->
  Enhanced.checkAuth w st = (Rejected (Some (Error "Not authenticated")), st)
  /\ Enhanced.getPermissions w st
     = (Rejected (Some (Error "No permissions available")), st)
  /\ Enhanced.getIdentity w st
     = (Rejected (Some (Error "No user identity available")), st)
  /\ forall url options,
       Gateway.httpClient w st url options
       = (url, Gateway.with_headers options (Gateway.default_headers options)).
Proof.
  intros Hrec Hun.
  assert (Hfield : forall k, field k st = undefined).
  { intros k. unfold field. now rewrite Hrec. }
  rewrite checkAuth_eq, getPermissions_eq, getIdentity_eq, Hrec, Hun, Hfield.
  repeat split. intros url options. now rewrite httpClient_eq, Hfield.
Qed.

(** X1. [logout] always resolves, and whatever was stored before it, the
    calls that follow find no session: [checkAuth], [getPermissions] and
    [getIdentity] reject, the gateway adds no [authorization] header, and
    the [checkAuth] of the static provider rejects after its [logout]. *)
Theorem logout_then_no_session (w : World) (st : gmap string string) :
  fst (Enhanced.logout st) = Resolved tt
  /\ Enhanced.checkAuth w (snd (Enhanced.logout st))
     = (Rejected (Some (Error "Not authenticated")), snd (Enhanced.logout st))
  /\ Enhanced.getPermissions w (snd (Enhanced.logout st))
     = (Rejected (Some (Error "No permissions available")), snd (Enhanced.logout st))
  /\ Enhanced.getIdentity w (snd (Enhanced.logout st))
     = (Rejected (Some (Error "No user identity available")),
        snd (Enhanced.logout st))
  /\ (forall url options,
        Gateway.httpClient w (snd (Enhanced.logout st)) url options
        = (url, Gateway.with_headers options (Gateway.default_headers options)))
  /\ Static.checkAuth (snd (Static.logout st))
     = (Rejected None, snd (Static.logout st)).
Proof.
  split; [reflexivity|]. simpl.
  destruct (nothing_stored_rejects w (removeItem "auth" st)
              (record_removeItem st) (unreadable_removeItem st))
    as (H1 & H2 & H3 & H4).
  repeat split; auto.
  unfold Static.checkAuth, getItem, removeItem. now rewrite lookup_delete_eq.
Qed.

(** X2. Once [checkError] has met a 401 or a 403, the [checkAuth] that
    follows rejects and the gateway sends no [authorization] header, with
    either provider and whatever session there was. *)
Theorem checkError_then_no_session (w : World) (status : Z)
    (st : gmap string string) :
  (status = 401 \/ status = 403)%Z ->
  Enhanced.checkAuth w (snd (Enhanced.checkError status st))
  = (Rejected (Some (Error "Not authenticated")),
     snd (Enhanced.checkError status st))
  /\ (forall url options,
        Gateway.httpClient w (snd (Enhanced.checkError status st)) url options
        = (url, Gateway.with_headers options (Gateway.default_headers options)))
  /\ Static.checkAuth (snd (Static.checkError status st))
     = (Rejected None, snd (Static.checkError status st)).
Proof.
  intros Hstatus.
  assert (Hb : ((status =? 401) || (status =? 403))%Z = true).
  { rewrite orb_true_iff, !Z.eqb_eq. exact Hstatus. }
  unfold Enhanced.checkError, Static.checkError. rewrite Hb. simpl.
  destruct (nothing_stored_rejects w (removeItem "auth" st)
              (record_removeItem st) (unreadable_removeItem st))
    as (H1 & _ & _ & H4).
  repeat split; auto.
  unfold Static.checkAuth, getItem, removeItem. now rewrite lookup_delete_eq.
Qed.

Lemma checkError_then_no_session_witness :
  (403 = 401 \/ 403 = 403)%Z
  /\ Enhanced.checkAuth (Fixtures.world Fixtures.accepted)
       (snd (Enhanced.checkError 403
               (snd (Enhanced.login (Fixtures.world Fixtures.accepted)
                       "alice" "secret" ∅))))
     = (Rejected (Some (Error "Not authenticated")),
        snd (Enhanced.checkError 403
               (snd (Enhanced.login (Fixtures.world Fixtures.accepted)
                       "alice" "secret" ∅)))).
Proof.
  assert (H : (403 = 401 \/ 403 = 403)%Z) by (right; reflexivity).
  split; [exact H|].
  exact (proj1 (checkError_then_no_session (Fixtures.world Fixtures.accepted) 403
                  (snd (Enhanced.login (Fixtures.world Fixtures.accepted)
                          "alice" "secret" ∅)) H)).
Defined.

(** ** What a call leaves alone *)

(** The storage a call of the enhanced provider leaves. *)
Lemma storage_step (w : World) (c : call) (st : gmap string string) :
  storage_after w c st = st
  \/ storage_after w c st = removeItem "auth" st
  \/ exists authData,
       storage_after w c st = setItem "auth" (JSON_stringify_object authData) st.
Proof.
  destruct c as [username password | | status | | | ]; simpl.
  - unfold Enhanced.login.
    destruct (Enhanced.login_api w username password st) as [apiError | st'] eqn:Hapi.
    + destruct (Enhanced.find_static username password); simpl; eauto.
    + destruct (login_api_returns _ _ _ _ _ Hapi)
        as (response & data & authData & _ & _ & _ & _ & ->).
      simpl. eauto.
  - auto.
  - unfold Enhanced.checkError.
    destruct ((status =? 401) || (status =? 403))%Z; simpl; auto.
  - rewrite checkAuth_eq. simpl. destruct (unreadable st); auto.
  - rewrite getPermissions_eq. auto.
  - rewrite getIdentity_storage. auto.
Qed.

(** X3. No call writes a key other than [auth]: after any call of the
    enhanced provider, and after [login], [logout], [checkError],
    [checkAuth] and [getPermissions] of the static one, every other key
    of the storage holds what it held before. *)
Theorem other_keys_untouched (w : World) (c : call) (st : gmap string string)
    (k : string) :
  k <> "auth" ->
  storage_after w c st !! k = st !! k
  /\ (forall username password,
        snd (Static.login username password st) !! k = st !! k)
  /\ snd (Static.logout st) !! k = st !! k
  /\ (forall status, snd (Static.checkError status st) !! k = st !! k)
  /\ snd (Static.checkAuth st) !! k = st !! k
  /\ snd (Static.getPermissions w st) !! k = st !! k.
Proof.
  intros Hk. repeat split.
  - destruct (storage_step w c st) as [-> | [-> | [authData ->]]].
    + reflexivity.
    + unfold removeItem. now rewrite lookup_delete_ne.
    + unfold setItem. now rewrite lookup_insert_ne.
  - intros username password. unfold Static.login.
    destruct (Static.isValid username password); simpl; [|reflexivity].
    unfold setItem. now rewrite lookup_insert_ne.
  - simpl. unfold removeItem. now rewrite lookup_delete_ne.
  - intros status. unfold Static.checkError.
    destruct ((status =? 401) || (status =? 403))%Z; simpl; [|reflexivity].
    unfold removeItem. now rewrite lookup_delete_ne.
  - unfold Static.checkAuth. destruct (getItem "auth" st) as [auth|]; [|reflexivity].
    destruct (nonempty auth); reflexivity.
  - unfold Static.getPermissions.
    destruct (getItem "auth" st) as [auth|]; [|reflexivity].
    destruct (nonempty auth); reflexivity.
Qed.

Lemma other_keys_untouched_witness :
  "theme" <> "auth"
  /\ storage_after (Fixtures.world Fixtures.accepted) (Login "alice" "secret")
       {[ "theme" := "dark" ]} !! "theme" = Some "dark".
Proof.
  assert (H : "theme" <> "auth") by discriminate.
  split; [exact H|].
  exact (proj1 (other_keys_untouched (Fixtures.world Fixtures.accepted)
                  (Login "alice" "secret") {[ "theme" := "dark" ]} "theme" H)).
Defined.

(** ** When [login] resolves, and what it says when it does not *)

Lemma prop_of_object (w : World) (v : JSON) (k : string) :
  v <> JNull -> exists x, prop w (Some v) k = inr x.
Proof. destruct v; intros H; try (eexists; reflexivity). congruence. Qed.

Lemma prop_inr_not_null (w : World) (v x : value) (k : string) :
  prop w v k = inr x -> exists j, v = Some j /\ j <> JNull.
Proof.
  destruct v as [[ | b | m e | s | l | ms]|]; try discriminate;
    intros _; eexists; split; try reflexivity; discriminate.
Qed.

Lemma parse_inr (w : World) (text : string) (data : value) :
  parse w text = inr data -> exists j, data = Some j /\ JSON_parse text = Some j.
Proof.
  unfold parse. destruct (JSON_parse text) as [j|]; [|discriminate].
  intros [= <-]. eauto.
Qed.

(** The record of the API path exists as soon as the response has a
    [user] that is neither missing nor [null]. *)
Lemma api_authData_of_user (w : World) (data user : JSON) :
  prop w (Some data) "user" = inr (Some user) ->
  user <> JNull ->
  exists authData, Enhanced.api_authData w (Some data) = inr authData.
Proof.
  intros Huser Hnn. unfold Enhanced.api_authData. rewrite Huser. cbn [bind].
  destruct (prop_of_object w user "username" Hnn) as [un ->]. cbn [bind].
  destruct (prop_of_object w user "full_name" Hnn) as [fn ->]. cbn [bind].
  destruct (prop_of_object w user "email" Hnn) as [em ->]. cbn [bind].
  destruct (prop_of_object w user "role" Hnn) as [ro ->]. cbn [bind].
  destruct (prop_inr_not_null _ _ _ _ Huser) as (j & [= <-] & Hdata).
  destruct (prop_of_object w data "access_token" Hdata) as [tok ->]. cbn [bind].
  eauto.
Qed.

(** When the [try] block of [login] returns. *)
Lemma login_api_returns_iff (w : World) (username password : string)
    (st : gmap string string) :
  (exists st', Enhanced.login_api w username password st = inr st')
  <-> exists response data user,
        fetch w (Enhanced.login_request w username password) = FetchReturns response
        /\ ok response = true
        /\ JSON_parse (text response) = Some data
        /\ prop w (Some data) "user" = inr (Some user)
        /\ user <> JNull.
Proof.
  split.
  - intros [st' Hapi].
    destruct (login_api_returns _ _ _ _ _ Hapi)
      as (response & data & authData & Hfetch & Hok & Hjson & Hauth & _).
    destruct (parse_inr _ _ _ Hjson) as (d & -> & Hparse).
    destruct (api_authData_inv _ _ _ Hauth)
      as (user & un & fn & em & ro & tok & Hu & Hun & _).
    destruct (prop_inr_not_null _ _ _ _ Hun) as (u & -> & Hnn).
    exists response, d, u. auto.
  - intros (response & data & user & Hfetch & Hok & Hparse & Huser & Hnn).
    destruct (api_authData_of_user w data user Huser Hnn) as [authData Hauth].
    unfold Enhanced.login_api, response_json, parse.
    rewrite Hfetch, Hok, Hparse. simpl. rewrite Hauth. simpl. eauto.
Qed.

(** X4. [login] resolves exactly when the pair is in the fallback
    allow-list or the endpoint answers ok with a JSON body whose [user] is
    neither missing nor [null]. In every other case (no connection, a
    status that is not ok, a body that is no JSON, no user) it rejects with
    an [Error] and leaves the storage as it was. *)
Theorem login_resolves_iff (w : World) (username password : string)
    (st : gmap string string) :
  (fst (Enhanced.login w username password st) = Resolved tt
   <-> (In (username, password) allow_list
        \/ exists response data user,
             fetch w (Enhanced.login_request w username password)
             = FetchReturns response
             /\ ok response = true
             /\ JSON_parse (text response) = Some data
             /\ prop w (Some data) "user" = inr (Some user)
             /\ user <> JNull))
  /\ (fst (Enhanced.login w username password st) = Resolved tt
      \/ exists msg,
           Enhanced.login w username password st
           = (Rejected (Some (Error msg)), st)).
Proof.
  rewrite <- find_static_allow_list, <- (login_api_returns_iff w username password st).
  unfold Enhanced.login.
  destruct (Enhanced.login_api w username password st) as [apiError | st'] eqn:Hapi.
  - destruct (Enhanced.find_static username password) as [staticUser|]; simpl.
    + split; [|auto]. split; [eauto | reflexivity].
    + split; [|eauto]. split; [discriminate|].
      intros [[x Hx] | [st' Hst']]; discriminate.
  - simpl. split; [|auto]. split; [eauto | reflexivity].
Qed.

Lemma login_resolves_iff_witness :
  fst (Enhanced.login (Fixtures.world Fixtures.accepted_name_only)
         "alice" "secret" ∅) = Resolved tt.
Proof.
  apply (proj1 (login_resolves_iff (Fixtures.world Fixtures.accepted_name_only)
                  "alice" "secret" ∅)).
  right. eexists _, (JObj _), (JObj _).
  repeat split; try reflexivity. discriminate.
Defined.

(** X5. The message of a rejected [login] is the one the failure of the
    API path carried: the message of what [fetch] threw; for a response
    that is not ok, the text of its [detail] (a string as it is),
    "Login failed" when the [detail] is not truthy, and the engine's
    message when the [detail] has no text; the engine's message when the
    body is no JSON. "Invalid username or password" is used only when
    that message is empty. *)
Theorem login_rejection_message (w : World) (username password : string)
    (st : gmap string string) :
  ~ In (username, password) allow_list ->
  let rejected_with (m : string) :=
    Enhanced.login w username password st
    = (Rejected (Some (Error (if nonempty m then m
                              else "Invalid username or password"))), st) in
  (forall e,
     fetch w (Enhanced.login_request w username password) = FetchThrows e ->
     rejected_with (message e))
  /\ (forall response errorData detail,
        fetch w (Enhanced.login_request w username password) = FetchReturns response ->
        ok response = false ->
        JSON_parse (text response) = Some errorData ->
        prop w (Some errorData) "detail" = inr detail ->
        rejected_with (if truthy detail
                       then if printable_value detail then string_of_value detail
                            else convert_error_text w
                       else "Login failed")
        /\ (forall reason,
              truthy detail = true -> ToString w detail = inr reason ->
              rejected_with reason)
        /\ (forall reason,
              detail = Some (JStr reason) -> reason <> "" ->
              Enhanced.login w username password st
              = (Rejected (Some (Error reason)), st)))
  /\ (forall response,
        fetch w (Enhanced.login_request w username password) = FetchReturns response ->
        JSON_parse (text response) = None ->
        rejected_with (syntax_error_text w (text response))).
Proof.
  intros Hlist rejected_with.
  assert (Hfind : Enhanced.find_static username password = None).
  { destruct (Enhanced.find_static username password) eqn:E; [|reflexivity].
    exfalso. apply Hlist, find_static_allow_list. rewrite E. eauto. }
  assert (Hrej : forall apiError,
             Enhanced.login_api w username password st = inl apiError ->
             rejected_with (message apiError)).
  { intros apiError Hapi. unfold rejected_with.
    now rewrite (login_failure_path _ _ _ _ _ Hapi Hfind). }
  split; [|split].
  - intros e Hfetch. apply Hrej. unfold Enhanced.login_api. now rewrite Hfetch.
  - intros response errorData detail Hfetch Hok Hparse Hdetail.
    assert (Hmsg : rejected_with (if truthy detail
                                  then if printable_value detail
                                       then string_of_value detail
                                       else convert_error_text w
                                  else "Login failed")).
    { assert (Hapi : exists apiError,
                 Enhanced.login_api w username password st = inl apiError
                 /\ message apiError
                    = if truthy detail
                      then if printable_value detail then string_of_value detail
                           else convert_error_text w
                      else "Login failed").
      { unfold Enhanced.login_api, response_json, parse.
        rewrite Hfetch, Hok, Hparse. cbn [bind ret]. rewrite Hdetail. cbn [bind ret].
        unfold or_else. destruct (truthy detail).
        - rewrite ToString_cases. destruct (printable_value detail);
            cbn [bind throw]; eauto.
        - rewrite ToString_string. cbn [bind throw]. eauto. }
      destruct Hapi as (apiError & Hapi & <-). exact (Hrej _ Hapi). }
    split; [exact Hmsg|]. split.
    + intros reason Htruthy Hreason. rewrite Htruthy in Hmsg.
      rewrite ToString_cases in Hreason.
      destruct (printable_value detail); [|discriminate].
      injection Hreason as <-. exact Hmsg.
    + intros reason -> Hne. unfold rejected_with in Hmsg.
      cbn [truthy printable_value printable string_of_value string_of_JSON] in Hmsg.
      apply String.eqb_neq in Hne.
      assert (Hn : nonempty reason = true).
      { unfold nonempty. now rewrite Hne. }
      rewrite Hne in Hmsg. cbn [negb] in Hmsg. now rewrite Hn in Hmsg.
  - intros response Hfetch Hparse.
    assert (Hapi : Enhanced.login_api w username password st
                   = inl (SyntaxError (syntax_error_text w (text response)))).
    { unfold Enhanced.login_api, response_json, parse.
      rewrite Hfetch, Hparse. destruct (ok response); reflexivity. }
    exact (Hrej _ Hapi).
Qed.

Lemma login_rejection_message_witness :
  ~ In ("mallory", "letmein") allow_list
  /\ Enhanced.login (Fixtures.world Fixtures.turned_down) "mallory" "letmein" ∅
     = (Rejected (Some (Error "Incorrect username or password")), ∅).
Proof.
  assert (H : ~ In ("mallory", "letmein") allow_list).
  { simpl. intros [H | [H | [H | []]]]; discriminate H. }
  split; [exact H|].
  refine (proj2 (proj2 (proj1 (proj2 (login_rejection_message
                                 (Fixtures.world Fixtures.turned_down)
                                 "mallory" "letmein" ∅ H))
           {| ok := false;
              text := Fixtures.text_of "{'detail':'Incorrect username or password'}" |}
           (JObj [("detail", JStr "Incorrect username or password")])
           (Some (JStr "Incorrect username or password"))
           eq_refl eq_refl eq_refl eq_refl))
           "Incorrect username or password" eq_refl _).
  discriminate.
Defined.

(** X6. When the endpoint accepts the attempt, the stored session is
    built from its response and the fallback list is not consulted, also
    for a pair of that list: the stored role and token are those of the
    response as [JSON.stringify] keeps them, which is as they are unless
    a number too large for a double occurs in them. *)
Theorem login_prefers_api_record (w : World) (username password : string)
    (st : gmap string string) (response : Response) (data user : JSON)
    (role access_token : value) :
  fetch w (Enhanced.login_request w username password) = FetchReturns response ->
  ok response = true ->
  JSON_parse (text response) = Some data ->
  prop w (Some data) "user" = inr (Some user) ->
  prop w (Some user) "role" = inr role ->
  prop w (Some data) "access_token" = inr access_token ->
  exists st',
    Enhanced.login w username password st = (Resolved tt, st')
    /\ field "role" st' = recorded role
    /\ field "token" st' = recorded access_token
    /\ (forall v, role = Some v -> storable v = true -> field "role" st' = role)
    /\ (forall v, access_token = Some v -> storable v = true ->
                  field "token" st' = access_token)
    /\ (role = None -> field "role" st' = None)
    /\ (access_token = None -> field "token" st' = None).
Proof.
  intros Hfetch Hok Hparse Huser Hrole Htoken.
  destruct (prop_inr_not_null _ _ _ _ Hrole) as (u & [= <-] & Hnn).
  destruct (api_authData_of_user w data user Huser Hnn) as [authData Hauth].
  destruct (api_authData_inv _ _ _ Hauth)
    as (user' & un & fn & em & ro & tok & Hu & _ & _ & _ & Hro & Htok & ->).
  rewrite Huser in Hu. injection Hu as <-.
  rewrite Hrole in Hro. injection Hro as <-.
  rewrite Htoken in Htok. injection Htok as <-.
  eexists. split.
  - apply login_api_path. unfold Enhanced.login_api, response_json, parse.
    rewrite Hfetch, Hok, Hparse. cbn [bind ret]. rewrite Hauth. reflexivity.
  - rewrite !field_setItem, api_record_role, api_record_token.
    repeat split.
    + intros v -> Hv. now apply recorded_storable.
    + intros v -> Hv. now apply recorded_storable.
    + intros ->. reflexivity.
    + intros ->. reflexivity.
Qed.

Lemma login_prefers_api_record_witness :
  exists st',
    Enhanced.login (Fixtures.world Fixtures.accepted) "admin" "admin" ∅
    = (Resolved tt, st')
    /\ field "role" st' = Some (JStr "user")
    /\ field "token" st' = Some (JStr "eyJhbGciOi").
Proof.
  destruct (login_prefers_api_record (Fixtures.world Fixtures.accepted) "admin" "admin" ∅
           {| ok := true;
              text := Fixtures.text_of
                        ("{'user':{'username':'alice','full_name':'Alice',"
                         ++ "'email':'alice@example.com','role':'user'},"
                         ++ "'access_token':'eyJhbGciOi'}") |}
           (JObj [("user", JObj [("username", JStr "alice");
                                 ("full_name", JStr "Alice");
                                 ("email", JStr "alice@example.com");
                                 ("role", JStr "user")]);
                  ("access_token", JStr "eyJhbGciOi")])
           (JObj [("username", JStr "alice"); ("full_name", JStr "Alice");
                  ("email", JStr "alice@example.com"); ("role", JStr "user")])
           (Some (JStr "user")) (Some (JStr "eyJhbGciOi"))
           eq_refl eq_refl eq_refl eq_refl eq_refl eq_refl)
    as (st' & H1 & H2 & H3 & _).
  exists st'. split; [exact H1|]. split; [exact H2 | exact H3].
Defined.

(** ** A login replaces the session *)

(** X7. What a [login] stores does not depend on the session that was
    there: it succeeds or fails alike from any storage, and the record it
    leaves is the same whatever it replaces. A later [login] that
    succeeds, at whatever time, for whatever pair and with whatever
    answer of the endpoint, leaves what it would have left without the
    first; one that fails leaves what the first left. A [logout] after a
    [login] leaves what a [logout] alone would. *)
Theorem login_replaces_session (w w' : World) (username password : string)
    (username' password' : string) (st1 st2 : gmap string string) :
  fst (Enhanced.login w username password st1)
  = fst (Enhanced.login w username password st2)
  /\ (fst (Enhanced.login w username password st1) = Resolved tt ->
      record (snd (Enhanced.login w username password st1))
      = record (snd (Enhanced.login w username password st2))
      /\ (fst (Enhanced.login w' username' password' st1) = Resolved tt ->
          Enhanced.login w' username' password'
            (snd (Enhanced.login w username password st1))
          = Enhanced.login w' username' password' st1)
      /\ (fst (Enhanced.login w' username' password' st1) <> Resolved tt ->
          snd (Enhanced.login w' username' password'
                 (snd (Enhanced.login w username password st1)))
          = snd (Enhanced.login w username password st1))
      /\ snd (Enhanced.logout (snd (Enhanced.login w username password st1)))
         = snd (Enhanced.logout st1)).
Proof.
  destruct (login_shape w username password) as [[reason H] | [authData H]];
    rewrite !H; simpl.
  - split; [reflexivity | discriminate].
  - split; [reflexivity|]. intros _. rewrite !record_setItem.
    split; [reflexivity|].
    destruct (login_shape w' username' password') as [[reason' H'] | [authData' H']];
      rewrite !H'; simpl.
    + split; [discriminate|]. split; [reflexivity|].
      unfold setItem, removeItem. now rewrite delete_insert_eq.
    + split; [|split].
      * intros _. unfold setItem. now rewrite insert_insert_eq.
      * intros Hne. now destruct Hne.
      * unfold setItem, removeItem. now rewrite delete_insert_eq.
Qed.

Lemma login_replaces_session_witness :
  Enhanced.login (Fixtures.world Fixtures.unreachable) "admin" "admin"
    (snd (Enhanced.login (Fixtures.world Fixtures.accepted) "alice" "secret" ∅))
  = Enhanced.login (Fixtures.world Fixtures.unreachable) "admin" "admin" ∅.
Proof.
  exact (proj1 (proj2 (proj2 (login_replaces_session
                                (Fixtures.world Fixtures.accepted)
                                (Fixtures.world Fixtures.unreachable)
                                "alice" "secret" "admin" "admin" ∅ ∅)
                         eq_refl))
           eq_refl).
Defined.

(** ** The readers *)

(** X8. [getPermissions] never changes the storage, not even when the
    stored text is unreadable. It resolves exactly when a record is stored
    that is not [null], and then with the [role] of that record
    ([undefined] when it has none); it asks for no token, so it resolves on
    records on which [checkAuth] rejects. *)
Theorem getPermissions_reads_role (w : World) (st : gmap string string) :
  snd (Enhanced.getPermissions w st) = st
  /\ ((exists role, fst (Enhanced.getPermissions w st) = Resolved role)
      <-> exists v, record st = Some v /\ v <> JNull)
  /\ (forall role, fst (Enhanced.getPermissions w st) = Resolved role ->
      role = field "role" st)
  /\ (forall ms, record st = Some (JObj ms) ->
      truthy (lookup_member "token" ms) = false ->
      fst (Enhanced.checkAuth w st) = Rejected (Some (Error "Not authenticated"))
      /\ fst (Enhanced.getPermissions w st) = Resolved (lookup_member "role" ms)).
Proof.
  rewrite getPermissions_eq, checkAuth_eq. simpl. unfold field.
  destruct (record st) as [[ | b | m e | s | l | ms]|]; simpl;
    (split; [reflexivity|]);
    (split; [split; [intros [role Hrole]; try discriminate Hrole; eauto
                    | intros (v & Hv & Hnn); try discriminate Hv;
                      try (injection Hv as <-; congruence); eauto]|]);
    (split; [intros role Hrole; try discriminate Hrole; congruence|]);
    intros ms' Hms; try discriminate Hms.
  injection Hms as <-. intros ->. auto.
Qed.

Lemma getPermissions_reads_role_witness :
  fst (Enhanced.checkAuth (Fixtures.world Fixtures.unreachable)
         Fixtures.storage_without_token)
  = Rejected (Some (Error "Not authenticated"))
  /\ fst (Enhanced.getPermissions (Fixtures.world Fixtures.unreachable)
            Fixtures.storage_without_token)
     = Resolved (Some (JStr "admin")).
Proof.
  exact (proj2 (proj2 (proj2 (getPermissions_reads_role
                                (Fixtures.world Fixtures.unreachable)
                                Fixtures.storage_without_token)))
           [("username", JStr "admin"); ("role", JStr "admin")] eq_refl eq_refl).
Defined.

Lemma find_static_facts (username password : string)
    (staticUser : Enhanced.credential) :
  Enhanced.find_static username password = Some staticUser ->
  Enhanced.cred_username staticUser = username
  /\ nonempty (Enhanced.cred_fullName staticUser) = true.
Proof.
  intros H. apply find_some in H as [Hin Hmatch].
  apply andb_true_iff in Hmatch as [Hu _]. apply String.eqb_eq in Hu.
  split; [exact Hu|].
  simpl in Hin. destruct Hin as [<- | [<- | [<- | []]]]; reflexivity.
Qed.

(** X9. After a [login] that succeeds, [getIdentity] resolves with the
    stored username as [id] and with the stored full name, or the
    username when that is missing or empty, as [fullName]. On the fallback
    path these are the username that was typed and the full name of the
    matched pair. *)
Theorem getIdentity_after_login (w : World) (username password : string)
    (st st' : gmap string string) :
  Enhanced.login w username password st = (Resolved tt, st') ->
  exists authData,
    st' = setItem "auth" (JSON_stringify_object authData) st
    /\ Enhanced.getIdentity w st'
       = (Resolved
            {| Enhanced.id := lookup_member "username" (object_literal authData);
               Enhanced.fullName :=
                 or_else (lookup_member "fullName" (object_literal authData))
                         (lookup_member "username" (object_literal authData)) |},
          st')
    /\ (forall apiError staticUser,
          Enhanced.login_api w username password st = inl apiError ->
          Enhanced.find_static username password = Some staticUser ->
          Enhanced.getIdentity w st'
          = (Resolved
               {| Enhanced.id := Some (JStr username);
                  Enhanced.fullName :=
                    Some (JStr (Enhanced.cred_fullName staticUser)) |}, st')).
Proof.
  intros Hlogin.
  destruct (login_resolved _ _ _ _ _ Hlogin) as (authData & -> & _).
  exists (map (fun kv => (fst kv, recorded (snd kv))) authData).
  rewrite JSON_stringify_object_recorded. split; [reflexivity|].
  assert (Hid : Enhanced.getIdentity w
                  (setItem "auth" (JSON_stringify_object authData) st)
                = (Resolved
                     {| Enhanced.id :=
                          recorded (lookup_member "username" (object_literal authData));
                        Enhanced.fullName :=
                          or_else
                            (recorded (lookup_member "fullName"
                                         (object_literal authData)))
                            (recorded (lookup_member "username"
                                         (object_literal authData))) |},
                   setItem "auth" (JSON_stringify_object authData) st)).
  { rewrite getIdentity_eq, record_setItem, !field_setItem. reflexivity. }
  split.
  { rewrite Hid, object_literal_recorded, !lookup_stored_members. reflexivity. }
  intros apiError staticUser Hapi Hfind.
  rewrite (login_fallback_path _ _ _ _ _ _ Hapi Hfind) in Hlogin.
  injection Hlogin as Hst.
  destruct (find_static_facts _ _ _ Hfind) as [Hname Hfull].
  rewrite <- Hst, getIdentity_eq, record_setItem, !field_setItem.
  cbn [Enhanced.static_authData object_literal]. unfold or_else.
  change (lookup_member "username" _) with (Some (JStr (Enhanced.cred_username staticUser))).
  change (lookup_member "fullName" _) with (Some (JStr (Enhanced.cred_fullName staticUser))).
  cbn [recorded as_stored truthy]. unfold nonempty in Hfull.
  rewrite Hfull, Hname. reflexivity.
Qed.

Lemma getIdentity_after_login_witness :
  Enhanced.getIdentity (Fixtures.world Fixtures.unreachable)
    (snd (Enhanced.login (Fixtures.world Fixtures.unreachable) "test" "test" ∅))
  = (Resolved {| Enhanced.id := Some (JStr "test");
                 Enhanced.fullName := Some (JStr "Test User") |},
     snd (Enhanced.login (Fixtures.world Fixtures.unreachable) "test" "test" ∅)).
Proof.
  destruct (getIdentity_after_login (Fixtures.world Fixtures.unreachable)
              "test" "test" ∅
              (snd (Enhanced.login (Fixtures.world Fixtures.unreachable)
                      "test" "test" ∅)) eq_refl) as (authData & _ & _ & H).
  exact (H (TypeError "Failed to fetch")
           {| Enhanced.cred_username := "test"; Enhanced.cred_password := "test";
              Enhanced.cred_role := "viewer"; Enhanced.cred_fullName := "Test User" |}
           eq_refl eq_refl).
Defined.

(** X10. The static provider accepts the same pairs as the fallback list
    of the enhanced one, and gives every pair it accepts the role [admin]
    and the same token, with the username that was typed. *)
Theorem static_login_grants_admin (username password : string)
    (st : gmap string string) :
  (fst (Static.login username password st) = Resolved tt
   <-> In (username, password) allow_list)
  /\ (In (username, password) allow_list ->
      field "role" (snd (Static.login username password st)) = Some (JStr "admin")
      /\ field "token" (snd (Static.login username password st))
         = Some (JStr "fake-jwt-token")
      /\ field "username" (snd (Static.login username password st))
         = Some (JStr username)).
Proof.
  rewrite <- find_static_allow_list. unfold Static.login.
  rewrite isValid_find_static.
  destruct (Enhanced.find_static username password) as [staticUser|]; simpl.
  - split; [split; eauto|]. intros _. rewrite !field_setItem. auto.
  - split; [split; [discriminate | intros [x Hx]; discriminate Hx]|].
    intros [x Hx]. discriminate Hx.
Qed.

Lemma static_login_grants_admin_witness :
  In ("test", "test") allow_list
  /\ field "role" (snd (Static.login "test" "test" ∅)) = Some (JStr "admin").
Proof.
  assert (H : In ("test", "test") allow_list) by (right; right; left; reflexivity).
  split; [exact H|].
  exact (proj1 (proj2 (static_login_grants_admin "test" "test" ∅) H)).
Defined.

(** ** The gateway when the call succeeds *)

(** X11. When the call of the base provider succeeds, [create],
    [update], [delete] and [getOne] return its result as it is, given an
    [id] that their first log line can print; with another [id] that line
    throws a [TypeError]. [getList] returns the result when it has a
    [data] that is neither missing nor [null], and that, when it is an
    object, has a [length] the log line can print; when there is no
    [data], reading its length for the log line throws inside the [try],
    and the caller gets that [TypeError] for every resource, as it gets
    the one of a [length] that has no text. *)
Theorem gateway_success (op : Gateway.operation) (w : World)
    (lib : Gateway.RestLibrary) (st : gmap string string) (resource : string)
    (params : list (string * JSON)) (result : value) :
  Gateway.baseDataProvider w lib st op resource params = inr result ->
  (op <> Gateway.GetList -> Gateway.loggable op params = true ->
   Gateway.dataProvider op w lib st resource params = inr result)
  /\ (Gateway.loggable op params = false ->
      Gateway.dataProvider op w lib st resource params
      = inl (TypeError (convert_error_text w)))
  /\ (forall data,
        op = Gateway.GetList ->
        prop w result "data" = inr (Some data) -> data <> JNull ->
        (forall ms, data = JObj ms ->
                    printable_value (lookup_member "length" ms) = true) ->
        Gateway.dataProvider op w lib st resource params = inr result)
  /\ (forall ms,
        op = Gateway.GetList ->
        prop w result "data" = inr (Some (JObj ms)) ->
        printable_value (lookup_member "length" ms) = false ->
        Gateway.dataProvider op w lib st resource params
        = inl (TypeError (convert_error_text w)))
  /\ (forall data,
        op = Gateway.GetList ->
        prop w result "data" = inr data -> data = None \/ data = Some JNull ->
        Gateway.dataProvider op w lib st resource params
        = inl (TypeError (type_error_text w "length")))
  /\ (forall e,
        op = Gateway.GetList ->
        prop w result "data" = inl e ->
        Gateway.dataProvider op w lib st resource params
        = inl (TypeError (type_error_text w "data"))).
Proof.
  intros Hbase. split; [|split; [|split; [|split; [|split]]]].
  - intros Hop Hlog.
    destruct op; try congruence;
      cbn [Gateway.dataProvider Gateway.loggable] in Hlog |- *;
      unfold Gateway.create, Gateway.update, Gateway.delete, Gateway.getOne;
      rewrite ?log_id_cases, ?Hlog; cbn [bind]; now rewrite Hbase.
  - apply dataProvider_unloggable.
  - intros data -> Hdata Hnn Hlen. cbn [Gateway.dataProvider]. unfold Gateway.getList.
    rewrite Hbase. cbn [bind]. rewrite Hdata. cbn [bind].
    destruct data as [ | b | m e | s | l | ms]; try reflexivity; [congruence|].
    cbn [Gateway.log_length]. rewrite ToString_cases, (Hlen ms eq_refl). reflexivity.
  - intros ms -> Hdata Hlen. cbn [Gateway.dataProvider]. unfold Gateway.getList.
    rewrite Hbase. cbn [bind]. rewrite Hdata. cbn [bind Gateway.log_length].
    rewrite ToString_cases, Hlen. cbn.
    destruct (String.eqb resource "users"); reflexivity.
  - intros data -> Hdata Hnull. cbn [Gateway.dataProvider]. unfold Gateway.getList.
    rewrite Hbase. cbn [bind]. rewrite Hdata. cbn [bind].
    destruct Hnull as [-> | ->]; cbn; destruct (String.eqb resource "users");
      reflexivity.
  - intros e -> Hdata. cbn [Gateway.dataProvider]. unfold Gateway.getList.
    rewrite Hbase. cbn [bind]. rewrite Hdata. cbn [bind].
    assert (He : e = TypeError (type_error_text w "data")).
    { unfold prop, get, throw, ret in Hdata.
      destruct result as [[ | b | m x | s | l | ms]|]; congruence. }
    subst e. cbn. destruct (String.eqb resource "users"); reflexivity.
Qed.

Lemma gateway_success_witness :
  Gateway.dataProvider Gateway.GetList (Fixtures.world Fixtures.unreachable)
    (Fixtures.library
       (inr {| Gateway.resp_status := 200; Gateway.resp_headers := ∅;
               Gateway.resp_body := "null"; Gateway.resp_json := Some (JObj []) |}))
    ∅ "users" []
  = inl (TypeError (type_error_text (Fixtures.world Fixtures.unreachable) "length")).
Proof.
  apply (proj1 (proj2 (proj2 (proj2 (proj2
           (gateway_success Gateway.GetList (Fixtures.world Fixtures.unreachable)
              (Fixtures.library
                 (inr {| Gateway.resp_status := 200; Gateway.resp_headers := ∅;
                         Gateway.resp_body := "null";
                         Gateway.resp_json := Some (JObj []) |}))
              ∅ "users" [] (Some (JObj [])) eq_refl))))) None eq_refl eq_refl).
  left. reflexivity.
Defined.

(** ** What [httpClient] changes in a request *)

(** X12. [httpClient] passes on the URL, the method and the body as they
    are, and every header other than [authorization]: the headers that
    were given, or the single header [accept] when none were. With a
    token in the session that has a text [Headers.set] accepts it sets
    [authorization] to [Bearer] and that text, replacing one that was
    given; the text of a token of visible ASCII is the token. With no
    token, or one without such a text, it leaves that header as it was.
    Applied to its own output it changes nothing more. *)
Theorem httpClient_changes_only_authorization (w : World)
    (st : gmap string string) (url : string) (options : Gateway.Options) :
  fst (Gateway.httpClient w st url options) = url
  /\ Gateway.opt_method (snd (Gateway.httpClient w st url options))
     = Gateway.opt_method options
  /\ Gateway.opt_body (snd (Gateway.httpClient w st url options))
     = Gateway.opt_body options
  /\ (exists h,
        Gateway.opt_headers (snd (Gateway.httpClient w st url options)) = Some h
        /\ (forall name given,
              name <> "authorization" ->
              Gateway.opt_headers options = Some given ->
              h !! name = given !! name)
        /\ (forall name,
              name <> "authorization" ->
              Gateway.opt_headers options = None ->
              h !! name = if String.eqb name "accept"
                          then Some "application/json" else None)
        /\ h !! "authorization"
           = match authorization_of (field "token" st) with
             | Some v => Some v
             | None => Gateway.default_headers options !! "authorization"
             end
        /\ (forall token,
              field "token" st = Some (JStr token) ->
              token <> "" -> plain token = true ->
              h !! "authorization" = Some ("Bearer " ++ token))
        /\ (truthy (field "token" st) = false
            \/ printable_value (field "token" st) = false
            \/ sendable ("Bearer " ++ string_of_value (field "token" st)) = false ->
            h !! "authorization"
            = Gateway.default_headers options !! "authorization"))
  /\ Gateway.httpClient w st url (snd (Gateway.httpClient w st url options))
     = Gateway.httpClient w st url options.
Proof.
  rewrite !httpClient_eq. cbn [fst snd].
  assert (Hauth : match authorization_of (field "token" st) with
                  | Some v => <[ "authorization" := v ]> (Gateway.default_headers options)
                  | None => Gateway.default_headers options
                  end !! "authorization"
                  = match authorization_of (field "token" st) with
                    | Some v => Some v
                    | None => Gateway.default_headers options !! "authorization"
                    end).
  { destruct (authorization_of (field "token" st));
      [apply lookup_insert_eq | reflexivity]. }
  split; [reflexivity|]. split; [reflexivity|]. split; [reflexivity|]. split.
  - eexists. split; [reflexivity|]. split; [|split; [|split; [|split]]].
    + intros name given Hname Hgiven. unfold Gateway.default_headers.
      rewrite Hgiven.
      destruct (authorization_of (field "token" st)); [|reflexivity].
      now rewrite lookup_insert_ne.
    + intros name Hname Hnone. unfold Gateway.default_headers. rewrite Hnone.
      assert (Hacc : ({[ "accept" := "application/json" ]} : gmap string string)
                     !! name
                     = if String.eqb name "accept" then Some "application/json"
                       else None).
      { destruct (String.eqb_spec name "accept") as [-> | Hne].
        - apply lookup_singleton_eq.
        - apply lookup_singleton_ne. congruence. }
      destruct (authorization_of (field "token" st)); [|exact Hacc].
      now rewrite lookup_insert_ne.
    + exact Hauth.
    + intros token Htok Hne Hplain. rewrite Hauth, Htok.
      now rewrite (authorization_of_plain token Hne Hplain).
    + intros Hno. rewrite Hauth.
      destruct (authorization_of (field "token" st)) as [v|] eqn:E; [|reflexivity].
      destruct (proj1 (authorization_of_is_Some (field "token" st)))
        as (H1 & H2 & H3); [rewrite E; eauto|].
      destruct Hno as [H | [H | H]]; congruence.
  - unfold Gateway.with_headers, Gateway.default_headers. cbn.
    destruct (authorization_of (field "token" st)); [|reflexivity].
    now rewrite insert_insert_eq.
Qed.

Lemma httpClient_changes_only_authorization_witness :
  "range" <> "authorization"
  /\ exists h,
       Gateway.opt_headers
         (snd (Gateway.httpClient (Fixtures.world Fixtures.unreachable)
                 Fixtures.storage_without_token "http://localhost:9000/drivers"
                 {| Gateway.opt_method := None; Gateway.opt_body := None;
                    Gateway.opt_headers := Some {[ "range" := "drivers=0-9" ]} |}))
       = Some h
       /\ h !! "range" = Some "drivers=0-9".
Proof.
  assert (Hne : "range" <> "authorization") by discriminate.
  split; [exact Hne|].
  destruct (httpClient_changes_only_authorization
              (Fixtures.world Fixtures.unreachable)
              Fixtures.storage_without_token "http://localhost:9000/drivers"
              {| Gateway.opt_method := None; Gateway.opt_body := None;
                 Gateway.opt_headers := Some {[ "range" := "drivers=0-9" ]} |})
    as (_ & _ & _ & (h & Hh & Hgiven & _) & _).
  exists h. split; [exact Hh|].
  exact (Hgiven "range" {[ "range" := "drivers=0-9" ]} Hne eq_refl).
Defined.

(** ** Errors of the gateway that reach [checkError] and the pages *)

(** X13. For the resource [users], a 401 or a 403 leaves every operation
    of the gateway as a new [Error] that has no status: handed to
    [checkError], that error resolves and the session stays, whereas the
    error of the HTTP client itself makes [checkError] reject and remove
    the session. With an [id] that the first log line of [update],
    [delete] and [getOne] cannot print, what leaves the operation is the
    [TypeError] of that line, and the session stays as well. *)
Theorem users_auth_errors_keep_session (op : Gateway.operation) (w : World)
    (lib : Gateway.RestLibrary) (st st' : gmap string string)
    (params : list (string * JSON)) (error : exn) (s : Z) :
  Gateway.baseDataProvider w lib st op "users" params = inl error ->
  status error = Some s ->
  (s = 401 \/ s = 403)%Z ->
  exists e,
    Gateway.dataProvider op w lib st "users" params = inl e
    /\ (Gateway.loggable op params = true -> exists msg, e = Error msg)
    /\ (Gateway.loggable op params = false -> e = TypeError (convert_error_text w))
    /\ ErrorFlow.checkError_on e st' = (Resolved tt, st')
    /\ ErrorFlow.checkError_on error st'
       = (Rejected (Some (Error "Authentication required")), removeItem "auth" st').
Proof.
  intros Hbase Hstatus Hs.
  assert (Hon : ErrorFlow.checkError_on error st'
                = (Rejected (Some (Error "Authentication required")),
                   removeItem "auth" st')).
  { unfold ErrorFlow.checkError_on, Enhanced.checkError. rewrite Hstatus.
    destruct Hs as [-> | ->]; reflexivity. }
  assert (Hflags : (Gateway.status_is error 401 = true
                    /\ Gateway.status_is error 403 = false)
                   \/ (Gateway.status_is error 401 = false
                       /\ Gateway.status_is error 403 = true)).
  { unfold Gateway.status_is. rewrite Hstatus.
    destruct Hs as [-> | ->]; [left | right]; split; reflexivity. }
  destruct (Gateway.loggable op params) eqn:Hlog.
  - destruct op; cbn [Gateway.dataProvider Gateway.loggable] in Hlog |- *;
      unfold Gateway.create, Gateway.update, Gateway.delete, Gateway.getList,
             Gateway.getOne;
      rewrite ?log_id_cases, ?Hlog; cbn [bind];
      rewrite Hbase; cbn [bind]; rewrite String.eqb_refl;
      (destruct Hflags as [[H1 H3] | [H1 H3]]; rewrite ?H3, ?H1);
      eexists; (split; [reflexivity|]); (split; [eauto|]);
      (split; [discriminate|]); (split; [reflexivity | exact Hon]).
  - rewrite (dataProvider_unloggable _ _ _ _ _ _ Hlog).
    eexists. split; [reflexivity|]. split; [discriminate|].
    split; [reflexivity|]. split; [reflexivity | exact Hon].
Qed.

Lemma users_auth_errors_keep_session_witness :
  exists e,
    Gateway.dataProvider Gateway.GetList (Fixtures.world Fixtures.unreachable)
      (Fixtures.library (inl (HttpError "Unauthorized" 401 None)))
      Fixtures.storage_without_token "users" []
    = inl e
    /\ ErrorFlow.checkError_on e Fixtures.storage_without_token
       = (Resolved tt, Fixtures.storage_without_token).
Proof.
  destruct (users_auth_errors_keep_session Gateway.GetList
              (Fixtures.world Fixtures.unreachable)
              (Fixtures.library (inl (HttpError "Unauthorized" 401 None)))
              Fixtures.storage_without_token Fixtures.storage_without_token []
              (HttpError "Unauthorized" 401 None) 401 eq_refl eq_refl
              (or_introl eq_refl)) as (e & H1 & _ & _ & H2 & _).
  exists e. split; [exact H1 | exact H2].
Defined.

(** X14. When deleting a user ends in a 400, the message is the
    [detail] of the response body if that is a string which mentions
    "Cannot delete", and "Cannot delete this user." when the [detail] is
    another string, is [null] or is missing. The [id] is one that the
    first log line of [delete] can print. *)
Theorem delete_user_bad_request (w : World) (lib : Gateway.RestLibrary)
    (st : gmap string string) (params : list (string * JSON)) (error : exn) :
  Gateway.baseDataProvider w lib st Gateway.Delete "users" params = inl error ->
  status error = Some 400%Z ->
  printable_value (lookup_member "id" params) = true ->
  (forall text,
     Gateway.body_detail error = Some (JStr text) ->
     Gateway.delete w lib st "users" params
     = inl (Error (if Gateway.is_substring "Cannot delete" text then text
                   else "Cannot delete this user.")))
  /\ (Gateway.body_detail error = None \/ Gateway.body_detail error = Some JNull ->
      Gateway.delete w lib st "users" params
      = inl (Error "Cannot delete this user.")).
Proof.
  intros Hbase Hstatus Hid.
  assert (H400 : Gateway.status_is error 400 = true).
  { unfold Gateway.status_is. now rewrite Hstatus. }
  rewrite (delete_users_400 _ _ _ _ _ Hbase Hid H400). split.
  - intros text ->. cbn.
    destruct (Gateway.is_substring "Cannot delete" text); reflexivity.
  - intros [-> | ->]; reflexivity.
Qed.

Lemma delete_user_bad_request_witness :
  Gateway.delete (Fixtures.world Fixtures.unreachable)
    (Fixtures.library
       (inl (HttpError "Bad Request" 400
               (Some (JObj [("detail", JStr "Cannot delete your own account")])))))
    ∅ "users" []
  = inl (Error "Cannot delete your own account").
Proof.
  exact (proj1 (delete_user_bad_request (Fixtures.world Fixtures.unreachable)
                  (Fixtures.library
                     (inl (HttpError "Bad Request" 400
                             (Some (JObj [("detail",
                                           JStr "Cannot delete your own account")])))))
                  ∅ []
                  (HttpError "Bad Request" 400
                     (Some (JObj [("detail", JStr "Cannot delete your own account")])))
                  eq_refl eq_refl eq_refl)
           "Cannot delete your own account" eq_refl).
Defined.

(** X15. The early [httpClient] takes its token from the key [token]
    alone. After a [login] into a storage without that key it sends the
    request with the headers it was given, whatever token the session
    holds. With a text under that key that is not empty it sets
    [authorization] to [Bearer] and that text, less the white space at
    its end, when [Headers.set] accepts the value; when it does not (a
    code unit above [0xFF], or a NUL, a line feed or a carriage return
    inside), what [Headers.set] throws leaves the function and no request
    is sent. A text of visible ASCII is accepted and sent as it is. *)
Theorem early_httpClient_ignores_session (w : World) (username password : string)
    (st st' : gmap string string) (url : string) (options : Gateway.Options) :
  Enhanced.login w username password st = (Resolved tt, st') ->
  (st !! "token" = None ->
   Gateway.httpClient_token_key w st' url options
   = inr (url, Gateway.with_headers options (Gateway.default_headers options)))
  /\ (forall token,
        st !! "token" = Some token -> nonempty token = true ->
        (sendable ("Bearer " ++ token) = true ->
         Gateway.httpClient_token_key w st' url options
         = inr (url,
                Gateway.with_headers options
                  (<[ "authorization" := normalize ("Bearer " ++ token) ]>
                     (Gateway.default_headers options))))
        /\ (sendable ("Bearer " ++ token) = false ->
            Gateway.httpClient_token_key w st' url options
            = inl (TypeError (header_error_text w ("Bearer " ++ token))))
        /\ (plain token = true ->
            Gateway.httpClient_token_key w st' url options
            = inr (url,
                   Gateway.with_headers options
                     (<[ "authorization" := "Bearer " ++ token ]>
                        (Gateway.default_headers options))))).
Proof.
  intros Hlogin.
  assert (Hkey : st' !! "token" = st !! "token").
  { destruct (login_resolved _ _ _ _ _ Hlogin) as (authData & -> & _).
    unfold setItem. now rewrite lookup_insert_ne. }
  split.
  - intros Hnone. apply early_httpClient_other_key. now rewrite Hkey.
  - intros token Htok Hne.
    assert (Hsend : forall b,
               sendable ("Bearer " ++ token) = b ->
               Gateway.httpClient_token_key w st' url options
               = if b
                 then inr (url,
                           Gateway.with_headers options
                             (<[ "authorization" := normalize ("Bearer " ++ token) ]>
                                (Gateway.default_headers options)))
                 else inl (TypeError (header_error_text w ("Bearer " ++ token)))).
    { intros b Hb. unfold Gateway.httpClient_token_key, getItem.
      rewrite Hkey, Htok, Hne. unfold Headers_set, header_value.
      unfold sendable in Hb. rewrite Hb. now destruct b. }
    split; [exact (Hsend true)|]. split; [exact (Hsend false)|].
    intros Hplain.
    assert (Hnonempty : token <> "").
    { intros ->. discriminate Hne. }
    destruct (plain_is_sent token Hnonempty Hplain) as [Hs Hn].
    rewrite (Hsend true Hs), Hn. reflexivity.
Qed.

Lemma early_httpClient_ignores_session_witness :
  Gateway.httpClient_token_key (Fixtures.world Fixtures.accepted)
    (snd (Enhanced.login (Fixtures.world Fixtures.accepted) "alice" "secret" ∅))
    "http://localhost:9000/drivers"
    {| Gateway.opt_method := None; Gateway.opt_body := None;
       Gateway.opt_headers := None |}
  = inr ("http://localhost:9000/drivers",
         {| Gateway.opt_method := None; Gateway.opt_body := None;
            Gateway.opt_headers := Some {[ "accept" := "application/json" ]} |}).
Proof.
  exact (proj1 (early_httpClient_ignores_session (Fixtures.world Fixtures.accepted)
                  "alice" "secret" ∅
                  (snd (Enhanced.login (Fixtures.world Fixtures.accepted)
                          "alice" "secret" ∅))
                  "http://localhost:9000/drivers"
                  {| Gateway.opt_method := None; Gateway.opt_body := None;
                     Gateway.opt_headers := None |} eq_refl) eq_refl).
Defined.

(** ** What the pages show *)

Lemma handler_of_plain_error (w : World) (msg : string) :
  nonempty msg = true ->
  Pages.user_create_handleError w (Error msg) = inr (Some (JStr msg))
  /\ Pages.user_edit_handleError w (Error msg) = inr (Some (JStr msg)).
Proof.
  intros H. unfold Pages.user_create_handleError, Pages.user_edit_handleError.
  cbn. now rewrite H.
Qed.

(** X16. When creating or editing a user ends in a status the gateway
    has a message for, the page notifies that message: the new error has
    no body, so the texts that the handlers of the page pick by the
    [detail] of the body are not used. For a 403 the user reads the
    message of the gateway, and for a 409 on create the text about the
    existing username or email. An edit is of a user whose [id] the first
    log line of [update] can print. *)
Theorem user_pages_show_gateway_message (w : World) (lib : Gateway.RestLibrary)
    (st : gmap string string) (params : list (string * JSON)) (error : exn) :
  (Gateway.baseDataProvider w lib st Gateway.Create "users" params = inl error ->
   GatewayTable.mapped Gateway.Create error = true ->
   exists msg,
     Gateway.create w lib st "users" params = inl (Error msg)
     /\ Pages.user_create_handleError w (Error msg) = inr (Some (JStr msg))
     /\ (Gateway.status_is error 403 = true ->
         msg = "Administrator access required to create users. Please login as an admin.")
     /\ (Gateway.status_is error 409 = true ->
         msg = "Username or email already exists. Please choose different credentials."))
  /\ (Gateway.baseDataProvider w lib st Gateway.Update "users" params = inl error ->
      GatewayTable.mapped Gateway.Update error = true ->
      printable_value (lookup_member "id" params) = true ->
      exists msg,
        Gateway.update w lib st "users" params = inl (Error msg)
        /\ Pages.user_edit_handleError w (Error msg) = inr (Some (JStr msg))
        /\ (Gateway.status_is error 403 = true ->
            msg = "Administrator access required to modify users.")).
Proof.
  split; [intros Hbase Hmap | intros Hbase Hmap Hid];
    unfold GatewayTable.mapped in Hmap; cbn in Hmap.
  - unfold Gateway.create. rewrite Hbase. cbn [bind String.eqb].
    change (String.eqb "users" "users") with true. cbv beta match.
    destruct (Gateway.status_is error 403) eqn:H403.
    { eexists. split; [reflexivity|].
      split; [apply handler_of_plain_error; reflexivity|].
      split; [reflexivity|].
      intros H409. rewrite (status_is_exclusive error 409 403) in H403
        by (exact H409 || lia). discriminate H403. }
    destruct (Gateway.status_is error 401) eqn:H401.
    { eexists. split; [reflexivity|].
      split; [apply handler_of_plain_error; reflexivity|].
      split; [discriminate|].
      intros H409. rewrite (status_is_exclusive error 409 401) in H401
        by (exact H409 || lia). discriminate H401. }
    destruct (Gateway.status_is error 409) eqn:H409.
    { eexists. split; [reflexivity|].
      split; [apply handler_of_plain_error; reflexivity|].
      split; [discriminate | reflexivity]. }
    destruct (Gateway.status_is error 422) eqn:H422.
    { eexists. split; [reflexivity|].
      split; [apply handler_of_plain_error; reflexivity|].
      split; discriminate. }
    destruct (Gateway.status_is error 500) eqn:H500; [|discriminate Hmap].
    eexists. split; [reflexivity|].
    split; [apply handler_of_plain_error; reflexivity|].
    split; discriminate.
  - unfold Gateway.update. rewrite log_id_cases, Hid. cbn [bind].
    rewrite Hbase. cbn [bind].
    change (String.eqb "users" "users") with true. cbv beta match.
    destruct (Gateway.status_is error 403) eqn:H403.
    { eexists. split; [reflexivity|].
      split; [apply handler_of_plain_error; reflexivity|]. reflexivity. }
    destruct (Gateway.status_is error 401) eqn:H401.
    { eexists. split; [reflexivity|].
      split; [apply handler_of_plain_error; reflexivity|]. discriminate. }
    destruct (Gateway.status_is error 409) eqn:H409.
    { eexists. split; [reflexivity|].
      split; [apply handler_of_plain_error; reflexivity|]. discriminate. }
    destruct (Gateway.status_is error 404) eqn:H404; [|discriminate Hmap].
    eexists. split; [reflexivity|].
    split; [apply handler_of_plain_error; reflexivity|]. discriminate.
Qed.

Lemma user_pages_show_gateway_message_witness :
  exists msg,
    Gateway.create (Fixtures.world Fixtures.unreachable)
      (Fixtures.library
         (inl (HttpError "Forbidden" 403
                 (Some (JObj [("detail", JStr "Admin access required")])))))
      ∅ "users" []
    = inl (Error msg)
    /\ Pages.user_create_handleError (Fixtures.world Fixtures.unreachable) (Error msg)
       = inr (Some (JStr msg))
    /\ msg = "Administrator access required to create users. Please login as an admin.".
Proof.
  destruct (proj1 (user_pages_show_gateway_message
                     (Fixtures.world Fixtures.unreachable)
                     (Fixtures.library
                        (inl (HttpError "Forbidden" 403
                                (Some (JObj [("detail",
                                              JStr "Admin access required")])))))
                     ∅ []
                     (HttpError "Forbidden" 403
                        (Some (JObj [("detail", JStr "Admin access required")]))))
             eq_refl eq_refl) as (msg & H1 & H2 & H3 & _).
  exists msg. split; [exact H1|]. split; [exact H2 | exact (H3 eq_refl)].
Defined.

(** X17. An error on the resource [drivers] reaches the page as the HTTP
    client raised it (on an edit, of a driver whose [id] the first log
    line of [update] can print). When its body has a non-empty string as
    [detail],
    the create page notifies that string, and the edit page notifies it
    behind "Update failed: " if it mentions "already exists" or "already
    in use", and as it is otherwise. Without a truthy [detail] both
    notify the message of the error, and a text of their own when that is
    empty. *)
Theorem driver_pages_show_detail (w : World) (lib : Gateway.RestLibrary)
    (st : gmap string string) (params : list (string * JSON)) (error : exn) :
  (Gateway.baseDataProvider w lib st Gateway.Create "drivers" params = inl error ->
   Gateway.create w lib st "drivers" params = inl error)
  /\ (Gateway.baseDataProvider w lib st Gateway.Update "drivers" params = inl error ->
      printable_value (lookup_member "id" params) = true ->
      Gateway.update w lib st "drivers" params = inl error)
  /\ (forall text,
        Gateway.body_detail error = Some (JStr text) -> nonempty text = true ->
        Pages.driver_create_handleError error = Some (JStr text)
        /\ Pages.driver_edit_handleError w error
           = inr (Some (JStr (if Gateway.is_substring "already exists" text
                                 || Gateway.is_substring "already in use" text
                              then "Update failed: " ++ text else text))))
  /\ (truthy (Gateway.body_detail error) = false ->
      Pages.driver_create_handleError error
      = Some (JStr (if nonempty (message error) then message error
                    else "Failed to create driver"))
      /\ Pages.driver_edit_handleError w error
         = inr (Some (JStr (if nonempty (message error) then message error
                            else "Failed to update driver")))).
Proof.
  split; [|split; [|split]].
  - intros Hbase. unfold Gateway.create. now rewrite Hbase.
  - intros Hbase Hid. unfold Gateway.update.
    rewrite log_id_cases, Hid. cbn [bind]. now rewrite Hbase.
  - intros text Hdetail Hne.
    unfold Pages.driver_create_handleError, Pages.driver_edit_handleError.
    rewrite Hdetail. cbn [truthy]. unfold nonempty in Hne. rewrite Hne.
    split; [reflexivity|]. cbn [Pages.includes bind ret].
    destruct (Gateway.is_substring "already exists" text); cbn [bind ret orb];
      [reflexivity|].
    destruct (Gateway.is_substring "already in use" text); reflexivity.
  - intros Hfalse.
    unfold Pages.driver_create_handleError, Pages.driver_edit_handleError.
    rewrite Hfalse. destruct (nonempty (message error)); split; reflexivity.
Qed.

Lemma driver_pages_show_detail_witness :
  Pages.driver_edit_handleError (Fixtures.world Fixtures.unreachable)
    (HttpError "Conflict" 409
       (Some (JObj [("detail", JStr "Driver reference already exists")])))
  = inr (Some (JStr "Update failed: Driver reference already exists")).
Proof.
  exact (proj2 (proj1 (proj2 (proj2
           (driver_pages_show_detail (Fixtures.world Fixtures.unreachable)
              (Fixtures.library (inl Fixtures.conflict)) ∅ []
              (HttpError "Conflict" 409
                 (Some (JObj [("detail", JStr "Driver reference already exists")]))))))
           "Driver reference already exists" eq_refl eq_refl)).
Defined.

(** ** The regular expression of the user form *)

Module RegexFacts.
Import Forms.

Lemma nullable_lang (r : regex) : nullable r = true <-> lang r [].
Proof.
  split.
  - induction r; simpl; intros H; try discriminate H.
    + constructor.
    + apply andb_true_iff in H as [H1 H2].
      change (@nil N) with (@nil N ++ [])%list. constructor; auto.
    + apply orb_true_iff in H as [H | H];
        [apply lang_alt_l | apply lang_alt_r]; auto.
    + constructor.
  - intros H. remember (@nil N) as s eqn:E.
    induction H; simpl; try reflexivity; try discriminate E.
    + apply app_eq_nil in E as [-> ->].
      rewrite IHlang1, IHlang2; reflexivity.
    + rewrite IHlang; auto.
    + rewrite IHlang; auto. apply orb_true_r.
Qed.

Lemma lang_seq_inv (r1 r2 : regex) (s : list N) :
  lang (Seq r1 r2) s -> exists s1 s2, s = (s1 ++ s2)%list /\ lang r1 s1 /\ lang r2 s2.
Proof. inversion 1; subst; eauto. Qed.

Lemma deriv_sound (c : N) (r : regex) :
  forall s, lang (deriv c r) s -> lang r (c :: s).
Proof.
  induction r; simpl; intros s H.
  - inversion H.
  - inversion H.
  - destruct (p c) eqn:Hp; inversion H; subst. now constructor.
  - destruct (nullable r1) eqn:Hn.
    + inversion H as [ | | | ? ? ? H' | ? ? ? H' | | ]; subst.
      * apply lang_seq_inv in H' as (s1 & s2 & -> & H1 & H2).
        change (c :: s1 ++ s2)%list with ((c :: s1) ++ s2)%list. constructor; auto.
      * change (c :: s) with ([] ++ c :: s)%list. constructor; auto.
        now apply nullable_lang.
    + apply lang_seq_inv in H as (s1 & s2 & -> & H1 & H2).
      change (c :: s1 ++ s2)%list with ((c :: s1) ++ s2)%list. constructor; auto.
  - inversion H; subst; [apply lang_alt_l | apply lang_alt_r]; auto.
  - apply lang_seq_inv in H as (s1 & s2 & -> & H1 & H2).
    change (c :: s1 ++ s2)%list with ((c :: s1) ++ s2)%list. constructor; auto.
Qed.

Lemma deriv_complete (c : N) (r : regex) (s : list N) :
  lang r (c :: s) -> lang (deriv c r) s.
Proof.
  intros H. remember (c :: s) as cs eqn:E. revert s E.
  induction H as [ | p c' Hp | r1 r2 s1 s2 H1 IH1 H2 IH2 | r1 r2 s0 H1 IH1
                 | r1 r2 s0 H2 IH2 | r0 | r0 s1 s2 H1 IH1 H2 IH2];
    intros s E; simpl.
  - discriminate E.
  - injection E as -> <-. rewrite Hp. constructor.
  - destruct s1 as [|c1 s1].
    + simpl in E. subst s2.
      assert (Hn : nullable r1 = true) by now apply nullable_lang.
      rewrite Hn. apply lang_alt_r. now apply IH2.
    + injection E as -> <-.
      assert (Hs : lang (Seq (deriv c r1) r2) (s1 ++ s2)%list).
      { constructor; auto. }
      destruct (nullable r1); [now apply lang_alt_l | exact Hs].
  - apply lang_alt_l. now apply IH1.
  - apply lang_alt_r. now apply IH2.
  - discriminate E.
  - destruct s1 as [|c1 s1].
    + simpl in E. now apply IH2.
    + injection E as -> <-. constructor; auto.
Qed.

(** The matcher accepts the strings of the expression, and no other. *)
Lemma regex_test_lang (s : list N) :
  forall r, regex_test r s = true <-> lang r s.
Proof.
  induction s as [|c s IH]; intros r; simpl.
  - apply nullable_lang.
  - rewrite IH. split; [apply deriv_sound | apply deriv_complete].
Qed.

Lemma lang_chr (c : N) (s : list N) : lang (Chr c) s <-> s = [c].
Proof.
  split.
  - inversion 1 as [ | p c' Hp | | | | | ]; subst.
    apply N.eqb_eq in Hp. now subst.
  - intros ->. constructor. apply N.eqb_refl.
Qed.

Lemma lang_star_class (p : N -> bool) (s : list N) :
  lang (Star (Class p)) s <-> Forall (fun c => p c = true) s.
Proof.
  split.
  - intros H. remember (Star (Class p)) as r eqn:E.
    induction H; try discriminate E; [constructor|].
    injection E as ->. apply Forall_app. split; [|auto].
    inversion H; subst. constructor; [assumption | constructor].
  - induction 1 as [|c s Hc Hs IH]; [constructor|].
    change (c :: s) with ([c] ++ s)%list. constructor; [now constructor | exact IH].
Qed.

Lemma lang_plus_class (p : N -> bool) (s : list N) :
  lang (Plus (Class p)) s <-> s <> [] /\ Forall (fun c => p c = true) s.
Proof.
  unfold Plus. split.
  - intros H. apply lang_seq_inv in H as (s1 & s2 & -> & H1 & H2).
    inversion H1; subst. apply lang_star_class in H2.
    split; [discriminate | constructor; assumption].
  - intros [Hne Hall]. destruct s as [|c s]; [congruence|].
    inversion Hall; subst. change (c :: s) with ([c] ++ s)%list.
    constructor; [now constructor | now apply lang_star_class].
Qed.

(** What the expression of the user form accepts. *)
Lemma emailRegex_test (s : list N) :
  regex_test emailRegex s = true <-> valid_email s.
Proof.
  rewrite regex_test_lang. unfold emailRegex, valid_email. split.
  - intros H.
    apply lang_seq_inv in H as (a & s1 & -> & Ha & H).
    apply lang_seq_inv in H as (at1 & s2 & -> & Hat & H).
    apply lang_seq_inv in H as (b & s3 & -> & Hb & H).
    apply lang_seq_inv in H as (dot & c & -> & Hdot & Hc).
    apply lang_chr in Hat, Hdot. subst at1 dot.
    apply lang_plus_class in Ha as [Ha1 Ha2].
    apply lang_plus_class in Hb as [Hb1 Hb2].
    apply lang_plus_class in Hc as [Hc1 Hc2].
    exists a, b, c. auto 10.
  - intros (a & b & c & -> & Ha & Hb & Hc & Ha' & Hb' & Hc').
    constructor; [apply lang_plus_class; auto|].
    constructor; [now apply lang_chr|].
    constructor; [apply lang_plus_class; auto|].
    constructor; [now apply lang_chr | apply lang_plus_class; auto].
Qed.

Lemma not_space_or_at_facts (u : N) :
  not_space_or_at u = true -> is_space u = false /\ u <> 64%N.
Proof.
  unfold not_space_or_at. rewrite negb_true_iff, orb_false_iff, N.eqb_neq. tauto.
Qed.

(** An accepted address has no white space, and a character that is
    visible. *)
Lemma valid_email_no_space (s : list N) :
  valid_email s -> Forall (fun c => is_space c = false) s /\ visible s.
Proof.
  intros (a & b & c & -> & Ha & _ & _ & Ha' & Hb' & Hc').
  assert (Hall : forall l, Forall (fun u => not_space_or_at u = true) l ->
                           Forall (fun c => is_space c = false) l).
  { induction 1 as [|u l Hu Hl IH]; constructor; [|exact IH].
    now apply not_space_or_at_facts. }
  split.
  - repeat (apply Forall_app; split); auto; repeat constructor.
  - destruct a as [|x a]; [congruence|]. inversion Ha'; subst.
    apply Exists_cons_hd. now apply not_space_or_at_facts.
Qed.

(** *** [trim] *)

Lemma trim_start_nil (s : list N) :
  trim_start s = [] <-> Forall (fun c => is_space c = true) s.
Proof.
  induction s as [|c s IH]; simpl.
  - split; [constructor | reflexivity].
  - destruct (is_space c) eqn:Hc.
    + rewrite IH. split; [now constructor | now inversion 1].
    + split; [discriminate|]. inversion 1; congruence.
Qed.

Lemma trim_start_suffix (s : list N) :
  trim_start s = [] \/ exists c r, trim_start s = c :: r /\ is_space c = false.
Proof.
  induction s as [|c s IH]; simpl; [auto|].
  destruct (is_space c) eqn:Hc; [exact IH | right; eauto].
Qed.

Lemma visible_or_blank (s : list N) :
  visible s \/ Forall (fun c => is_space c = true) s.
Proof.
  induction s as [|c s [IH | IH]].
  - right. constructor.
  - left. now apply Exists_cons_tl.
  - destruct (is_space c) eqn:Hc.
    + right. now constructor.
    + left. now apply Exists_cons_hd.
Qed.

(** [trim] leaves nothing exactly of the strings that are all white
    space. *)
Lemma trim_empty (s : list N) : is_empty (trim s) = false <-> visible s.
Proof.
  assert (Hnil : trim s = [] <-> Forall (fun c => is_space c = true) s).
  { rewrite <- trim_start_nil. unfold trim.
    destruct (trim_start_suffix s) as [-> | (c & r & -> & Hc)];
      [split; reflexivity|].
    split; [|discriminate]. intros H.
    apply (f_equal (@rev N)) in H. rewrite rev_involutive in H. simpl in H.
    apply trim_start_nil in H. apply Forall_app in H as [_ H].
    inversion H; congruence. }
  unfold visible. rewrite Exists_exists.
  destruct (trim s) as [|c r] eqn:E; simpl.
  - split; [discriminate|]. intros (x & Hin & Hx).
    assert (Hall : Forall (fun c => is_space c = true) s) by now apply Hnil.
    rewrite Forall_forall in Hall. specialize (Hall x Hin). congruence.
  - split; [|reflexivity]. intros _.
    destruct (visible_or_blank s) as [Hv | Hall].
    + unfold visible in Hv. rewrite Exists_exists in Hv. exact Hv.
    + apply Hnil in Hall. discriminate Hall.
Qed.

End RegexFacts.

(** ** The validation of the forms *)

Module FormFacts.
Import JS Browser Forms RegexFacts.

Lemma blank_false (w : World) (x : field) : blank w x = inr false <-> filled x.
Proof.
  unfold filled. destruct x as [|s|t]; cbn [blank].
  - split; [discriminate | intros (s & Hs & _); discriminate Hs].
  - unfold ret. split.
    + intros H. exists s. split; [reflexivity|]. apply trim_empty. congruence.
    + intros (s' & [= <-] & Hv). apply trim_empty in Hv. now rewrite Hv.
  - split; [discriminate | intros (s & Hs & _); discriminate Hs].
Qed.

Lemma blank_trimmable (w : World) (x : field) :
  (trimmable x = true /\ exists b, blank w x = inr b)
  \/ (trimmable x = false
      /\ blank w x = inl (TypeError (type_error_text w "trim"))).
Proof. destruct x; cbn [blank trimmable]; [left | left | right]; eauto. Qed.

Lemma push_if_nil (c : bool) (msg : string) (errors : list string) :
  push_if c msg errors = [] <-> c = false /\ errors = [].
Proof.
  unfold push_if. destruct c.
  - split; [|intros [H _]; discriminate H].
    intros H. apply app_eq_nil in H as [_ H]. discriminate H.
  - tauto.
Qed.

Lemma push_if_In (c : bool) (msg m : string) (errors : list string) :
  In m (push_if c msg errors) <-> In m errors \/ (c = true /\ msg = m).
Proof.
  unfold push_if. destruct c.
  - rewrite in_app_iff. simpl. intuition congruence.
  - intuition congruence.
Qed.

Lemma finish_returns {A} (errors : list string) (data d : A) :
  (finish errors data = (None, inr data) <-> errors = [])
  /\ (snd (finish errors data) = inr d -> errors = []).
Proof.
  unfold finish. destruct errors as [|m errors]; cbn [is_empty].
  - split; [tauto | reflexivity].
  - split; [split; discriminate | discriminate].
Qed.

Lemma finish_refuses {A} (errors : list string) (data : A) :
  errors <> [] ->
  finish errors data
  = (Some ("Validation errors: " ++ String.concat ", " errors),
     inl (Error "Validation failed")).
Proof. destruct errors; [congruence | reflexivity]. Qed.

Lemma email_well_formed (e : list N) :
  visible e -> (email_malformed (Str e) = false <-> valid_email e).
Proof.
  intros Hv. cbn [email_malformed]. rewrite <- emailRegex_test.
  destruct e as [|c e]; [inversion Hv|]. cbn [is_empty negb andb].
  destruct (regex_test emailRegex (c :: e)); cbn [negb]; split; congruence.
Qed.

(** The array [errors] stays empty exactly on a form that is filled
    in. *)
Lemma user_errors_nil (w : World) (data : user_data) :
  user_errors w data = inr []
  <-> filled (username data)
      /\ (exists e, email data = Str e /\ valid_email e)
      /\ filled (full_name data)
      /\ field_truthy (role data) = true.
Proof.
  unfold user_errors.
  destruct (blank w (username data)) as [e1|b1] eqn:E1; cbn [bind].
  { split; [discriminate|]. intros (H & _). apply (blank_false w) in H. congruence. }
  destruct (blank w (email data)) as [e2|b2] eqn:E2; cbn [bind].
  { split; [discriminate|]. intros (_ & (e & He & Hv) & _).
    apply valid_email_no_space in Hv as [_ Hv].
    assert (H : filled (email data)) by (exists e; auto).
    apply (blank_false w) in H. congruence. }
  destruct (blank w (full_name data)) as [e3|b3] eqn:E3; cbn [bind].
  { split; [discriminate|]. intros (_ & _ & H & _).
    apply (blank_false w) in H. congruence. }
  unfold ret. split.
  - intros [= H].
    apply push_if_nil in H as [H5 H]. apply push_if_nil in H as [H4 H].
    apply push_if_nil in H as [H3 H]. apply push_if_nil in H as [H2 H].
    apply push_if_nil in H as [H1 _]. subst b1 b2 b3.
    apply blank_false in E1, E2, E3. apply negb_false_iff in H4.
    destruct E2 as (e & He & Hv). rewrite He in H5.
    apply (email_well_formed e Hv) in H5. eauto 10.
  - intros (H1 & (e & He & Hval) & H3 & H4).
    apply (blank_false w) in H1, H3.
    assert (Hv : visible e) by now apply valid_email_no_space.
    assert (H2 : filled (email data)) by (exists e; auto).
    apply (blank_false w) in H2.
    assert (b1 = false) by congruence. assert (b2 = false) by congruence.
    assert (b3 = false) by congruence. subst b1 b2 b3.
    rewrite H4, He. apply (email_well_formed e Hv) in Hval. rewrite Hval.
    reflexivity.
Qed.

Lemma driver_errors_nil (w : World) (data : driver_data) :
  driver_errors w data = inr []
  <-> filled (driver_ref data) /\ filled (forename data)
      /\ filled (surname data) /\ filled (nationality data)
      /\ field_truthy (dob data) = true.
Proof.
  unfold driver_errors.
  destruct (blank w (driver_ref data)) as [e1|b1] eqn:E1; cbn [bind].
  { split; [discriminate|]. intros (H & _). apply (blank_false w) in H. congruence. }
  destruct (blank w (forename data)) as [e2|b2] eqn:E2; cbn [bind].
  { split; [discriminate|]. intros (_ & H & _).
    apply (blank_false w) in H. congruence. }
  destruct (blank w (surname data)) as [e3|b3] eqn:E3; cbn [bind].
  { split; [discriminate|]. intros (_ & _ & H & _).
    apply (blank_false w) in H. congruence. }
  destruct (blank w (nationality data)) as [e4|b4] eqn:E4; cbn [bind].
  { split; [discriminate|]. intros (_ & _ & _ & H & _).
    apply (blank_false w) in H. congruence. }
  unfold ret. split.
  - intros [= H].
    apply push_if_nil in H as [H5 H]. apply push_if_nil in H as [H4 H].
    apply push_if_nil in H as [H3 H]. apply push_if_nil in H as [H2 H].
    apply push_if_nil in H as [H1 _]. subst b1 b2 b3 b4.
    apply blank_false in E1, E2, E3, E4. apply negb_false_iff in H5. auto.
  - intros (H1 & H2 & H3 & H4 & H5).
    apply (blank_false w) in H1, H2, H3, H4.
    assert (b1 = false) by congruence. assert (b2 = false) by congruence.
    assert (b3 = false) by congruence. assert (b4 = false) by congruence.
    subst b1 b2 b3 b4. rewrite H5. reflexivity.
Qed.

End FormFacts.

Import RegexFacts FormFacts.

(** X18. The [transform] of the user form returns exactly when the
    username and the full name are strings with a character that is no
    white space, a role is chosen, and the email is a string made of a
    local part, an at sign and a domain with a dot inside it, with no white
    space and no second at sign. It then returns the data it was given,
    untrimmed, and notifies nothing; it returns in no other way. *)
Theorem user_transform_accepts (w : World) (data : Forms.user_data) :
  (Forms.user_transform w data = (None, inr data)
   <-> Forms.filled (Forms.username data)
       /\ (exists e, Forms.email data = Forms.Str e /\ Forms.valid_email e)
       /\ Forms.filled (Forms.full_name data)
       /\ Forms.field_truthy (Forms.role data) = true)
  /\ (forall d, snd (Forms.user_transform w data) = inr d ->
      Forms.user_transform w data = (None, inr data)).
Proof.
  rewrite <- (user_errors_nil w). unfold Forms.user_transform.
  destruct (Forms.user_errors w data) as [e|errors].
  - split; [split; discriminate | discriminate].
  - split.
    + rewrite (proj1 (finish_returns errors data data)). split; congruence.
    + intros d H. apply finish_returns in H. now subst errors.
Qed.

Lemma user_transform_accepts_witness :
  Forms.user_transform (Fixtures.world Fixtures.unreachable)
    {| Forms.username := Forms.Str (Fixtures.units "alice");
       Forms.email := Forms.Str (Fixtures.units "alice@example.com");
       Forms.full_name := Forms.Str (Fixtures.units "Alice");
       Forms.role := Forms.Str (Fixtures.units "user") |}
  = (None,
     inr {| Forms.username := Forms.Str (Fixtures.units "alice");
            Forms.email := Forms.Str (Fixtures.units "alice@example.com");
            Forms.full_name := Forms.Str (Fixtures.units "Alice");
            Forms.role := Forms.Str (Fixtures.units "user") |}).
Proof.
  apply (proj1 (user_transform_accepts _ _)). cbn [Forms.username Forms.email
    Forms.full_name Forms.role].
  split; [|split; [|split]].
  - exists (Fixtures.units "alice"). split; [reflexivity|].
    apply Exists_cons_hd. reflexivity.
  - exists (Fixtures.units "alice@example.com"). split; [reflexivity|].
    exists (Fixtures.units "alice"), (Fixtures.units "example"), (Fixtures.units "com").
    split; [reflexivity|].
    split; [discriminate|]. split; [discriminate|]. split; [discriminate|].
    split; [|split]; repeat constructor.
  - exists (Fixtures.units "Alice"). split; [reflexivity|].
    apply Exists_cons_hd. reflexivity.
  - reflexivity.
Defined.

(** X19. When the [transform] of the user form does not return, and the
    username, the email and the full name are strings or absent, at least
    one message was collected, the user is notified of all of them and
    [Error('Validation failed')] is thrown. When one of the three is a
    value of another kind, a [TypeError] leaves the transform instead and
    nothing is notified, whatever else is wrong with the form. *)
Theorem user_transform_refuses (w : World) (data : Forms.user_data) :
  Forms.user_transform w data <> (None, inr data) ->
  if Forms.trimmable (Forms.username data) && Forms.trimmable (Forms.email data)
     && Forms.trimmable (Forms.full_name data)
  then exists errors,
         errors <> []
         /\ Forms.user_errors w data = inr errors
         /\ Forms.user_transform w data
            = (Some ("Validation errors: " ++ String.concat ", " errors),
               inl (Error "Validation failed"))
  else Forms.user_transform w data
       = (None, inl (TypeError (type_error_text w "trim"))).
Proof.
  intros Hno. unfold Forms.user_transform in *.
  destruct (blank_trimmable w (Forms.username data)) as [[T1 [b1 B1]] | [T1 B1]];
    rewrite T1; cbn [andb];
    [|unfold Forms.user_errors; rewrite B1; reflexivity].
  destruct (blank_trimmable w (Forms.email data)) as [[T2 [b2 B2]] | [T2 B2]];
    rewrite T2; cbn [andb];
    [|unfold Forms.user_errors; rewrite B1; cbn [bind]; rewrite B2; reflexivity].
  destruct (blank_trimmable w (Forms.full_name data)) as [[T3 [b3 B3]] | [T3 B3]];
    rewrite T3;
    [|unfold Forms.user_errors; rewrite B1; cbn [bind]; rewrite B2; cbn [bind];
      rewrite B3; reflexivity].
  destruct (Forms.user_errors w data) as [e|errors] eqn:E.
  - unfold Forms.user_errors in E. rewrite B1 in E. cbn [bind] in E.
    rewrite B2 in E. cbn [bind] in E. rewrite B3 in E. discriminate E.
  - assert (Hne : errors <> []) by (intros ->; now apply Hno).
    exists errors. split; [exact Hne|]. split; [reflexivity|].
    now apply finish_refuses.
Qed.

Lemma user_transform_refuses_witness :
  exists errors,
    errors <> []
    /\ Forms.user_errors (Fixtures.world Fixtures.unreachable)
         {| Forms.username := Forms.Str (Fixtures.units "  ");
            Forms.email := Forms.Str (Fixtures.units "alice@example.com");
            Forms.full_name := Forms.Nullish;
            Forms.role := Forms.Str (Fixtures.units "user") |} = inr errors
    /\ Forms.user_transform (Fixtures.world Fixtures.unreachable)
         {| Forms.username := Forms.Str (Fixtures.units "  ");
            Forms.email := Forms.Str (Fixtures.units "alice@example.com");
            Forms.full_name := Forms.Nullish;
            Forms.role := Forms.Str (Fixtures.units "user") |}
       = (Some ("Validation errors: " ++ String.concat ", " errors),
          inl (Error "Validation failed")).
Proof.
  apply (user_transform_refuses (Fixtures.world Fixtures.unreachable)
           {| Forms.username := Forms.Str (Fixtures.units "  ");
              Forms.email := Forms.Str (Fixtures.units "alice@example.com");
              Forms.full_name := Forms.Nullish;
              Forms.role := Forms.Str (Fixtures.units "user") |}).
  vm_compute. discriminate.
Defined.

(** X20. The email is tested as it was typed, not trimmed: an address
    with white space anywhere, also only at one of its ends, is refused as
    not valid; and an email of white space only is reported twice, as
    required and as not valid. *)
Theorem email_checked_untrimmed (w : World) (data : Forms.user_data) (e : list N) :
  Forms.email data = Forms.Str e ->
  Exists (fun c => Forms.is_space c = true) e ->
  Forms.trimmable (Forms.username data) = true ->
  Forms.trimmable (Forms.full_name data) = true ->
  exists errors,
    Forms.user_errors w data = inr errors
    /\ In "Please enter a valid email address" errors
    /\ (~ Forms.visible e -> In "Email is required" errors)
    /\ Forms.user_transform w data
       = (Some ("Validation errors: " ++ String.concat ", " errors),
          inl (Error "Validation failed")).
Proof.
  intros He Hsp T1 T3.
  destruct (blank_trimmable w (Forms.username data)) as [[_ [b1 B1]] | [T _]];
    [|congruence].
  destruct (blank_trimmable w (Forms.full_name data)) as [[_ [b3 B3]] | [T _]];
    [|congruence].
  assert (Hbad : Forms.email_malformed (Forms.Str e) = true).
  { cbn [Forms.email_malformed].
    destruct e as [|c e]; [inversion Hsp|]. cbn [Forms.is_empty negb andb].
    destruct (Forms.regex_test Forms.emailRegex (c :: e)) eqn:Ht; [|reflexivity].
    apply emailRegex_test, valid_email_no_space in Ht as [Hall _].
    apply Exists_exists in Hsp as (x & Hin & Hx).
    rewrite Forall_forall in Hall. specialize (Hall x Hin). congruence. }
  unfold Forms.user_transform, Forms.user_errors.
  rewrite B1, He. cbn [bind Forms.blank ret]. rewrite B3. cbn [bind]. rewrite Hbad.
  eexists. split; [reflexivity|].
  match goal with |- In _ ?l /\ _ => set (errors := l) end.
  assert (Hin : In "Please enter a valid email address" errors).
  { unfold errors. apply push_if_In. right. split; reflexivity. }
  split; [exact Hin|]. split.
  - intros Hv. unfold errors. rewrite !push_if_In. left. left. left. right.
    split; [|reflexivity].
    destruct (Forms.is_empty (Forms.trim e)) eqn:Ht; [reflexivity|].
    now apply trim_empty in Ht.
  - apply finish_refuses. intros Hnil. rewrite Hnil in Hin. exact Hin.
Qed.

Lemma email_checked_untrimmed_witness :
  exists errors,
    Forms.user_errors (Fixtures.world Fixtures.unreachable)
      {| Forms.username := Forms.Str (Fixtures.units "alice");
         Forms.email := Forms.Str (Fixtures.units "alice@example.com ");
         Forms.full_name := Forms.Str (Fixtures.units "Alice");
         Forms.role := Forms.Str (Fixtures.units "user") |} = inr errors
    /\ In "Please enter a valid email address" errors.
Proof.
  destruct (email_checked_untrimmed (Fixtures.world Fixtures.unreachable)
              {| Forms.username := Forms.Str (Fixtures.units "alice");
                 Forms.email := Forms.Str (Fixtures.units "alice@example.com ");
                 Forms.full_name := Forms.Str (Fixtures.units "Alice");
                 Forms.role := Forms.Str (Fixtures.units "user") |}
              (Fixtures.units "alice@example.com ") eq_refl
              ltac:(vm_compute;
                    repeat first [apply Exists_cons_hd; reflexivity
                                 | apply Exists_cons_tl])
              eq_refl eq_refl) as (errors & H1 & H2 & _).
  exists errors. split; assumption.
Defined.

(** X21. The [transform] of the driver form returns exactly when the
    reference, the two names and the nationality are strings with a
    character that is no white space and a date of birth is given; it then
    returns the data it was given and notifies nothing. Otherwise it
    notifies the messages it collected and throws
    [Error('Validation failed')], unless one of the four is neither a
    string nor absent, when a [TypeError] leaves it. *)
Theorem driver_transform_outcomes (w : World) (data : Forms.driver_data) :
  (Forms.driver_transform w data = (None, inr data)
   <-> Forms.filled (Forms.driver_ref data) /\ Forms.filled (Forms.forename data)
       /\ Forms.filled (Forms.surname data) /\ Forms.filled (Forms.nationality data)
       /\ Forms.field_truthy (Forms.dob data) = true)
  /\ (forall d, snd (Forms.driver_transform w data) = inr d ->
      Forms.driver_transform w data = (None, inr data))
  /\ (Forms.driver_transform w data <> (None, inr data) ->
      if Forms.trimmable (Forms.driver_ref data)
         && Forms.trimmable (Forms.forename data)
         && Forms.trimmable (Forms.surname data)
         && Forms.trimmable (Forms.nationality data)
      then exists errors,
             errors <> []
             /\ Forms.driver_errors w data = inr errors
             /\ Forms.driver_transform w data
                = (Some ("Validation errors: " ++ String.concat ", " errors),
                   inl (Error "Validation failed"))
      else Forms.driver_transform w data
           = (None, inl (TypeError (type_error_text w "trim")))).
Proof.
  rewrite <- (driver_errors_nil w). unfold Forms.driver_transform.
  split; [|split].
  - destruct (Forms.driver_errors w data) as [e|errors].
    + split; discriminate.
    + rewrite (proj1 (finish_returns errors data data)). split; congruence.
  - destruct (Forms.driver_errors w data) as [e|errors]; [discriminate|].
    intros d H. apply finish_returns in H. now subst errors.
  - intros Hno.
    destruct (blank_trimmable w (Forms.driver_ref data)) as [[T1 [b1 B1]] | [T1 B1]];
      rewrite T1; cbn [andb];
      [|unfold Forms.driver_errors; rewrite B1; reflexivity].
    destruct (blank_trimmable w (Forms.forename data)) as [[T2 [b2 B2]] | [T2 B2]];
      rewrite T2; cbn [andb];
      [|unfold Forms.driver_errors; rewrite B1; cbn [bind]; rewrite B2;
        reflexivity].
    destruct (blank_trimmable w (Forms.surname data)) as [[T3 [b3 B3]] | [T3 B3]];
      rewrite T3; cbn [andb];
      [|unfold Forms.driver_errors; rewrite B1; cbn [bind]; rewrite B2;
        cbn [bind]; rewrite B3; reflexivity].
    destruct (blank_trimmable w (Forms.nationality data)) as [[T4 [b4 B4]] | [T4 B4]];
      rewrite T4;
      [|unfold Forms.driver_errors; rewrite B1; cbn [bind]; rewrite B2;
        cbn [bind]; rewrite B3; cbn [bind]; rewrite B4; reflexivity].
    destruct (Forms.driver_errors w data) as [e|errors] eqn:E.
    + unfold Forms.driver_errors in E. rewrite B1 in E. cbn [bind] in E.
      rewrite B2 in E. cbn [bind] in E. rewrite B3 in E. cbn [bind] in E.
      rewrite B4 in E. discriminate E.
    + assert (Hne : errors <> []) by (intros ->; now apply Hno).
      exists errors. split; [exact Hne|]. split; [reflexivity|].
      now apply finish_refuses.
Qed.

Lemma driver_transform_outcomes_witness :
  Forms.driver_transform (Fixtures.world Fixtures.unreachable)
    {| Forms.driver_ref := Forms.Str (Fixtures.units "hamilton");
       Forms.forename := Forms.Str (Fixtures.units "Lewis");
       Forms.surname := Forms.Str (Fixtures.units " ");
       Forms.nationality := Forms.Str (Fixtures.units "British");
       Forms.dob := Forms.Nullish |}
  = (Some "Validation errors: Last name is required, Date of birth is required",
     inl (Error "Validation failed")).
Proof.
  destruct (proj2 (proj2 (driver_transform_outcomes
                            (Fixtures.world Fixtures.unreachable)
                            {| Forms.driver_ref := Forms.Str (Fixtures.units "hamilton");
                               Forms.forename := Forms.Str (Fixtures.units "Lewis");
                               Forms.surname := Forms.Str (Fixtures.units " ");
                               Forms.nationality := Forms.Str (Fixtures.units "British");
                               Forms.dob := Forms.Nullish |}))
              ltac:(vm_compute; discriminate)) as (errors & _ & [= <-] & H).
  exact H.
Defined.

Lemma static_getPermissions_setItem (w : World) (fields : list (string * value))
    (st : gmap string string) :
  fst (Static.getPermissions w (setItem "auth" (JSON_stringify_object fields) st))
  = inr (Resolved (recorded (lookup_member "role" (object_literal fields)))).
Proof.
  unfold Static.getPermissions, getItem, setItem. rewrite lookup_insert_eq.
  unfold JSON_stringify_object. rewrite nonempty_stringify.
  unfold parse. rewrite JSON_parse_stringify, as_stored_object.
  cbn [fst bind ret prop get]. now rewrite lookup_stored_members.
Qed.

(** X22. Who gets the save toolbar of the user form, which is shown when
    the permissions are the string [admin]. Under the static provider
    every login that succeeds gets it. Under the enhanced provider, after
    a login through the fallback list, only the username [admin] gets
    it. *)
Theorem user_toolbar_after_login (w : World) (username password : string)
    (st : gmap string string) :
  (fst (Static.login username password st) = Resolved tt ->
   exists permissions,
     fst (Static.getPermissions w (snd (Static.login username password st)))
     = inr (Resolved permissions)
     /\ Forms.isAdmin permissions = true)
  /\ (forall apiError,
      Enhanced.login_api w username password st = inl apiError ->
      fst (Enhanced.login w username password st) = Resolved tt ->
      exists permissions,
        fst (Enhanced.getPermissions w (snd (Enhanced.login w username password st)))
        = Resolved permissions
        /\ (Forms.isAdmin permissions = true <-> username = "admin")).
Proof.
  split.
  - unfold Static.login. destruct (Static.isValid username password);
      [|discriminate]. intros _. cbn [snd].
    rewrite static_getPermissions_setItem. eexists. split; reflexivity.
  - intros apiError Hapi. unfold Enhanced.login. rewrite Hapi.
    destruct (Enhanced.find_static username password) as [staticUser|] eqn:Hfind;
      [|discriminate].
    intros _. cbn [snd].
    rewrite getPermissions_eq, record_setItem, field_setItem, static_role.
    eexists. split; [reflexivity|]. cbn [recorded as_stored Forms.isAdmin].
    apply find_some in Hfind as [Hin Hmatch].
    apply andb_true_iff in Hmatch as [Hu _]. apply String.eqb_eq in Hu.
    subst username. rewrite String.eqb_eq.
    simpl in Hin. destruct Hin as [<- | [<- | [<- | []]]]; simpl;
      split; congruence.
Qed.

Lemma user_toolbar_after_login_witness :
  exists permissions,
    fst (Enhanced.getPermissions (Fixtures.world Fixtures.unreachable)
           (snd (Enhanced.login (Fixtures.world Fixtures.unreachable)
                   "user" "user123" ∅)))
    = Resolved permissions
    /\ (Forms.isAdmin permissions = true <-> "user" = "admin").
Proof.
  exact (proj2 (user_toolbar_after_login (Fixtures.world Fixtures.unreachable)
                  "user" "user123" ∅)
           (TypeError "Failed to fetch") eq_refl eq_refl).
Defined.

(** ** The chart of the constructors *)

Module DashboardFacts.
Import JS Browser Dashboard.

Lemma mem_In (k : string) (ks : list string) : mem k ks = true <-> In k ks.
Proof.
  unfold mem. rewrite existsb_exists. split.
  - intros (k' & Hin & Heq). apply String.eqb_eq in Heq. now subst.
  - intros Hin. exists k. split; [exact Hin | apply String.eqb_refl].
Qed.

Lemma In_first_seen (k : string) (ks : list string) :
  In k (first_seen ks) <-> In k ks.
Proof.
  induction ks as [|a ks IH]; simpl; [tauto|].
  rewrite filter_In, IH, negb_true_iff, String.eqb_neq.
  destruct (String.eqb_spec a k); intuition congruence.
Qed.

Lemma NoDup_first_seen (ks : list string) : List.NoDup (first_seen ks).
Proof.
  induction ks as [|a ks IH]; simpl; constructor.
  - rewrite filter_In, negb_true_iff, String.eqb_neq. tauto.
  - now apply List.NoDup_filter.
Qed.

Lemma first_seen_snoc (ks : list string) (k : string) :
  first_seen (ks ++ [k])
  = if mem k ks then first_seen ks else (first_seen ks ++ [k])%list.
Proof.
  induction ks as [|a ks IH]; simpl; [reflexivity|].
  rewrite IH. unfold mem in *. simpl.
  destruct (String.eqb_spec k a) as [->|Hne]; simpl.
  - destruct (existsb (String.eqb a) ks); [reflexivity|].
    rewrite List.filter_app. simpl. rewrite String.eqb_refl. simpl.
    now rewrite app_nil_r.
  - destruct (existsb (String.eqb k) ks); [reflexivity|].
    rewrite List.filter_app. simpl.
    destruct (String.eqb_spec k a); [congruence|]. reflexivity.
Qed.

Lemma rows_of_snoc (k : string) (p : list ConstructorData) (r : ConstructorData) :
  rows_of k (p ++ [r])
  = (rows_of k p ++ if String.eqb (constructor r) k then [r] else [])%list.
Proof.
  unfold rows_of. rewrite List.filter_app. simpl.
  now destruct (String.eqb (constructor r) k).
Qed.

Lemma rows_of_absent (k : string) (p : list ConstructorData) :
  mem k (map constructor p) = false -> rows_of k p = [].
Proof.
  unfold mem, rows_of. induction p as [|r p IH]; simpl; [reflexivity|].
  rewrite orb_false_iff. intros [Hr Hp]. rewrite String.eqb_sym, Hr. auto.
Qed.

Lemma own_map (f : string -> group) (k : string) (l : list string) :
  own k (map (fun k' => (k', f k')) l) = if mem k l then Some (f k) else None.
Proof.
  unfold mem. induction l as [|a l IH]; simpl; [reflexivity|].
  destruct (String.eqb_spec k a) as [->|Hne]; simpl; [reflexivity | exact IH].
Qed.

Lemma mem_first_seen (k : string) (ks : list string) :
  mem k (first_seen ks) = mem k ks.
Proof.
  destruct (mem k ks) eqn:H.
  - apply (proj1 (mem_In _ _)) in H.
    apply (proj2 (mem_In _ _)), (proj2 (In_first_seen _ _)), H.
  - destruct (mem k (first_seen ks)) eqn:H'; [|reflexivity].
    apply (proj1 (mem_In _ _)) in H'. apply (proj1 (In_first_seen _ _)) in H'.
    apply (proj2 (mem_In k ks)) in H'. congruence.
Qed.

Lemma own_groups (k : string) (p : list ConstructorData) :
  own k (groups p)
  = if mem k (map constructor p) then Some (group_of p k) else None.
Proof. unfold groups. now rewrite own_map, mem_first_seen. Qed.

Lemma update_map (f : string -> group) (h : group -> group) (k : string)
    (l : list string) :
  List.NoDup l ->
  update k h (map (fun k' => (k', f k')) l)
  = map (fun k' => (k', if String.eqb k k' then h (f k') else f k')) l.
Proof.
  induction 1 as [|a l Ha Hl IH]; simpl; [reflexivity|].
  destruct (String.eqb_spec k a) as [->|Hne].
  - f_equal. apply map_ext_in. intros k' Hin.
    destruct (String.eqb_spec a k'); [congruence | reflexivity].
  - f_equal. exact IH.
Qed.

(** A turn of the [forEach] on a row whose name is not inherited. *)
Lemma add_row_groups (w : World) (p : list ConstructorData) (r : ConstructorData) :
  inherited (constructor r) = false ->
  add_row w (groups p) r = inr (groups (p ++ [r])).
Proof.
  intros Hinh. unfold add_row. rewrite Hinh.
  set (k := constructor r).
  set (l := first_seen (map constructor (p ++ [r]))).
  assert (Hpre : match own k (groups p) with
                 | Some _ => groups p
                 | None => (groups p ++ [(k, {| x := []; y := [] |})])%list
                 end = map (fun k' => (k', group_of p k')) l).
  { rewrite own_groups. unfold groups, l. rewrite map_app. cbn [map].
    rewrite first_seen_snoc. fold k. destruct (mem k (map constructor p)) eqn:Hm; [reflexivity|].
    rewrite map_app. simpl. unfold group_of at 3.
    now rewrite (rows_of_absent k p Hm). }
  rewrite Hpre. clear Hpre.
  assert (Hl : List.NoDup l) by apply NoDup_first_seen.
  assert (Hk : mem k l = true).
  { apply mem_In, In_first_seen. rewrite map_app. apply in_or_app. right.
    now left. }
  unfold push_to. rewrite own_map, Hk. cbn [bind ret].
  rewrite (update_map _ _ k l Hl), own_map, Hk.
  rewrite (update_map _ _ k l Hl). f_equal. unfold groups. fold l.
  apply map_ext. intros k'. f_equal. unfold group_of.
  rewrite rows_of_snoc, !map_app. fold k.
  destruct (String.eqb k k'); simpl; [reflexivity|].
  now rewrite !app_nil_r.
Qed.

Lemma forEach_groups (w : World) (rows : list ConstructorData) :
  Forall (fun r => inherited (constructor r) = false) rows ->
  forall p, forEach w rows (groups p) = inr (groups (p ++ rows)).
Proof.
  induction 1 as [|r rows Hr Hrows IH]; intros p; simpl.
  - now rewrite app_nil_r.
  - rewrite (add_row_groups w p r Hr). cbn [bind].
    rewrite IH, <- app_assoc. reflexivity.
Qed.

Lemma forEach_app (w : World) (a b : list ConstructorData) (o : object) :
  forEach w (a ++ b) o = (o' <- forEach w a o ;; forEach w b o').
Proof.
  revert o. induction a as [|r a IH]; intros o; simpl; [reflexivity|].
  destruct (add_row w o r); cbn [bind]; [reflexivity | apply IH].
Qed.

Lemma first_inherited (rows : list ConstructorData) :
  Exists (fun r => inherited (constructor r) = true) rows ->
  exists a r b,
    rows = (a ++ r :: b)%list
    /\ Forall (fun r => inherited (constructor r) = false) a
    /\ inherited (constructor r) = true.
Proof.
  induction rows as [|r rows IH]; intros H; [inversion H|].
  destruct (inherited (constructor r)) eqn:Hr.
  - exists [], r, rows. auto.
  - inversion H as [? ? Hr'|? ? Hrows]; subst; [congruence|].
    destruct (IH Hrows) as (a & r' & b & -> & Ha & Hr').
    exists (r :: a), r', b. auto.
Qed.

Lemma inherited_or_not (rows : list ConstructorData) :
  Exists (fun r => inherited (constructor r) = true) rows
  \/ Forall (fun r => inherited (constructor r) = false) rows.
Proof.
  induction rows as [|r rows [IH | IH]].
  - right. constructor.
  - left. now apply Exists_cons_tl.
  - destruct (inherited (constructor r)) eqn:Hr.
    + left. now apply Exists_cons_hd.
    + right. now constructor.
Qed.

Lemma forEach_throws (w : World) (rows : list ConstructorData) :
  Exists (fun r => inherited (constructor r) = true) rows ->
  forEach w rows [] = inl (TypeError (type_error_text w "push")).
Proof.
  intros H. destruct (first_inherited rows H) as (a & r & b & -> & Ha & Hr).
  rewrite forEach_app. change (@nil (string * group)) with (groups []).
  rewrite (forEach_groups w a Ha). cbn [bind app forEach].
  assert (Hm : mem (constructor r) (map constructor a) = false).
  { destruct (mem (constructor r) (map constructor a)) eqn:Hm; [|reflexivity].
    apply mem_In, in_map_iff in Hm as (r' & Heq & Hin).
    rewrite List.Forall_forall in Ha. specialize (Ha r' Hin). congruence. }
  unfold add_row. rewrite own_groups, Hm, Hr. unfold push_to.
  rewrite own_groups, Hm. reflexivity.
Qed.

(** *** The greatest of the points *)

Lemma Qle_bool_trans (a b c : number) :
  QArith_base.Qle_bool a b = true -> QArith_base.Qle_bool b c = true ->
  QArith_base.Qle_bool a c = true.
Proof.
  rewrite !QArith_base.Qle_bool_iff. apply QArith_base.Qle_trans.
Qed.

Lemma Qle_bool_total (a b : number) :
  QArith_base.Qle_bool a b = false -> QArith_base.Qle_bool b a = true.
Proof.
  intros H. apply QArith_base.Qle_bool_iff, QArith_base.Qlt_le_weak.
  apply QArith_base.Qnot_le_lt. intros Hle.
  apply QArith_base.Qle_bool_iff in Hle. congruence.
Qed.

Lemma gt_Math_max (l : list number) (b : number) :
  gt (Math_max l) b = existsb (fun v => negb (QArith_base.Qle_bool v b)) l.
Proof.
  unfold Math_max.
  set (f := fun (acc : option number) v =>
              match acc with
              | None => Some v
              | Some a => if QArith_base.Qle_bool a v then Some v else Some a
              end).
  assert (H : forall acc,
             gt (fold_left f l acc) b
             = gt acc b || existsb (fun v => negb (QArith_base.Qle_bool v b)) l).
  { induction l as [|v l IH]; intros acc; simpl; [now rewrite orb_false_r|].
    rewrite IH. destruct acc as [a|]; simpl; [|reflexivity].
    rewrite orb_assoc. f_equal.
    destruct (QArith_base.Qle_bool a v) eqn:Hav; simpl.
    - destruct (QArith_base.Qle_bool v b) eqn:Hvb; simpl.
      + now rewrite (Qle_bool_trans a v b Hav Hvb).
      + now rewrite orb_true_r.
    - destruct (QArith_base.Qle_bool a b) eqn:Hab; simpl; [|reflexivity].
      now rewrite (Qle_bool_trans v a b (Qle_bool_total a v Hav) Hab). }
  apply H.
Qed.

Lemma existsb_map_compose {A B} (f : A -> B) (g : B -> bool) (l : list A) :
  existsb g (map f l) = existsb (fun a => g (f a)) l.
Proof. induction l as [|a l IH]; simpl; [reflexivity | now rewrite IH]. Qed.

Lemma competitive_gt (rows : list ConstructorData) (k : string) :
  gt (Math_max (y (group_of rows k))) two_hundred = competitive rows k.
Proof.
  rewrite gt_Math_max. unfold competitive, group_of. cbn [y].
  apply (existsb_map_compose total_points
           (fun v => negb (QArith_base.Qle_bool v two_hundred))).
Qed.

(** *** The order of the keys *)

Lemma insert_index_perm (n : N) (k : string) (l : list (N * string)) :
  Permutation (insert_index n k l) ((n, k) :: l).
Proof.
  induction l as [|[n' k'] l IH]; simpl; [reflexivity|].
  destruct (n <=? n')%N; [reflexivity|].
  rewrite IH. apply perm_swap.
Qed.

Lemma index_keys_perm (l : list string) :
  Permutation (map snd (index_keys l)) (List.filter is_index l).
Proof.
  induction l as [|k l IH]; simpl; [reflexivity|].
  unfold is_index at 1. destruct (array_index k) as [n|]; [|exact IH].
  rewrite insert_index_perm. simpl. now rewrite IH.
Qed.

Lemma filter_partition_perm {A} (f : A -> bool) (l : list A) :
  Permutation (List.filter f l ++ List.filter (fun a => negb (f a)) l) l.
Proof.
  induction l as [|a l IH]; simpl; [reflexivity|].
  destruct (f a); simpl.
  - now rewrite IH.
  - rewrite <- Permutation_middle. now rewrite IH.
Qed.

Lemma key_order_perm (l : list string) : Permutation (key_order l) l.
Proof.
  unfold key_order. rewrite index_keys_perm. apply filter_partition_perm.
Qed.

Lemma key_order_plain (l : list string) :
  Forall (fun k => is_index k = false) l -> key_order l = l.
Proof.
  intros H. unfold key_order.
  assert (H1 : index_keys l = []).
  { induction H as [|k l Hk Hl IH]; simpl; [reflexivity|].
    unfold is_index in Hk. now destruct (array_index k). }
  assert (H2 : List.filter (fun k => negb (is_index k)) l = l).
  { induction H as [|k l Hk Hl IH]; simpl; [reflexivity|].
    rewrite Hk. simpl. f_equal. apply IH.
    simpl in H1. unfold is_index in Hk. now destruct (array_index k). }
  now rewrite H1, H2.
Qed.

(** *** The chain after the [forEach] *)

Lemma filterM_ret {A} (f : A -> M bool) (g : A -> bool) (l : list A) :
  (forall a, In a l -> f a = inr (g a)) ->
  filterM f l = inr (List.filter g l).
Proof.
  induction l as [|a l IH]; intros H; simpl; [reflexivity|].
  rewrite (H a (or_introl eq_refl)). cbn [bind].
  rewrite IH by (intros a' Ha'; apply H; now right). reflexivity.
Qed.

Lemma mapM_ret {A B} (f : A -> M B) (g : A -> B) (l : list A) :
  (forall a, In a l -> f a = inr (g a)) ->
  mapM f l = inr (map g l).
Proof.
  induction l as [|a l IH]; intros H; simpl; [reflexivity|].
  rewrite (H a (or_introl eq_refl)). cbn [bind].
  rewrite IH by (intros a' Ha'; apply H; now right). reflexivity.
Qed.

Lemma In_firstn {A} (n : nat) (a : A) (l : list A) :
  In a (firstn n l) -> In a l.
Proof.
  revert l. induction n as [|n IH]; intros [|b l]; simpl; try tauto.
  intros [H | H]; auto.
Qed.

Lemma NoDup_firstn {A} (n : nat) (l : list A) :
  List.NoDup l -> List.NoDup (firstn n l).
Proof.
  revert l. induction n as [|n IH]; intros l H; simpl; [constructor|].
  destruct H as [|a l Ha Hl]; constructor; [|now apply IH].
  intros Hin. apply Ha. now apply In_firstn in Hin.
Qed.

Lemma entry_groups (w : World) (rows : list ConstructorData) (k : string) :
  In k (map constructor rows) ->
  entry w k (groups rows) = inr (group_of rows k).
Proof.
  intros H. apply mem_In in H. unfold entry. now rewrite own_groups, H.
Qed.

(** The names the chart keeps, in its order. *)
Lemma shown_names_facts (rows : list ConstructorData) (k : string) :
  In k (firstn 6 (List.filter (competitive rows)
                    (key_order (first_seen (map constructor rows))))) ->
  In k (map constructor rows) /\ competitive rows k = true.
Proof.
  intros H. apply In_firstn, filter_In in H as [H Hc]. split; [|exact Hc].
  apply (Permutation_in _ (key_order_perm _)) in H.
  exact (proj1 (In_first_seen _ _) H).
Qed.

(** The whole chain, when no name is inherited. *)
Lemma plotData_eq (w : World) (rows : list ConstructorData) :
  Forall (fun r => inherited (constructor r) = false) rows ->
  plotData w rows
  = inr (map (series_of rows)
           (firstn 6 (List.filter (competitive rows)
                        (key_order (first_seen (map constructor rows)))))).
Proof.
  intros H. unfold plotData.
  change (@nil (string * group)) with (groups []).
  rewrite (forEach_groups w rows H []). cbn [bind app].
  assert (Hkeys : Object_keys (groups rows)
                  = key_order (first_seen (map constructor rows))).
  { unfold Object_keys, groups. rewrite map_map. simpl. now rewrite map_id. }
  rewrite Hkeys.
  rewrite (filterM_ret _ (competitive rows)).
  - cbn [bind]. apply mapM_ret. intros k Hk.
    apply shown_names_facts in Hk as [Hk _].
    rewrite (entry_groups w rows k Hk). reflexivity.
  - intros k Hk. apply (Permutation_in _ (key_order_perm _)) in Hk.
    apply (proj1 (In_first_seen _ _)) in Hk. rewrite (entry_groups w rows k Hk). cbn [bind].
    now rewrite competitive_gt.
Qed.

Lemma plotData_throws (w : World) (rows : list ConstructorData) :
  Exists (fun r => inherited (constructor r) = true) rows ->
  plotData w rows = inl (TypeError (type_error_text w "push")).
Proof. intros H. unfold plotData. now rewrite (forEach_throws w rows H). Qed.

End DashboardFacts.

Import DashboardFacts.

(** X23. Whenever [plotData] is computed, it has at most six traces, no
    two of them for the same constructor; each trace is named after a
    constructor of the data, holds exactly the years and the points of
    that constructor's rows, in the order of the data, and has more than
    200 points in some row. *)
Theorem plotData_series (w : World) (rows : list Dashboard.ConstructorData)
    (series : list Dashboard.trace) :
  Dashboard.plotData w rows = inr series ->
  length series <= 6
  /\ List.NoDup (map Dashboard.plot_name series)
  /\ Forall (fun s =>
               In (Dashboard.plot_name s) (map Dashboard.constructor rows)
               /\ s = Dashboard.series_of rows (Dashboard.plot_name s)
               /\ Exists (fun v => QArith_base.Qlt Dashboard.two_hundred v)
                         (Dashboard.plot_y s)) series.
Proof.
  intros Hplot.
  destruct (inherited_or_not rows) as [Hinh | Hplain].
  { rewrite (plotData_throws w rows Hinh) in Hplot. discriminate Hplot. }
  rewrite (plotData_eq w rows Hplain) in Hplot. injection Hplot as <-.
  set (names := firstn 6 _).
  assert (Hnames : map Dashboard.plot_name (map (Dashboard.series_of rows) names)
                   = names).
  { rewrite map_map. simpl. apply map_id. }
  split; [|split].
  - rewrite length_map. unfold names. rewrite length_take. lia.
  - rewrite Hnames. unfold names.
    apply NoDup_firstn, List.NoDup_filter.
    apply (Permutation_NoDup (Permutation_sym (key_order_perm _))).
    apply NoDup_first_seen.
  - apply List.Forall_forall. intros s Hs.
    apply in_map_iff in Hs as (k & <- & Hk). cbn [Dashboard.series_of
      Dashboard.plot_name Dashboard.plot_y].
    apply shown_names_facts in Hk as [Hk Hc].
    split; [exact Hk|]. split; [reflexivity|].
    unfold Dashboard.competitive in Hc.
    apply existsb_exists in Hc as (item & Hin & Hgt).
    apply List.Exists_exists. exists (Dashboard.total_points item).
    split; [now apply in_map|].
    apply QArith_base.Qnot_le_lt. intros Hle.
    apply QArith_base.Qle_bool_iff in Hle. rewrite Hle in Hgt. discriminate Hgt.
Qed.

Lemma plotData_series_witness :
  length [Dashboard.series_of
            [ {| Dashboard.constructor := "Ferrari";
                 Dashboard.year := QArith_base.Qmake 2004 1;
                 Dashboard.total_points := QArith_base.Qmake 262 1 |};
              {| Dashboard.constructor := "Minardi";
                 Dashboard.year := QArith_base.Qmake 2004 1;
                 Dashboard.total_points := QArith_base.Qmake 1 1 |};
              {| Dashboard.constructor := "Ferrari";
                 Dashboard.year := QArith_base.Qmake 2005 1;
                 Dashboard.total_points := QArith_base.Qmake 100 1 |} ]
            "Ferrari"] <= 6.
Proof.
  exact (proj1 (plotData_series (Fixtures.world Fixtures.unreachable)
                  [ {| Dashboard.constructor := "Ferrari";
                       Dashboard.year := QArith_base.Qmake 2004 1;
                       Dashboard.total_points := QArith_base.Qmake 262 1 |};
                    {| Dashboard.constructor := "Minardi";
                       Dashboard.year := QArith_base.Qmake 2004 1;
                       Dashboard.total_points := QArith_base.Qmake 1 1 |};
                    {| Dashboard.constructor := "Ferrari";
                       Dashboard.year := QArith_base.Qmake 2005 1;
                       Dashboard.total_points := QArith_base.Qmake 100 1 |} ]
                  _ eq_refl)).
Defined.

(** X24. When no constructor is named like a property of
    [Object.prototype] or like an array index, the traces are those of
    the first six constructors, in the order of their first row, that have
    more than 200 points in some row: the six that come first in the data,
    not the six with the most points. *)
Theorem plotData_first_six (w : World) (rows : list Dashboard.ConstructorData) :
  Forall (fun r => Dashboard.inherited (Dashboard.constructor r) = false
                   /\ Dashboard.is_index (Dashboard.constructor r) = false) rows ->
  Dashboard.plotData w rows
  = inr (map (Dashboard.series_of rows)
           (firstn 6 (List.filter (Dashboard.competitive rows)
                        (Dashboard.first_seen (map Dashboard.constructor rows))))).
Proof.
  intros H. rewrite List.Forall_forall in H.
  rewrite plotData_eq by (apply List.Forall_forall; intros r Hr; apply H, Hr).
  rewrite key_order_plain; [reflexivity|].
  apply List.Forall_forall. intros k Hk.
  apply In_first_seen, in_map_iff in Hk as (r & <- & Hr). apply H, Hr.
Qed.

Lemma plotData_first_six_witness :
  Dashboard.plotData (Fixtures.world Fixtures.unreachable)
    [ {| Dashboard.constructor := "Minardi";
         Dashboard.year := QArith_base.Qmake 2004 1;
         Dashboard.total_points := QArith_base.Qmake 1 1 |};
      {| Dashboard.constructor := "Ferrari";
         Dashboard.year := QArith_base.Qmake 2004 1;
         Dashboard.total_points := QArith_base.Qmake 262 1 |};
      {| Dashboard.constructor := "Ferrari";
         Dashboard.year := QArith_base.Qmake 2005 1;
         Dashboard.total_points := QArith_base.Qmake 100 1 |} ]
  = inr [ {| Dashboard.plot_x := [QArith_base.Qmake 2004 1; QArith_base.Qmake 2005 1];
             Dashboard.plot_y := [QArith_base.Qmake 262 1; QArith_base.Qmake 100 1];
             Dashboard.plot_name := "Ferrari" |} ].
Proof.
  apply (plotData_first_six (Fixtures.world Fixtures.unreachable)).
  repeat constructor.
Defined.

(** X25. Computing [plotData] throws exactly when some row names its
    constructor like a property that every object inherits ([toString],
    [constructor], [__proto__] and the like): the lookup finds the
    inherited value, no group is created, and [push] is read from
    [undefined]. What is thrown is then that [TypeError]. *)
Theorem plotData_throws_iff (w : World) (rows : list Dashboard.ConstructorData) :
  ((exists e, Dashboard.plotData w rows = inl e)
   <-> Exists (fun r => Dashboard.inherited (Dashboard.constructor r) = true) rows)
  /\ (forall e, Dashboard.plotData w rows = inl e ->
      e = TypeError (type_error_text w "push")).
Proof.
  destruct (inherited_or_not rows) as [Hinh | Hplain].
  - rewrite (plotData_throws w rows Hinh). split.
    + split; [intros _; exact Hinh | eauto].
    + intros e [= <-]. reflexivity.
  - rewrite (plotData_eq w rows Hplain). split.
    + split; [intros [e He]; discriminate He|].
      intros Hinh. apply List.Exists_exists in Hinh as (r & Hr & Hinh).
      rewrite List.Forall_forall in Hplain. specialize (Hplain r Hr). congruence.
    + intros e He. discriminate He.
Qed.

Lemma plotData_throws_iff_witness :
  exists e,
    Dashboard.plotData (Fixtures.world Fixtures.unreachable)
      [ {| Dashboard.constructor := "Ferrari";
           Dashboard.year := QArith_base.Qmake 2004 1;
           Dashboard.total_points := QArith_base.Qmake 262 1 |};
        {| Dashboard.constructor := "toString";
           Dashboard.year := QArith_base.Qmake 2004 1;
           Dashboard.total_points := QArith_base.Qmake 1 1 |} ] = inl e.
Proof.
  apply (proj2 (proj1 (plotData_throws_iff (Fixtures.world Fixtures.unreachable) _))).
  apply Exists_cons_tl, Exists_cons_hd. reflexivity.
Defined.

(** ** The page of a race *)



(** What the page shows of an error that is in the state. *)
Lemma render_error (st : Races.state) :
  Races.loading st = false -> truthy (Races.error st) = true ->
  Races.render st
  = if Races.renderable_value (Races.error st)
    then Some (Races.ErrorAlert (Races.error st)) else None.
Proof. intros Hl He. unfold Races.render. now rewrite Hl, He. Qed.

Lemma fetchRaceDetails_loading (w : World) (result : Races.axios_result)
    (st : Races.state) :
  Races.loading (Races.fetchRaceDetails w result st) = false.
Proof. reflexivity. Qed.




(** A [detail] that is an object leaves the page without an alert:
    rendering throws. The same answer with a string as [detail] shows
    it. *)
Lemma race_error_detail_examples :
  Races.render
    (Races.fetchRaceDetails (Fixtures.world Fixtures.unreachable)
       (Races.AxiosRejects "Request failed with status code 422"
          (Some {| Races.res_status := 422;
                   Races.res_data :=
                     Some (JObj [("detail",
                                  JArr [JObj [("msg", JStr "value is not a valid integer")]])]) |}))
       Races.initial)
  = None
  /\ Races.render
       (Races.fetchRaceDetails (Fixtures.world Fixtures.unreachable)
          (Races.AxiosRejects "Request failed with status code 400"
             (Some {| Races.res_status := 400;
                      Races.res_data := Some (JObj [("detail", JStr "Bad id")]) |}))
          Races.initial)
     = Some (Races.ErrorAlert (Some (JStr "Bad id"))).
Proof. split; reflexivity. Qed.

(** X27. The error alert when [axios.get] fails. A 404 and every status
    from 500 on have fixed messages, which hide the [detail] the server
    sent. For another status a truthy [detail] of the body is put into
    the state as it is, and the alert shows it when React can render it:
    a string, a number, [true], or an array of such; with an object, or
    an array that has one inside, rendering throws. With no [detail], and
    when the server did not answer at all, a message that is not empty is
    shown as a connection error: also a 400 whose body has no
    [detail]. *)
Theorem race_error_message (w : World) (message : string)
    (resp : option Races.response) (st : Races.state) :
  let st' := Races.fetchRaceDetails w (Races.AxiosRejects message resp) st in
  (forall r, resp = Some r -> Races.res_status r = 404%Z ->
     Races.error st'
     = Some (JStr "Race not found. It may have been deleted or the ID is incorrect.")
     /\ Races.render st'
        = Some (Races.ErrorAlert
                  (Some (JStr "Race not found. It may have been deleted or the ID is incorrect."))))
  /\ (forall r, resp = Some r -> (500 <= Races.res_status r)%Z ->
      Races.error st'
      = Some (JStr "Server error occurred. Please try again later.")
      /\ Races.render st'
         = Some (Races.ErrorAlert
                   (Some (JStr "Server error occurred. Please try again later."))))
  /\ (forall r, resp = Some r ->
      Races.res_status r <> 404%Z -> (Races.res_status r < 500)%Z ->
      truthy (Races.member (Races.res_data r) "detail") = true ->
      Races.error st' = Races.member (Races.res_data r) "detail"
      /\ Races.render st'
         = (if Races.renderable_value (Races.member (Races.res_data r) "detail")
            then Some (Races.ErrorAlert (Races.member (Races.res_data r) "detail"))
            else None)
      /\ (forall text,
            Races.member (Races.res_data r) "detail" = Some (JStr text) ->
            Races.render st' = Some (Races.ErrorAlert (Some (JStr text))))
      /\ (forall ms,
            Races.member (Races.res_data r) "detail" = Some (JObj ms) ->
            Races.render st' = None))
  /\ (resp = None
      \/ (exists r, resp = Some r
                    /\ Races.res_status r <> 404%Z /\ (Races.res_status r < 500)%Z
                    /\ truthy (Races.member (Races.res_data r) "detail") = false) ->
      Races.error st'
      = Some (JStr (if nonempty message then "Connection error: " ++ message
                    else "Failed to load race details."))
      /\ Races.render st'
         = Some (Races.ErrorAlert
                   (Some (JStr (if nonempty message
                                then "Connection error: " ++ message
                                else "Failed to load race details."))))).
Proof.
  intros st'.
  assert (Hshow : forall e,
             Races.error st' = e -> truthy e = true ->
             Races.render st'
             = if Races.renderable_value e then Some (Races.ErrorAlert e) else None).
  { intros e <- He. apply render_error; [reflexivity | exact He]. }
  assert (Herr : Races.error st'
                 = Races.errorMessage {| Races.err_message := message;
                                         Races.err_response := resp |}).
  { reflexivity. }
  unfold Races.errorMessage in Herr.
  cbn [Races.err_response Races.err_message] in Herr.
  split; [|split; [|split]].
  - intros r -> Hs. rewrite Hs in Herr. cbn in Herr.
    split; [exact Herr|]. now rewrite (Hshow _ Herr eq_refl).
  - intros r -> Hs.
    destruct (Z.eqb_spec (Races.res_status r) 404) as [H4|_]; [lia|].
    destruct (Z.leb_spec 500 (Races.res_status r)); [|lia].
    split; [exact Herr|]. now rewrite (Hshow _ Herr eq_refl).
  - intros r -> H4 H5 Hd.
    destruct (Z.eqb_spec (Races.res_status r) 404) as [|_]; [contradiction|].
    destruct (Z.leb_spec 500 (Races.res_status r)); [lia|].
    rewrite Hd in Herr.
    split; [exact Herr|]. split; [exact (Hshow _ Herr Hd)|]. split.
    + intros text Htext. rewrite (Hshow _ Herr Hd), Htext. reflexivity.
    + intros ms Hms. rewrite (Hshow _ Herr Hd), Hms. reflexivity.
  - intros Hcase.
    assert (Hmsg : Races.error st'
                   = Some (JStr (if nonempty message
                                 then "Connection error: " ++ message
                                 else "Failed to load race details."))).
    { destruct Hcase as [-> | (r & -> & H4 & H5 & Hd)].
      - rewrite Herr. cbn [truthy undefined]. now destruct (nonempty message).
      - destruct (Z.eqb_spec (Races.res_status r) 404) as [|_]; [contradiction|].
        destruct (Z.leb_spec 500 (Races.res_status r)); [lia|].
        rewrite Hd in Herr. rewrite Herr. now destruct (nonempty message). }
    split; [exact Hmsg|].
    rewrite (Hshow _ Hmsg); [reflexivity|].
    cbn [truthy]. now destruct (nonempty message).
Qed.

Lemma race_error_message_witness :
  Races.error
    (Races.fetchRaceDetails (Fixtures.world Fixtures.unreachable)
       (Races.AxiosRejects "Request failed with status code 400"
          (Some {| Races.res_status := 400; Races.res_data := Some (JObj []) |}))
       Races.initial)
  = Some (JStr "Connection error: Request failed with status code 400").
Proof.
  pose proof (race_error_message (Fixtures.world Fixtures.unreachable)
                "Request failed with status code 400"
                (Some {| Races.res_status := 400;
                         Races.res_data := Some (JObj []) |})
                Races.initial) as H.
  destruct H as (_ & _ & _ & H).
  destruct H as [H _]; [|exact H].
  right. eexists. split; [reflexivity|]. cbn [Races.res_status Races.res_data].
  split; [discriminate|]. split; [lia | reflexivity].
Defined.

Lemma render_after_fetch (w : World) (result : Races.axios_result)
    (st : Races.state) :
  Races.render (Races.fetchRaceDetails w result st) <> Some Races.Spinner.
Proof.
  unfold Races.fetchRaceDetails, Races.render.
  cbn [Races.setLoading Races.loading].
  match goal with |- context [truthy ?e] => destruct (truthy e) end;
    [match goal with |- context [Races.renderable_value ?e] =>
       destruct (Races.renderable_value e) end|];
    discriminate.
Qed.

(** X28. On a page just opened the spinner stays exactly when the route
    gave no [id], or an empty one: the details are then never asked for
    and nothing ends the loading. With an [id], whatever [axios.get] does,
    the spinner is gone when the call has settled. *)
Theorem race_page_spinner (w : World) (axios_get : string -> Races.axios_result)
    (id : option string) :
  Races.render (Races.effect w axios_get id Races.initial) = Some Races.Spinner
  <-> id = None \/ id = Some "".
Proof.
  unfold Races.effect. destruct id as [i|]; [|split; [auto | reflexivity]].
  unfold nonempty. destruct (String.eqb_spec i "") as [->|Hne]; cbn [negb].
  - split; [auto | reflexivity].
  - split.
    + intros H. now apply render_after_fetch in H.
    + intros [H | [= H]]; [discriminate H | contradiction].
Qed.

Lemma race_page_spinner_witness :
  Races.render (Races.effect (Fixtures.world Fixtures.unreachable)
                  (fun _ => Races.AxiosRejects "Network Error" None)
                  None Races.initial) = Some Races.Spinner.
Proof.
  apply (proj2 (race_page_spinner (Fixtures.world Fixtures.unreachable)
                  (fun _ => Races.AxiosRejects "Network Error" None) None)).
  left. reflexivity.
Defined.
